(** * OutfitGroup: a wear-bucketed inventory of outfits

    A shallow embedding of [source/OutfitGroup.cpp] (Endless Sky) and the
    properties of its container operations, its cost function and its
    iterator.

    - [int] is the 32-bit two's complement integer: values are [Z], every
      arithmetic operation of the source is followed by [Int.wrap].
    - [std::map<int, int>] (the [InnerMap], one wear ledger) is a
      [gmap Z Z]; its iteration order, ascending by key, is [keys_asc].
    - [std::map<const Outfit*, InnerMap>] is a [gmap N (gmap Z Z)], keyed
      by the address of the outfit; the null pointer is address [0].
    - [double] is IEEE 754 binary64, computed by the Standard Library's
      [SpecFloat] with precision 53 and maximal exponent 1024. *)

From Stdlib Require Import ZArith Lia Bool List.
From Stdlib Require Import Floats.SpecFloat.
From stdpp Require Import base tactics option list sorting strings gmap fin_maps.

Local Open Scope Z_scope.

(** ** The C++ [int] *)

Module Int.

Definition INT_MIN : Z := - 2 ^ 31.
Definition INT_MAX : Z := 2 ^ 31 - 1.

(** Reduction of a mathematical result to its 32-bit representative. *)
Definition wrap (z : Z) : Z := (z + 2 ^ 31) mod 2 ^ 32 - 2 ^ 31.

Definition in_int (z : Z) : Prop := INT_MIN <= z <= INT_MAX.

Definition add (x y : Z) : Z := wrap (x + y).
Definition sub (x y : Z) : Z := wrap (x - y).
Definition neg (x : Z) : Z := wrap (- x).

End Int.

(** ** The container *)

(** A wear ledger: quantity by wear level. *)
Abbreviation InnerMap := (gmap Z Z).

(** The member [outfits] of an [OutfitGroup]: wear ledger by outfit. *)
Abbreviation OutfitGroup := (gmap N (gmap Z Z)).

(** The null [Outfit] pointer. *)
Definition nullptr : N := 0%N.

(** Keys of a ledger in the order a [std::map] is traversed. *)
Definition keys_asc (led : InnerMap) : list Z :=
  merge_sort Z.le (map_to_list led).*1.

(** Keys from [rbegin()] to [rend()]. *)
Definition keys_desc (led : InnerMap) : list Z := reverse (keys_asc led).

(** The mapped value at a key that is present: [iit->second], and
    [ledger[wear]] read at the key of a live iterator. *)
Definition at_wear (led : InnerMap) (wear : Z) : Z := default 0 (led !! wear).

(** [OutfitGroup::Clear]. *)
Definition Clear (this : OutfitGroup) : OutfitGroup := ∅.

(** [OutfitGroup::Empty]. *)
Definition Empty (this : OutfitGroup) : bool := bool_decide (this = ∅).

(** [OutfitGroup::Find]: the ledger, or the null pointer as [None]. *)
Definition Find (this : OutfitGroup) (outfit : N) : option InnerMap :=
  this !! outfit.

(** [OutfitGroup::GetTotalCount]. *)
Definition GetTotalCount (this : OutfitGroup) (outfit : N) : Z :=
  match this !! outfit with
  | None => 0
  | Some led =>
      foldl (fun count wear => Int.add count (at_wear led wear)) 0 (keys_asc led)
  end.

(** [if (oit->second.empty()) outfits.erase(oit);], [led] being the ledger
    [oit->second] after the statements before. *)
Definition store (outfit : N) (led : InnerMap) (this : OutfitGroup)
  : OutfitGroup :=
  if bool_decide (led = ∅) then delete outfit this else <[outfit := led]> this.

(** [ledger[wear] += count; if (!ledger[wear]) ledger.erase(iit);] on a
    bucket that exists. *)
Definition add_to_bucket (led : InnerMap) (wear count : Z) : InnerMap :=
  let led1 := <[wear := Int.add (at_wear led wear) count]> led in
  if at_wear led1 wear =? 0 then delete wear led1 else led1.

(** [OutfitGroup::AddOutfit]: the new state of the group and the value
    returned. *)
Definition AddOutfit (this : OutfitGroup) (outfit : N) (count wear : Z)
  : OutfitGroup * Z :=
  match this !! outfit with
  | None =>
      (* outfits[outfit] = InnerMap(); outfits[outfit][wear] = count; *)
      (<[outfit := <[wear := count]> ∅]> this, count)
  | Some led =>
      let led' :=
        match led !! wear with
        | None => <[wear := count]> led
        | Some _ => add_to_bucket led wear count
        end in
      (store outfit led' this, count)
  end.

(** *** Removal *)

(** The variables of the two loops of [RemoveOutfit]: the ledger
    [oit->second] of the outfit, the group [*to] when there is one, the
    counter [removed] and, for the most-worn-first loop, the vector
    [toErase]. *)
Record drain_state := DrainState {
  ledger : InnerMap;
  dest : option OutfitGroup;
  removed : Z;
  toErase : list Z
}.

(** The statements the two loop bodies share, at the bucket [iit] of key
    [wear]:
    [int toRemove = std::min(iit->second, count - removed);
     removed += toRemove;
     oit->second[wear] -= toRemove;
     if (to) to->AddOutfit(outfit, toRemove, wear);] *)
Definition drain_bucket (outfit : N) (count wear : Z) (st : drain_state)
  : drain_state :=
  let toRemove := Z.min (at_wear (ledger st) wear) (Int.sub count (removed st)) in
  {| ledger := <[wear := Int.sub (at_wear (ledger st) wear) toRemove]> (ledger st);
     dest := (fun to => (AddOutfit to outfit toRemove wear).1) <$> dest st;
     removed := Int.add (removed st) toRemove;
     toErase := toErase st |}.

(** The do-while loop of the most-worn-first branch, [ws] being the keys
    from the one before [end()] down to [begin()]. The body runs before
    the test; a bucket found at zero is recorded in [toErase]. Decrementing
    [end()] of an empty ledger is undefined in the source: on no key the
    model leaves the state as it is. *)
Fixpoint drain_most_worn (outfit : N) (count : Z) (ws : list Z)
  (st : drain_state) : drain_state :=
  match ws with
  | [] => st
  | wear :: ws' =>
      let st1 := drain_bucket outfit count wear st in
      let st2 :=
        if at_wear (ledger st1) wear =? 0
        then {| ledger := ledger st1; dest := dest st1;
                removed := removed st1; toErase := toErase st1 ++ [wear] |}
        else st1 in
      if (removed st2 <? count) && negb (bool_decide (ws' = []))
      then drain_most_worn outfit count ws' st2
      else st2
  end.

(** [for (auto it : toErase) oit->second.erase(it);] *)
Definition erase_all (ws : list Z) (led : InnerMap) : InnerMap :=
  foldl (fun l wear => delete wear l) led ws.

(** The body of the while loop of the least-worn-first branch: a bucket
    found at zero is erased at once,
    [if (!oit->second[wear]) oit->second.erase(iit++); else ++iit;] *)
Definition drain_step (outfit : N) (count wear : Z) (st : drain_state)
  : drain_state :=
  let st1 := drain_bucket outfit count wear st in
  if at_wear (ledger st1) wear =? 0
  then {| ledger := delete wear (ledger st1); dest := dest st1;
          removed := removed st1; toErase := toErase st1 |}
  else st1.

(** The while loop of the least-worn-first branch, [ws] being the keys
    from [begin()] on. *)
Fixpoint drain_least_worn (outfit : N) (count : Z) (ws : list Z)
  (st : drain_state) : drain_state :=
  match ws with
  | [] => st
  | wear :: ws' =>
      if removed st <? count
      then drain_least_worn outfit count ws' (drain_step outfit count wear st)
      else st
  end.

(** The buckets recorded in [toErase] are erased after the do-while loop. *)
Definition erase_marked (st : drain_state) : drain_state :=
  {| ledger := erase_all (toErase st) (ledger st); dest := dest st;
     removed := removed st; toErase := toErase st |}.

(** [OutfitGroup::RemoveOutfit], for a group [*to] that is not [*this]:
    the value returned, the new state of the group and the new state of
    [*to]. *)
Definition RemoveOutfit (this : OutfitGroup) (outfit : N) (count : Z)
  (mostWornFirst : bool) (to : option OutfitGroup)
  : Z * OutfitGroup * option OutfitGroup :=
  match this !! outfit with
  | None => (0, this, to)
  | Some led =>
      let st0 := {| ledger := led; dest := to; removed := 0; toErase := [] |} in
      let st :=
        if mostWornFirst
        then erase_marked (drain_most_worn outfit count (keys_desc led) st0)
        else drain_least_worn outfit count (keys_asc led) st0 in
      (removed st, store outfit (ledger st) this, dest st)
  end.

(** *** Transfer *)

(** [OutfitGroup::TransferOutfits], for a group [*to] that is not [*this].
    The call on [*to] with the negated count is a recursive call: [fuel]
    bounds the depth of the recursion, and [None] is a recursion that is
    deeper. *)
Fixpoint TransferOutfits (fuel : nat) (this : OutfitGroup) (outfit : N)
  (count : Z) (to : option OutfitGroup) (mostWornFirst : bool)
  (defaultWear : Z) : option (Z * OutfitGroup * option OutfitGroup) :=
  match fuel with
  | O => None
  | S fuel' =>
      if (count =? 0) || (outfit =? nullptr)%N then Some (0, this, to)
      else
        match to with
        | None =>
            if 0 <? count
            then Some (RemoveOutfit this outfit count mostWornFirst None)
            else
              let '(this', added) :=
                AddOutfit this outfit (Int.neg count) defaultWear in
              Some (Int.neg added, this', None)
        | Some other =>
            if count <? 0 then
              match TransferOutfits fuel' other outfit (Int.neg count)
                      (Some this) mostWornFirst defaultWear with
              | Some (n, other', Some this') =>
                  Some (Int.neg n, this', Some other')
              | _ => None
              end
            else Some (RemoveOutfit this outfit count mostWornFirst (Some other))
        end
  end.

(** *** Ageing *)

(** The inner loop of [IncrementWear]: the ledger is copied to [temp],
    cleared, and every bucket of [temp] is written back at its key plus
    [value]. *)
Definition shift_ledger (value : Z) (temp : InnerMap) : InnerMap :=
  foldl (fun led wear => <[Int.add wear value := at_wear temp wear]> led)
        ∅ (keys_asc temp).

(** Outfits in the order the outer [std::map] is traversed. *)
Definition outfits_asc (this : OutfitGroup) : list N :=
  merge_sort N.le (map_to_list this).*1.

(** [OutfitGroup::IncrementWear]. The loop variable [oit] is a copy of the
    entry, the ledger written is [outfits[oit.first]]. *)
Definition IncrementWear (value : Z) (this : OutfitGroup) : OutfitGroup :=
  foldl (fun outfits outfit =>
           match this !! outfit with
           | Some led => <[outfit := shift_ledger value led]> outfits
           | None => outfits
           end)
        this (outfits_asc this).

(** Quantity held at one wear level, zero when there is no such bucket. *)
Definition quantity (this : OutfitGroup) (outfit : N) (wear : Z) : Z :=
  match this !! outfit with
  | Some led => at_wear led wear
  | None => 0
  end.

(** Sum of a list of integers, without wrap-around. *)
Definition Zsum (l : list Z) : Z := foldr Z.add 0 l.

(** The number of units in a ledger, as a mathematical integer. *)
Definition ledger_total (led : InnerMap) : Z := Zsum (map_to_list led).*2.

(** The number of units of an outfit in a group, as a mathematical
    integer; [GetTotalCount] is this number reduced to 32 bits. *)
Definition total_quantity (this : OutfitGroup) (outfit : N) : Z :=
  match this !! outfit with
  | Some led => ledger_total led
  | None => 0
  end.

(** The ledger of an outfit, empty when the group holds none. *)
Definition ledger_of (this : OutfitGroup) (outfit : N) : InnerMap :=
  match this !! outfit with
  | Some led => led
  | None => ∅
  end.

(** The ledger of the outfit after [AddOutfit], before the test for an
    empty ledger. *)
Definition added_ledger (this : OutfitGroup) (outfit : N) (count wear : Z)
  : InnerMap :=
  match this !! outfit with
  | None => <[wear := count]> ∅
  | Some led =>
      match led !! wear with
      | None => <[wear := count]> led
      | Some _ => add_to_bucket led wear count
      end
  end.

(** The number of units a traversal takes from the bucket at [w] when it
    visits the buckets of keys [ws] in this order, [q] giving the quantity
    of each bucket and [need] the number of units still to remove. *)
Fixpoint taken (q : Z -> Z) (need : Z) (ws : list Z) (w : Z) : Z :=
  match ws with
  | [] => 0
  | w0 :: ws' =>
      if 0 <? need then
        if decide (w = w0) then Z.min (q w0) need
        else taken q (need - Z.min (q w0) need) ws' w
      else 0
  end.

(** The number of units held at wear levels strictly above [w]. *)
Definition more_worn (led : InnerMap) (w : Z) : Z :=
  Zsum (filter (fun p => w < p.1) (map_to_list led)).*2.

(** The number of units held at wear levels strictly below [w]. *)
Definition less_worn (led : InnerMap) (w : Z) : Z :=
  Zsum (filter (fun p => p.1 < w) (map_to_list led)).*2.

(** The deposits a traversal makes in the group [*to]: one [AddOutfit]
    for every bucket from which [t] units were taken. *)
Definition deposits (outfit : N) (t : Z -> Z) (ws : list Z) (to : OutfitGroup)
  : OutfitGroup :=
  foldl (fun g w => if t w =? 0 then g else (AddOutfit g outfit (t w) w).1) to ws.

(** What the loops of [RemoveOutfit] are entitled to on the buckets [ws]
    they still have to visit: the keys are distinct, the quantities are
    positive values of type [int], and [removed] has not passed [count]. *)
Definition drain_pre (count : Z) (ws : list Z) (st : drain_state) : Prop :=
  NoDup ws /\
  (forall w, w ∈ ws -> 0 < at_wear (ledger st) w <= Int.INT_MAX) /\
  0 <= removed st <= count.

(** Two states of a loop that agree on everything but [toErase]. *)
Definition same_goods (st1 st2 : drain_state) : Prop :=
  ledger st1 = ledger st2 /\ dest st1 = dest st2 /\ removed st1 = removed st2.

(** A ledger from which [t w] units were taken at every wear level [w],
    the buckets left at zero being erased. *)
Definition withdrawn (t : Z -> Z) (led : InnerMap) : InnerMap :=
  map_imap (fun w q => if q - t w =? 0 then None else Some (q - t w)) led.

(** The group holds a bucket of [q] units of the outfit at wear [w]. *)
Definition bucket (this : OutfitGroup) (outfit : N) (w q : Z) : Prop :=
  ledger_of this outfit !! w = Some q.

(** *** Sequences of calls *)

(** A call of a public operation on the group of index [this], the group
    [*to] being given by its index as well. *)
Inductive call :=
| CallAddOutfit (this : nat) (outfit : N) (count wear : Z)
| CallRemoveOutfit (this : nat) (outfit : N) (count : Z)
    (mostWornFirst : bool) (to : option nat)
| CallTransferOutfits (this : nat) (outfit : N) (count : Z) (to : option nat)
    (mostWornFirst : bool) (defaultWear : Z)
| CallIncrementWear (this : nat) (value : Z)
| CallClear (this : nat).

(** A method that may write to [*this] and to [*to], run on the groups of
    a program. The result is [None] when an index names no group, when
    [*to] is [*this] (the embedding of the methods is for two different
    groups) and when the method has no result. *)
Definition call_on (this : nat) (to : option nat) (groups : list OutfitGroup)
  (method : OutfitGroup -> option OutfitGroup
            -> option (OutfitGroup * option OutfitGroup))
  : option (list OutfitGroup) :=
  match groups !! this with
  | None => None
  | Some g =>
      match to with
      | None =>
          match method g None with
          | Some (g', _) => Some (<[this := g']> groups)
          | None => None
          end
      | Some j =>
          if decide (this = j) then None
          else
            match groups !! j with
            | None => None
            | Some h =>
                match method g (Some h) with
                | Some (g', Some h') => Some (<[j := h']> (<[this := g']> groups))
                | _ => None
                end
            end
      end
  end.

(** The effect of one call on the groups of a program. *)
Definition run_call (c : call) (groups : list OutfitGroup)
  : option (list OutfitGroup) :=
  match c with
  | CallAddOutfit this outfit count wear =>
      call_on this None groups
        (fun g _ => Some ((AddOutfit g outfit count wear).1, None))
  | CallRemoveOutfit this outfit count mostWornFirst to =>
      call_on this to groups
        (fun g h => let '(_, g', h') := RemoveOutfit g outfit count mostWornFirst h in
                    Some (g', h'))
  | CallTransferOutfits this outfit count to mostWornFirst defaultWear =>
      call_on this to groups
        (fun g h =>
           match TransferOutfits 2 g outfit count h mostWornFirst defaultWear with
           | Some (_, g', h') => Some (g', h')
           | None => None
           end)
  | CallIncrementWear this value =>
      call_on this None groups (fun g _ => Some (IncrementWear value g, None))
  | CallClear this =>
      call_on this None groups (fun g _ => Some (Clear g, None))
  end.

(** The effect of a sequence of calls. *)
Fixpoint run (cs : list call) (groups : list OutfitGroup)
  : option (list OutfitGroup) :=
  match cs with
  | [] => Some groups
  | c :: cs' =>
      match run_call c groups with
      | Some groups' => run cs' groups'
      | None => None
      end
  end.

(** The units of the outfit that the two groups of a call hold fit
    together in an [int]. *)
Definition fits (groups : list OutfitGroup) (this : nat) (to : option nat)
  (outfit : N) : Prop :=
  match to with
  | None => True
  | Some j =>
      forall g h, groups !! this = Some g -> groups !! j = Some h ->
        total_quantity g outfit + total_quantity h outfit <= Int.INT_MAX
  end.

(** The bucket that [AddOutfit] writes does not overflow. *)
Definition bucket_fits (groups : list OutfitGroup) (this : nat) (outfit : N)
  (count wear : Z) : Prop :=
  forall g, groups !! this = Some g -> quantity g outfit wear + count <= Int.INT_MAX.

(** The bucket that [AddOutfit] writes ends up with a positive quantity,
    without overflow. *)
Definition bucket_positive (groups : list OutfitGroup) (this : nat) (outfit : N)
  (count wear : Z) : Prop :=
  forall g, groups !! this = Some g ->
    0 < quantity g outfit wear + count <= Int.INT_MAX.

(** The calls the invariant of the groups is proved for: the arguments are
    values of type [int], [AddOutfit] leaves the bucket it writes positive
    (so for every positive count, and for a negative count that takes
    less than the bucket holds), [RemoveOutfit] is asked for a positive
    number of units, the count of [TransferOutfits] can be negated, and
    no quantity overflows. *)
Definition admissible (groups : list OutfitGroup) (c : call) : Prop :=
  match c with
  | CallAddOutfit this outfit count wear =>
      Int.in_int count /\ Int.in_int wear
      /\ bucket_positive groups this outfit count wear
  | CallRemoveOutfit this outfit count _ to =>
      Int.in_int count /\ 0 < count /\ fits groups this to outfit
  | CallTransferOutfits this outfit count to _ defaultWear =>
      Int.in_int count /\ Int.INT_MIN < count /\ Int.in_int defaultWear
      /\ fits groups this to outfit
      /\ (to = None -> count < 0 ->
          bucket_fits groups this outfit (- count) defaultWear)
  | CallIncrementWear _ _ => True
  | CallClear _ => True
  end.

(** Every call of the sequence is admissible in the state it is made in. *)
Fixpoint admissible_run (cs : list call) (groups : list OutfitGroup) : Prop :=
  match cs with
  | [] => True
  | c :: cs' =>
      admissible groups c
      /\ forall groups', run_call c groups = Some groups' ->
           admissible_run cs' groups'
  end.

(** *** The iterator *)

(** A position in the outer map: the entry of an outfit, or [end()]. *)
Inductive outer_pos :=
| OuterAt (outfit : N)
| OuterEnd.

(** A position in a ledger: the bucket of an outfit at a wear level, the
    [end()] of the ledger of an outfit, or [InnerOfEnd], the position the
    constructors compute as [outerIter->second.begin()] when [outerIter]
    is [outfits.end()]. That position belongs to no ledger of the group:
    it is not the [end()] of the ledger of an outfit. *)
Inductive inner_pos :=
| InnerAt (outfit : N) (wear : Z)
| InnerEnd (outfit : N)
| InnerOfEnd.

#[global] Instance outer_pos_eq_dec : EqDecision outer_pos.
Proof. solve_decision. Defined.

#[global] Instance inner_pos_eq_dec : EqDecision inner_pos.
Proof. solve_decision. Defined.

(** [OutfitGroup::iterator]; [myGroup] is the address of the group. *)
Record iterator := Iterator {
  myGroup : nat;
  outerIter : outer_pos;
  innerIter : inner_pos;
  isEnd : bool
}.

(** [outfits.begin()]. *)
Definition outer_begin (group : OutfitGroup) : outer_pos :=
  match outfits_asc group with
  | outfit :: _ => OuterAt outfit
  | [] => OuterEnd
  end.

(** [++outerIter]. *)
Definition outer_next (group : OutfitGroup) (pos : outer_pos) : outer_pos :=
  match pos with
  | OuterAt outfit =>
      match filter (fun o => (outfit < o)%N) (outfits_asc group) with
      | o :: _ => OuterAt o
      | [] => OuterEnd
      end
  | OuterEnd => OuterEnd
  end.

(** [outerIter->second.begin()]. *)
Definition inner_begin (group : OutfitGroup) (pos : outer_pos) : inner_pos :=
  match pos with
  | OuterAt outfit =>
      match keys_asc (ledger_of group outfit) with
      | wear :: _ => InnerAt outfit wear
      | [] => InnerEnd outfit
      end
  | OuterEnd => InnerOfEnd
  end.

(** [outerIter->second.end()], for an [outerIter] that is not [end()]. *)
Definition inner_end (pos : outer_pos) : inner_pos :=
  match pos with
  | OuterAt outfit => InnerEnd outfit
  | OuterEnd => InnerOfEnd
  end.

(** [++innerIter]. *)
Definition inner_next (group : OutfitGroup) (pos : inner_pos) : inner_pos :=
  match pos with
  | InnerAt outfit wear =>
      match filter (fun w => wear < w) (keys_asc (ledger_of group outfit)) with
      | w :: _ => InnerAt outfit w
      | [] => InnerEnd outfit
      end
  | _ => pos
  end.

(** [iterator::iterator(const OutfitGroup* group, bool begin)]. *)
Definition iterator_begin_or_end (address : nat) (group : OutfitGroup)
  (begin : bool) : iterator :=
  if begin && negb (Empty group)
  then {| myGroup := address; outerIter := outer_begin group;
          innerIter := inner_begin group (outer_begin group); isEnd := false |}
  else {| myGroup := address; outerIter := OuterEnd;
          innerIter := inner_begin group OuterEnd; isEnd := true |}.

(** [iterator::iterator(const OutfitGroup* group, const Outfit* outfit)]. *)
Definition iterator_find (address : nat) (group : OutfitGroup) (outfit : N)
  : iterator :=
  let outer := match group !! outfit with
               | Some _ => OuterAt outfit
               | None => OuterEnd
               end in
  let inner := inner_begin group outer in
  {| myGroup := address; outerIter := outer; innerIter := inner;
     isEnd := bool_decide (outer = OuterEnd)
              || bool_decide (inner = inner_end outer) |}.

(** [OutfitGroup::begin], [OutfitGroup::end] and [OutfitGroup::find]. *)
Definition begin_ (address : nat) (group : OutfitGroup) : iterator :=
  iterator_begin_or_end address group true.

Definition end_ (address : nat) (group : OutfitGroup) : iterator :=
  iterator_begin_or_end address group false.

Definition find (address : nat) (group : OutfitGroup) (outfit : N) : iterator :=
  iterator_find address group outfit.

(** [iterator::operator++]. *)
Definition operator_incr (group : OutfitGroup) (it : iterator) : iterator :=
  let inner := inner_next group (innerIter it) in
  if bool_decide (inner = inner_end (outerIter it)) then
    let outer := outer_next group (outerIter it) in
    if bool_decide (outer = OuterEnd)
    then {| myGroup := myGroup it; outerIter := outer; innerIter := inner;
            isEnd := true |}
    else {| myGroup := myGroup it; outerIter := outer;
            innerIter := inner_begin group outer; isEnd := isEnd it |}
  else {| myGroup := myGroup it; outerIter := outerIter it; innerIter := inner;
          isEnd := isEnd it |}.

(** [iterator::operator!=]. *)
Definition operator_ne (it other : iterator) : bool :=
  if isEnd it && isEnd other then false
  else negb (bool_decide (myGroup it = myGroup other))
       || negb (bool_decide (outerIter it = outerIter other))
       || negb (bool_decide (innerIter it = innerIter other)).

(** [iterator::operator==]. *)
Definition operator_eq (it other : iterator) : bool :=
  bool_decide (outerIter it = outerIter other)
  && bool_decide (innerIter it = innerIter other).

(** The equality of cursors the specification describes: both exhausted,
    or at the same item and the same wear position. *)
Definition same_cursor (it other : iterator) : Prop :=
  (isEnd it = true /\ isEnd other = true)
  \/ (outerIter it = outerIter other /\ innerIter it = innerIter other).

(** *** The cost function *)

(** The C++ [double], as the Standard Library specifies IEEE 754 binary64:
    53 bits of precision, rounding to nearest, ties to even. *)
Module Double.

Definition prec : Z := 53.
Definition emax : Z := 1024.

Definition mul : spec_float -> spec_float -> spec_float := SFmul prec emax.
Definition sub : spec_float -> spec_float -> spec_float := SFsub prec emax.
Definition div : spec_float -> spec_float -> spec_float := SFdiv prec emax.

(** Conversion of an integer to [double]. *)
Definition of_int (z : Z) : spec_float := binary_normalize prec emax z 0 false.

(** [std::max (a, b)], that is [(a < b) ? b : a]. *)
Definition max (a b : spec_float) : spec_float := if SFltb a b then b else a.

(** Conversion of a [double] to [bool]: everything but zero is true. *)
Definition nonzero (x : spec_float) : bool :=
  match x with
  | S754_zero _ => false
  | _ => true
  end.

(** [static_cast<int64_t>]: the fractional part is discarded. The source
    has no defined result for a value outside of [int64_t], for an
    infinity or for a NaN; the model gives the integer part, and 0 for the
    last two. *)
Definition to_int64 (x : spec_float) : Z :=
  match x with
  | S754_finite s m e =>
      let magnitude :=
        match e with
        | Z0 => Zpos m
        | Zpos _ => Zpos m * 2 ^ e
        | Zneg _ => Zpos m / 2 ^ (- e)
        end in
      if s then - magnitude else magnitude
  | _ => 0
  end.

(** The literal [1.]. *)
Definition one : spec_float := S754_finite false 4503599627370496 (-52).

End Double.

(** [m / 2 ^ n] rounded to the nearest integer, ties to even. *)
Definition rne (m n : Z) : Z :=
  if n <=? 0 then m
  else
    let q := m / 2 ^ n in
    let rem := m mod 2 ^ n in
    if 2 * rem <? 2 ^ n then q
    else if 2 ^ n <? 2 * rem then q + 1
    else if Z.even q then q else q + 1.

(** The mantissa and the exponent of [m * 2 ^ e] rounded to 53 bits, for a
    mantissa [m] of 53 bits at least. *)
Definition round_pos (m e : Z) : Z * Z :=
  let n := Zdigits2 m - 53 in
  let m1 := rne m n in
  if m1 =? 2 ^ 53 then (2 ^ 52, e + n + 1) else (m1, e + n).

(** The order of two pairs of a mantissa of 53 bits and an exponent. *)
Definition lex_le (x y : Z * Z) : Prop :=
  x.2 < y.2 \/ (x.2 = y.2 /\ x.1 <= y.1).

(** A positive [double] whose mantissa has 53 bits and whose exponent is
    that of a number between 2 ^ -8 and 2. *)
Definition canonicalb (x : spec_float) : bool :=
  match x with
  | S754_finite false m e =>
      (Zpos (digits2_pos m) =? 53) && (-60 <=? e) && (e <=? -52)
  | _ => false
  end.

(** [x <= y], for two such numbers. *)
Definition fleb (x y : spec_float) : bool :=
  match x, y with
  | S754_finite false m1 e1, S754_finite false m2 e2 =>
      (e1 <? e2) || ((e1 =? e2) && (Zpos m1 <=? Zpos m2))
  | _, _ => false
  end.

(** The constants of the anonymous namespace: the doubles nearest to 0.40,
    0.90 and 0.0020. *)
Definition DEFAULT_MIN_PRICE : spec_float :=
  S754_finite false 7205759403792794 (-54).
Definition DEFAULT_MAX_PRICE : spec_float :=
  S754_finite false 8106479329266893 (-53).
Definition DEFAULT_DEPRECIATION_RATE : spec_float :=
  S754_finite false 4611686018427388 (-61).

(** What [OutfitGroup.cpp] uses of an [Outfit]: [Cost()], [Category()] and
    [Get(attribute)], which are declared in [Outfit.h]. The source keeps
    the result of [Cost()] in an [int64_t] ([iterator::GetTotalBaseCost],
    [int64_t baseCost = GetOutfit()->Cost()]) and tests the result of
    [Get("ageless")] as a condition. *)
Record Outfit := {
  Cost : Z;
  Category : string;
  Get : string -> spec_float
}.

(** [OutfitGroup::CostFunction(int wear, double minValue, double maxValue,
    double lossPerDay)]. *)
Definition CostFunction_curve (wear : Z) (minValue maxValue lossPerDay : spec_float)
  : spec_float :=
  if wear =? 0 then Double.one
  else Double.max minValue
         (Double.sub maxValue
            (Double.mul lossPerDay (Double.of_int (Int.sub wear 1)))).

(** [OutfitGroup::CostFunction(int wear)]. *)
Definition CostFunction_wear (wear : Z) : spec_float :=
  CostFunction_curve wear DEFAULT_MIN_PRICE DEFAULT_MAX_PRICE
    DEFAULT_DEPRECIATION_RATE.

(** [OutfitGroup::CostFunction(const Outfit *outfit, int wear)]. *)
Definition CostFunction (outfit : Outfit) (wear : Z) : Z :=
  let wear :=
    if Double.nonzero (Get outfit "ageless")
       || bool_decide (Category outfit = "Ammunition")
    then 0 else wear in
  Double.to_int64
    (Double.mul (Double.of_int (Cost outfit)) (CostFunction_wear wear)).

(** The factors of the wear levels 0 to 257 are numbers of 53 bits that
    do not increase with the wear level (a finite check). *)
Definition wear_table_ok : bool :=
  forallb (fun n =>
             let w := Z.of_nat n in
             canonicalb (CostFunction_wear w)
             && fleb (CostFunction_wear (w + 1)) (CostFunction_wear w))
          (seq 0 257).

(** An outfit of base cost 1000 that depreciates. *)
Definition outfit_1000 : Outfit :=
  {| Cost := 1000; Category := "Guns"; Get := fun _ => S754_zero false |}.

(** An ageless outfit whose base cost is not a [double]: 2 ^ 53 + 1. *)
Definition outfit_ageless_huge : Outfit :=
  {| Cost := 9007199254740993; Category := "Hand to Hand";
     Get := fun attribute =>
              if bool_decide (attribute = "ageless") then Double.one
              else S754_zero false |}.

(** Ammunition of base cost 500. *)
Definition outfit_ammunition : Outfit :=
  {| Cost := 500; Category := "Ammunition"; Get := fun _ => S754_zero false |}.

(** An outfit of negative base cost that depreciates. *)
Definition outfit_negative : Outfit :=
  {| Cost := -1000; Category := "Guns"; Get := fun _ => S754_zero false |}.

(** An outfit that depreciates and whose base cost is 2 ^ 53 + 1. *)
Definition outfit_huge : Outfit :=
  {| Cost := 9007199254740993; Category := "Guns";
     Get := fun _ => S754_zero false |}.

(** ** The queries *)

(** *** The C++ [int64_t] *)

Module Int64.

Definition INT64_MIN : Z := - 2 ^ 63.
Definition INT64_MAX : Z := 2 ^ 63 - 1.

Definition wrap (z : Z) : Z := (z + 2 ^ 63) mod 2 ^ 64 - 2 ^ 63.

Definition in_int64 (z : Z) : Prop := INT64_MIN <= z <= INT64_MAX.

Definition add (x y : Z) : Z := wrap (x + y).
Definition mul (x y : Z) : Z := wrap (x * y).

End Int64.

(** [OutfitGroup::GetMinWear]: [matchingOutfits->begin()->first], and -1
    when [Find] gives the null pointer or an empty ledger. *)
Definition GetMinWear (this : OutfitGroup) (outfit : N) : Z :=
  match Find this outfit with
  | None => -1
  | Some matchingOutfits =>
      match keys_asc matchingOutfits with
      | [] => -1
      | wear :: _ => wear
      end
  end.

(** [OutfitGroup::GetMaxWear]: [matchingOutfits->rbegin()->first]. *)
Definition GetMaxWear (this : OutfitGroup) (outfit : N) : Z :=
  match Find this outfit with
  | None => -1
  | Some matchingOutfits =>
      match keys_desc matchingOutfits with
      | [] => -1
      | wear :: _ => wear
      end
  end.

(** The loop of [GetCost], the same in both branches but for the order
    [ws] of the buckets:
    [int matched = std::min(it->second, count);
     cost += CostFunction(outfit, it->first) * matched;
     count -= matched;
     if (count <= 0) break;] *)
Fixpoint GetCost_loop (outfit : Outfit) (led : InnerMap) (ws : list Z)
  (count cost : Z) : Z :=
  match ws with
  | [] => cost
  | wear :: ws' =>
      let matched := Z.min (at_wear led wear) count in
      let cost' := Int64.add cost (Int64.mul (CostFunction outfit wear) matched) in
      let count' := Int.sub count matched in
      if count' <=? 0 then cost' else GetCost_loop outfit led ws' count' cost'
  end.

(** [OutfitGroup::GetCost]; [objects] gives the [Outfit] that a pointer
    addresses. *)
Definition GetCost (objects : N -> Outfit) (this : OutfitGroup) (outfit : N)
  (count : Z) (mostWornFirst : bool) : Z :=
  match this !! outfit with
  | None => 0
  | Some led =>
      GetCost_loop (objects outfit) led
        (if mostWornFirst then keys_desc led else keys_asc led) count 0
  end.

(** The price of [need] units drawn from the buckets [ws] in this order,
    [p] giving the price of a unit and [q] the quantity held at each wear
    level, as a mathematical integer. *)
Fixpoint quote (p q : Z -> Z) (need : Z) (ws : list Z) : Z :=
  match ws with
  | [] => 0
  | w :: ws' =>
      p w * Z.min (q w) need + quote p q (need - Z.min (q w) need) ws'
  end.

(** *** The accessors of the iterator and the loops over it *)

(** [iterator::GetOutfit], [iterator::GetWear] and
    [iterator::GetQuantity] read [outerIter->first], [innerIter->first]
    and [innerIter->second]: the result is [None] where the iterator read
    is an [end()], which the source has no defined result for. *)
Definition GetOutfit (it : iterator) : option N :=
  match outerIter it with
  | OuterAt outfit => Some outfit
  | OuterEnd => None
  end.

Definition GetWear (it : iterator) : option Z :=
  match innerIter it with
  | InnerAt _ wear => Some wear
  | _ => None
  end.

Definition GetQuantity (group : OutfitGroup) (it : iterator) : option Z :=
  match innerIter it with
  | InnerAt outfit wear => ledger_of group outfit !! wear
  | _ => None
  end.

(** [iterator::GetTotalBaseCost]. *)
Definition iterator_GetTotalBaseCost (objects : N -> Outfit)
  (group : OutfitGroup) (it : iterator) : option Z :=
  outfit ← GetOutfit it;
  quantity ← GetQuantity group it;
  Some (Int64.mul (Cost (objects outfit)) quantity).

(** [iterator::GetTotalCost]. *)
Definition iterator_GetTotalCost (objects : N -> Outfit)
  (group : OutfitGroup) (it : iterator) : option Z :=
  outfit ← GetOutfit it;
  wear ← GetWear it;
  quantity ← GetQuantity group it;
  Some (Int64.mul (CostFunction (objects outfit) wear) quantity).

(** [iterator::GetCostRatio]. *)
Definition GetCostRatio (it : iterator) : option spec_float :=
  CostFunction_wear <$> GetWear it.

(** What a loop over the iterator comes to: a value; [ReadsEnd], when an
    accessor of the iterator is called on an iterator that stands at an
    [end()]; or more iterations than [fuel] allows. *)
Inductive outcome (A : Type) :=
| Returns (a : A)
| ReadsEnd
| OutOfFuel.

Arguments Returns {A} a.
Arguments ReadsEnd {A}.
Arguments OutOfFuel {A}.

(** [for (auto it = begin(); it != end(); ++it) body], from the iterator
    [it] on; [body] works on the variables of the loop. *)
Fixpoint for_each {A : Type} (fuel : nat) (address : nat) (group : OutfitGroup)
  (body : iterator -> A -> option A) (it : iterator) (acc : A) : outcome A :=
  match fuel with
  | O => OutOfFuel
  | S fuel' =>
      if operator_ne it (end_ address group) then
        match body it acc with
        | Some acc' =>
            for_each fuel' address group body (operator_incr group it) acc'
        | None => ReadsEnd
        end
      else Returns acc
  end.

(** [OutfitGroup::GetTotalCost()]: [cost += it.GetTotalCost()] over the
    whole group. *)
Definition GetTotalCost (fuel : nat) (objects : N -> Outfit) (address : nat)
  (group : OutfitGroup) : outcome Z :=
  for_each fuel address group
    (fun it cost => Int64.add cost <$> iterator_GetTotalCost objects group it)
    (begin_ address group) 0.

(** The addition of two [double]. *)
Definition double_add : spec_float -> spec_float -> spec_float :=
  SFadd Double.prec Double.emax.

(** [OutfitGroup::GetTotalAttribute]:
    [value += it.GetOutfit()->Get(attribute) * it.GetQuantity()]. *)
Definition GetTotalAttribute (fuel : nat) (objects : N -> Outfit)
  (address : nat) (group : OutfitGroup) (attribute : string)
  : outcome spec_float :=
  for_each fuel address group
    (fun it value =>
       outfit ← GetOutfit it;
       quantity ← GetQuantity group it;
       Some (double_add value
               (Double.mul (Get (objects outfit) attribute)
                  (Double.of_int quantity))))
    (begin_ address group) (S754_zero false).

(** The loop of [OutfitGroup::GetTotalCost(const Outfit *outfit)],
    [for (auto it = find(outfit); it.GetOutfit() == outfit; ++it)
       cost += it.GetTotalCost();], from the iterator [it] on. *)
Fixpoint GetTotalCost_of_loop (fuel : nat) (objects : N -> Outfit)
  (group : OutfitGroup) (outfit : N) (it : iterator) (cost : Z) : outcome Z :=
  match fuel with
  | O => OutOfFuel
  | S fuel' =>
      match GetOutfit it with
      | None => ReadsEnd
      | Some o =>
          if bool_decide (o = outfit) then
            match iterator_GetTotalCost objects group it with
            | Some c =>
                GetTotalCost_of_loop fuel' objects group outfit
                  (operator_incr group it) (Int64.add cost c)
            | None => ReadsEnd
            end
          else Returns cost
      end
  end.

(** [OutfitGroup::GetTotalCost(const Outfit *outfit)]. *)
Definition GetTotalCost_of (fuel : nat) (objects : N -> Outfit) (address : nat)
  (group : OutfitGroup) (outfit : N) : outcome Z :=
  GetTotalCost_of_loop fuel objects group outfit (find address group outfit) 0.

(** The iterator at the bucket of an outfit at a wear level. *)
Definition cursor (address : nat) (position : N * Z) : iterator :=
  {| myGroup := address; outerIter := OuterAt position.1;
     innerIter := InnerAt position.1 position.2; isEnd := false |}.

(** The buckets of the ledgers [outfits] of a group, in the order of the
    list, every ledger by ascending wear level. *)
Definition positions_of (group : OutfitGroup) (outfits : list N) : list (N * Z) :=
  outfit ← outfits; (fun wear => (outfit, wear)) <$> keys_asc (ledger_of group outfit).

(** All buckets of a group, by ascending outfit and wear level. *)
Definition positions (group : OutfitGroup) : list (N * Z) :=
  positions_of group (outfits_asc group).

(** No outfit of the group has an empty ledger. *)
Definition no_empty_ledger (group : OutfitGroup) : Prop :=
  map_Forall (fun _ led => led <> (∅ : InnerMap)) group.

(** The body of a loop run at every iterator of a list, in order. *)
Fixpoint run_body {A : Type} (body : iterator -> A -> option A)
  (its : list iterator) (acc : A) : option A :=
  match its with
  | [] => Some acc
  | it :: its' =>
      match body it acc with
      | Some acc' => run_body body its' acc'
      | None => None
      end
  end.

(** The iterator at the first bucket of the ledger of an outfit. *)
Definition ledger_begin (address : nat) (group : OutfitGroup) (outfit : N)
  : iterator :=
  {| myGroup := address; outerIter := OuterAt outfit;
     innerIter := inner_begin group (OuterAt outfit); isEnd := false |}.

(** The iterator that [operator++] leaves after the last bucket of the
    last outfit. *)
Definition exhausted (address : nat) (outfit : N) : iterator :=
  {| myGroup := address; outerIter := OuterEnd; innerIter := InnerEnd outfit;
     isEnd := true |}.

(** What a loop comes to when its body has run over the iterators that
    remain. *)
Definition finish {A : Type} (r : option A) : outcome A :=
  match r with
  | Some acc => Returns acc
  | None => ReadsEnd
  end.

(** The iterator after the last bucket of the outfit [o], the outfits
    after [o] being [opost]. *)
Definition after_ledger (address : nat) (group : OutfitGroup) (o : N)
  (opost : list N) : iterator :=
  match opost with
  | o' :: _ => ledger_begin address group o'
  | [] => exhausted address o
  end.

(** The bucket an iterator is at: outfit, wear level and quantity. *)
Definition bucket_at (group : OutfitGroup) (it : iterator) : option (N * Z * Z) :=
  outfit ← GetOutfit it;
  wear ← GetWear it;
  quantity ← GetQuantity group it;
  Some (outfit, wear, quantity).

(** The order of the buckets: by outfit, then by wear level. *)
Definition position_lt (p1 p2 : N * Z) : Prop :=
  (p1.1 < p2.1)%N \/ (p1.1 = p2.1 /\ p1.2 < p2.2).

(** *** Random wear *)

(** [static_cast<int>] of a [double]: the fractional part is discarded.
    The source has no defined result for a value outside of [int]; the
    model reduces the integer part to 32 bits. *)
Definition double_to_int (x : spec_float) : Z := Int.wrap (Double.to_int64 x).

(** The literals 0.2, 0.5, 0.7 and 0.9 of [UsedWear] and [PlunderWear]:
    the doubles nearest to them. *)
Definition percent_20 : spec_float := S754_finite false 7205759403792794 (-55).
Definition percent_50 : spec_float := S754_finite false 4503599627370496 (-53).
Definition percent_70 : spec_float := S754_finite false 6305039478318694 (-53).
Definition percent_90 : spec_float := S754_finite false 8106479329266893 (-53).

(** [OutfitGroup::GetRandomWear]. [Random_Int] stands for [Random::Int],
    which is declared in [Random.h]: the source of random numbers is an
    argument of the model. *)
Definition GetRandomWear (Random_Int : Z -> Z)
  (minDeprecationPercent maxDeprecationPercent minValue maxValue lossPerDay
   : spec_float) : Z :=
  let fullDepreciationWear :=
    double_add (Double.div (Double.sub maxValue minValue) lossPerDay)
      (Double.of_int 1) in
  let min := double_to_int (Double.mul fullDepreciationWear minDeprecationPercent) in
  let max := double_to_int (Double.mul fullDepreciationWear maxDeprecationPercent) in
  Int.add (Random_Int (Int.sub max min)) min.

(** [OutfitGroup::UsedWear]. *)
Definition UsedWear (Random_Int : Z -> Z) : Z :=
  GetRandomWear Random_Int percent_20 percent_50
    DEFAULT_MIN_PRICE DEFAULT_MAX_PRICE DEFAULT_DEPRECIATION_RATE.

(** [OutfitGroup::PlunderWear]. *)
Definition PlunderWear (Random_Int : Z -> Z) : Z :=
  GetRandomWear Random_Int percent_70 percent_90
    DEFAULT_MIN_PRICE DEFAULT_MAX_PRICE DEFAULT_DEPRECIATION_RATE.

(** *** The invariants of the data model *)

(** Every wear level and every quantity stored is a value of type [int]. *)
Definition ledger_typed (led : InnerMap) : Prop :=
  map_Forall (fun w q => Int.in_int w /\ Int.in_int q) led.

Definition typed (this : OutfitGroup) : Prop :=
  map_Forall (fun _ led => ledger_typed led) this.

(** Every quantity is strictly positive, so that no bucket holds zero. *)
Definition ledger_positive (led : InnerMap) : Prop :=
  map_Forall (fun _ q => 0 < q) led.

(** No outfit has an empty ledger and no ledger has a bucket that is not
    strictly positive. *)
Definition no_empty_buckets (this : OutfitGroup) : Prop :=
  map_Forall (fun _ led => led <> ∅ /\ ledger_positive led) this.

(** A well-formed inventory. *)
Definition well_formed (this : OutfitGroup) : Prop :=
  typed this /\ no_empty_buckets this.

#[global] Instance in_int_dec z : Decision (Int.in_int z).
Proof. unfold Int.in_int. apply _. Defined.

#[global] Instance ledger_typed_dec led : Decision (ledger_typed led).
Proof. unfold ledger_typed. apply _. Defined.

#[global] Instance ledger_positive_dec led : Decision (ledger_positive led).
Proof. unfold ledger_positive. apply _. Defined.

#[global] Instance well_formed_dec this : Decision (well_formed this).
Proof. unfold well_formed, typed, no_empty_buckets. apply _. Defined.

(** What a transfer of [r] units of an outfit from the group [this] to the
    group [to] leaves, [this'] and [to']: two well-formed groups that hold
    together, at every wear level, what [this] and [to] held together; the
    other outfits are as they were, and [r] units of the outfit have changed
    groups. *)
Definition transferred (this to this' to' : OutfitGroup) (outfit : N) (r : Z)
  : Prop :=
  well_formed this' /\ well_formed to'
  /\ (forall o w, quantity this' o w + quantity to' o w
                  = quantity this o w + quantity to o w)
  /\ (forall o w, o <> outfit ->
        quantity this' o w = quantity this o w
        /\ quantity to' o w = quantity to o w)
  /\ total_quantity this' outfit = total_quantity this outfit - r
  /\ total_quantity to' outfit = total_quantity to outfit + r.

(** ** Facts about 32-bit arithmetic *)

Lemma wrap_in_int z : Int.in_int (Int.wrap z).
Proof.
  unfold Int.in_int, Int.wrap, Int.INT_MIN, Int.INT_MAX.
  pose proof (Z.mod_pos_bound (z + 2 ^ 31) (2 ^ 32)). lia.
Qed.

Lemma wrap_small z : Int.in_int z -> Int.wrap z = z.
Proof.
  unfold Int.in_int, Int.wrap, Int.INT_MIN, Int.INT_MAX. intros Hz.
  rewrite Z.mod_small; lia.
Qed.

Lemma wrap_wrap_add x y : Int.wrap (Int.wrap x + y) = Int.wrap (x + y).
Proof.
  unfold Int.wrap.
  replace ((x + 2 ^ 31) mod 2 ^ 32 - 2 ^ 31 + y + 2 ^ 31)
    with ((x + 2 ^ 31) mod 2 ^ 32 + y) by lia.
  rewrite Zplus_mod_idemp_l. do 2 f_equal. lia.
Qed.

Lemma wrap_add_wrap x y : Int.wrap (x + Int.wrap y) = Int.wrap (x + y).
Proof. rewrite (Z.add_comm x), wrap_wrap_add. f_equal. lia. Qed.

Lemma add_small x y : Int.in_int (x + y) -> Int.add x y = x + y.
Proof. apply wrap_small. Qed.

Lemma sub_small x y : Int.in_int (x - y) -> Int.sub x y = x - y.
Proof. apply wrap_small. Qed.

(** Adding a constant is injective on 32-bit values, overflow or not. *)
Lemma add_inj_l k x y : Int.in_int x -> Int.in_int y -> Int.add x k = Int.add y k -> x = y.
Proof.
  unfold Int.add, Int.wrap, Int.in_int, Int.INT_MIN, Int.INT_MAX. intros Hx Hy Heq.
  assert (Hm : (x + k + 2 ^ 31) mod 2 ^ 32 = (y + k + 2 ^ 31) mod 2 ^ 32) by lia.
  pose proof (Z.div_mod (x + k + 2 ^ 31) (2 ^ 32) ltac:(lia)) as Ex.
  pose proof (Z.div_mod (y + k + 2 ^ 31) (2 ^ 32) ltac:(lia)) as Ey.
  rewrite Hm in Ex. lia.
Qed.

(** ** Facts about the traversal order and about sums *)

Section order.
Implicit Types (led : InnerMap) (w : Z).

Lemma keys_asc_perm led : keys_asc led ≡ₚ (map_to_list led).*1.
Proof. apply merge_sort_Permutation. Qed.

Lemma NoDup_keys_asc led : NoDup (keys_asc led).
Proof. rewrite keys_asc_perm. apply NoDup_fst_map_to_list. Qed.

Lemma elem_of_keys_asc led w : w ∈ keys_asc led <-> is_Some (led !! w).
Proof.
  rewrite keys_asc_perm, list_elem_of_fmap. split.
  - intros [[w' q] [-> Hin]]. apply elem_of_map_to_list in Hin. eauto.
  - intros [q Hq]. exists (w, q). split; [done|]. by apply elem_of_map_to_list.
Qed.

Lemma keys_asc_sorted led : StronglySorted Z.le (keys_asc led).
Proof. apply (StronglySorted_merge_sort Z.le). Qed.

Lemma keys_asc_nil led : keys_asc led = [] <-> led = ∅.
Proof.
  split.
  - intros Hk. apply map_eq. intros w. rewrite lookup_empty.
    apply eq_None_not_Some. rewrite <- elem_of_keys_asc, Hk. apply not_elem_of_nil.
  - intros ->. unfold keys_asc. by rewrite map_to_list_empty.
Qed.

Lemma NoDup_keys_desc led : NoDup (keys_desc led).
Proof. unfold keys_desc. rewrite reverse_Permutation. apply NoDup_keys_asc. Qed.

Lemma elem_of_keys_desc led w : w ∈ keys_desc led <-> is_Some (led !! w).
Proof. unfold keys_desc. rewrite elem_of_reverse. apply elem_of_keys_asc. Qed.

Lemma Zsum_cons x l : Zsum (x :: l) = x + Zsum l.
Proof. reflexivity. Qed.

Lemma Zsum_app l1 l2 : Zsum (l1 ++ l2) = Zsum l1 + Zsum l2.
Proof. induction l1 as [|x l1 IH]; simpl; lia. Qed.

Lemma Zsum_perm l1 l2 : l1 ≡ₚ l2 -> Zsum l1 = Zsum l2.
Proof. induction 1; simpl; lia. Qed.

Lemma at_wear_fmap_keys led :
  at_wear led <$> (map_to_list led).*1 = (map_to_list led).*2.
Proof.
  rewrite <- list_fmap_compose. apply Forall_fmap_ext_1, Forall_forall.
  intros [w q] Hin. apply elem_of_map_to_list in Hin.
  unfold at_wear. simpl. by rewrite Hin.
Qed.

(** The total of a ledger is the sum of its buckets in any order of
    traversal. *)
Lemma ledger_total_keys led ws :
  ws ≡ₚ keys_asc led -> ledger_total led = Zsum (at_wear led <$> ws).
Proof.
  intros Hp. unfold ledger_total. rewrite <- at_wear_fmap_keys.
  apply Zsum_perm. by rewrite Hp, keys_asc_perm.
Qed.

Lemma ledger_total_empty : ledger_total ∅ = 0.
Proof. unfold ledger_total. by rewrite map_to_list_empty. Qed.

Lemma ledger_total_insert led w q :
  led !! w = None -> ledger_total (<[w := q]> led) = q + ledger_total led.
Proof.
  intros Hw. unfold ledger_total.
  by rewrite (Zsum_perm _ _ (fmap_Permutation snd _ _ (map_to_list_insert led w q Hw))).
Qed.

Lemma ledger_total_delete led w q :
  led !! w = Some q -> ledger_total led = q + ledger_total (delete w led).
Proof.
  intros Hw. rewrite <- (ledger_total_insert (delete w led) w q).
  - by rewrite insert_delete_id.
  - apply lookup_delete_eq.
Qed.

(** A sum of [int] additions is the mathematical sum, reduced once. *)
Lemma foldl_add_wrap (f : Z -> Z) ws acc :
  foldl (fun count w => Int.add count (f w)) (Int.wrap acc) ws
  = Int.wrap (acc + Zsum (f <$> ws)).
Proof.
  revert acc. induction ws as [|w ws IH]; intros acc.
  - cbn. f_equal. lia.
  - rewrite fmap_cons, Zsum_cons. cbn [foldl].
    replace (Int.add (Int.wrap acc) (f w)) with (Int.wrap (acc + f w))
      by (unfold Int.add; by rewrite wrap_wrap_add).
    rewrite IH. f_equal. lia.
Qed.

Lemma positive_bucket_le_total led w q :
  ledger_positive led -> led !! w = Some q -> 0 < q <= ledger_total led.
Proof.
  intros Hpos Hw. split; [by eapply Hpos|].
  rewrite (ledger_total_delete led w q Hw).
  assert (Hd : ledger_positive (delete w led)).
  { intros w' q' H'. apply lookup_delete_Some in H' as [_ H']. by eapply Hpos. }
  revert Hd. generalize (delete w led). clear.
  intros m. induction m as [|w' q' m Hn IH] using map_ind; intros Hd.
  - rewrite ledger_total_empty. lia.
  - rewrite ledger_total_insert by done.
    assert (0 < q') by (apply (Hd w'), lookup_insert_eq).
    assert (ledger_positive m).
    { intros w1 q1 H1. apply (Hd w1). rewrite lookup_insert_ne; [done|].
      intros ->. congruence. }
    specialize (IH H0). lia.
Qed.

Lemma ledger_total_nonneg led : ledger_positive led -> 0 <= ledger_total led.
Proof.
  induction led as [|w' q' m Hn IH] using map_ind; intros Hd.
  - rewrite ledger_total_empty. lia.
  - pose proof (positive_bucket_le_total _ w' q' Hd (lookup_insert_eq _ _ _)). lia.
Qed.
End order.

(** [GetTotalCount] is the number of units held, reduced to 32 bits. *)
Lemma GetTotalCount_wrap (this : OutfitGroup) outfit :
  GetTotalCount this outfit = Int.wrap (total_quantity this outfit).
Proof.
  unfold GetTotalCount, total_quantity. destruct (this !! outfit) as [led|]; [|done].
  change 0 with (Int.wrap 0) at 1. rewrite foldl_add_wrap.
  by rewrite <- (ledger_total_keys led (keys_asc led)).
Qed.

(** ** Facts about [AddOutfit] *)

Section add.
Implicit Types (this : OutfitGroup) (led : InnerMap) (outfit : N).

Lemma at_wear_insert led w w' q :
  at_wear (<[w := q]> led) w' = if decide (w = w') then q else at_wear led w'.
Proof. unfold at_wear. rewrite lookup_insert. by case_decide. Qed.

Lemma at_wear_delete led w w' :
  at_wear (delete w led) w' = if decide (w = w') then 0 else at_wear led w'.
Proof. unfold at_wear. rewrite lookup_delete. by case_decide. Qed.

Lemma at_wear_empty w : at_wear ∅ w = 0.
Proof. unfold at_wear. by rewrite lookup_empty. Qed.

Lemma at_wear_Some led w q : led !! w = Some q -> at_wear led w = q.
Proof. unfold at_wear. by intros ->. Qed.

Lemma at_wear_None led w : led !! w = None -> at_wear led w = 0.
Proof. unfold at_wear. by intros ->. Qed.

Lemma quantity_lookup this outfit led w :
  this !! outfit = Some led -> quantity this outfit w = at_wear led w.
Proof. unfold quantity. by intros ->. Qed.

Lemma quantity_absent this outfit w :
  this !! outfit = None -> quantity this outfit w = 0.
Proof. unfold quantity. by intros ->. Qed.

Lemma AddOutfit_lookup this outfit count wear outfit' :
  (AddOutfit this outfit count wear).1 !! outfit'
  = if decide (outfit = outfit')
    then (if decide (added_ledger this outfit count wear = ∅) then None
          else Some (added_ledger this outfit count wear))
    else this !! outfit'.
Proof.
  unfold AddOutfit, added_ledger, store.
  destruct (this !! outfit) as [led|] eqn:Hl; cbn [fst].
  - case_bool_decide as He.
    + rewrite lookup_delete. case_decide; [by rewrite decide_True|done].
    + rewrite lookup_insert. case_decide; [by rewrite decide_False|done].
  - rewrite lookup_insert. case_decide; [|done].
    rewrite decide_False; [done|]. apply insert_non_empty.
Qed.

(** The buckets of that ledger: the bucket written holds the old
    quantity plus [count] and is absent when this is zero and the bucket
    was there; the others are as before. *)
Lemma added_ledger_lookup this outfit count wear w :
  added_ledger this outfit count wear !! w
  = if decide (wear = w)
    then match ledger_of this outfit !! wear with
         | None => Some count
         | Some q => if Int.add q count =? 0 then None
                     else Some (Int.add q count)
         end
    else ledger_of this outfit !! w.
Proof.
  unfold added_ledger, ledger_of.
  destruct (this !! outfit) as [led|] eqn:Hl.
  - destruct (led !! wear) as [q|] eqn:Hw.
    + unfold add_to_bucket. rewrite at_wear_insert, decide_True by done.
      rewrite (at_wear_Some _ _ _ Hw).
      destruct (Int.add q count =? 0).
      * rewrite lookup_delete. case_decide; [done|]. by rewrite lookup_insert_ne.
      * rewrite lookup_insert. by case_decide.
    + rewrite lookup_insert. by case_decide.
  - rewrite lookup_empty, lookup_insert. case_decide; [done|apply lookup_empty].
Qed.

(** [AddOutfit] adds [count], in 32 bits, to one bucket and leaves every
    other quantity as it is. *)
Lemma quantity_AddOutfit this outfit count wear outfit' w :
  Int.in_int count ->
  quantity (AddOutfit this outfit count wear).1 outfit' w
  = if decide (outfit = outfit' /\ wear = w)
    then Int.add (quantity this outfit wear) count
    else quantity this outfit' w.
Proof.
  intros Hc. unfold quantity at 1. rewrite AddOutfit_lookup.
  destruct (decide (outfit = outfit')) as [<-|Hne].
  - assert (Hq : forall w', quantity this outfit w'
              = at_wear (ledger_of this outfit) w').
    { intros w'. unfold quantity, ledger_of. destruct (this !! outfit); [done|].
      by rewrite at_wear_empty. }
    assert (Ha : at_wear (added_ledger this outfit count wear) w
                 = if decide (wear = w) then Int.add (quantity this outfit wear) count
                   else quantity this outfit w).
    { unfold at_wear at 1. rewrite added_ledger_lookup, !Hq. unfold at_wear.
      case_decide; [|done].
      destruct (ledger_of this outfit !! wear) as [q|]; cbn.
      - by destruct (Z.eqb_spec (Int.add q count) 0).
      - unfold Int.add. by rewrite Z.add_0_l, wrap_small. }
    assert (Hg : (if decide (wear = w) then Int.add (quantity this outfit wear) count
                  else quantity this outfit w)
                 = if decide (outfit = outfit /\ wear = w)
                   then Int.add (quantity this outfit wear) count
                   else quantity this outfit w).
    { destruct (decide (wear = w)); [by rewrite decide_True|].
      by rewrite decide_False by (by intros [? ?]). }
    rewrite <- Hg, <- Ha.
    destruct (decide (added_ledger this outfit count wear = ∅)) as [He|He]; [|done].
    by rewrite He, at_wear_empty.
  - by rewrite decide_False by (by intros [? ?]).
Qed.

Lemma AddOutfit_typed this outfit count wear :
  typed this -> Int.in_int count -> Int.in_int wear ->
  typed (AddOutfit this outfit count wear).1.
Proof.
  intros Ht Hc Hw o led'. rewrite AddOutfit_lookup.
  case_decide as Ho; [|apply Ht]. case_decide; [done|]. intros [= <-] w q.
  rewrite added_ledger_lookup.
  assert (Hd : ledger_typed (ledger_of this outfit)).
  { unfold ledger_of. destruct (this !! outfit) eqn:E; [by eapply Ht|].
    intros ? ?. by rewrite lookup_empty. }
  case_decide as Hww; [subst w|apply Hd].
  destruct (_ !! wear) as [q0|]; [|by intros [= <-]].
  destruct (_ =? 0); [done|]. intros [= <-]. split; [done|apply wrap_in_int].
Qed.

(** [AddOutfit] keeps the ledgers free of empty and of non-positive
    buckets when the bucket it writes ends up positive. *)
Lemma AddOutfit_no_empty_buckets this outfit count wear :
  no_empty_buckets this -> Int.in_int count ->
  0 < Int.add (quantity this outfit wear) count ->
  no_empty_buckets (AddOutfit this outfit count wear).1.
Proof.
  intros Hn Hc Hpos o led'. rewrite AddOutfit_lookup.
  case_decide as Ho; [|apply Hn]. case_decide; [done|]. intros [= <-].
  split; [done|]. intros w q. rewrite added_ledger_lookup.
  assert (Hd : ledger_positive (ledger_of this outfit)).
  { unfold ledger_of. destruct (this !! outfit) eqn:E; [by eapply Hn|].
    intros ? ?. by rewrite lookup_empty. }
  case_decide as Hww; [subst w|apply Hd].
  revert Hpos. unfold quantity, at_wear, ledger_of.
  destruct (this !! outfit) as [led|].
  - destruct (led !! wear) as [q0|]; cbn [default from_option id].
    + destruct (_ =? 0); [done|]. by intros ? [= <-].
    + unfold Int.add. rewrite Z.add_0_l, wrap_small by done. by intros ? [= <-].
  - rewrite lookup_empty. unfold Int.add. rewrite Z.add_0_l, wrap_small by done.
    by intros ? [= <-].
Qed.
End add.

(** ** Facts about the two loops of [RemoveOutfit] *)

Lemma taken_ext q1 q2 need ws w :
  (forall w', w' ∈ ws -> q1 w' = q2 w') -> taken q1 need ws w = taken q2 need ws w.
Proof.
  revert need. induction ws as [|w0 ws IH]; intros need Hq; [done|]. cbn [taken].
  rewrite (Hq w0) by apply list_elem_of_here.
  destruct (0 <? need); [|done]. case_decide; [done|].
  apply IH. intros w' Hw'. apply Hq. by apply list_elem_of_further.
Qed.

Lemma taken_not_elem q need ws w : w ∉ ws -> taken q need ws w = 0.
Proof.
  revert need. induction ws as [|w0 ws IH]; intros need Hw; [done|]. cbn [taken].
  apply not_elem_of_cons in Hw as [Hne Hw].
  destruct (0 <? need); [|done]. rewrite decide_False by done. by apply IH.
Qed.

Lemma taken_no_need q need ws w : need <= 0 -> taken q need ws w = 0.
Proof.
  intros Hn. destruct ws as [|w0 ws]; [done|]. cbn [taken].
  by destruct (Z.ltb_spec 0 need); [lia|].
Qed.

(** What is taken from a bucket is between zero and what the bucket
    holds. *)
Lemma taken_bounds q need ws w :
  (forall w', w' ∈ ws -> 0 < q w') -> w ∈ ws -> 0 <= taken q need ws w <= q w.
Proof.
  revert need. induction ws as [|w0 ws IH]; intros need Hq Hw.
  - by apply not_elem_of_nil in Hw.
  - cbn [taken]. pose proof (Hq w0 (list_elem_of_here _ _)).
    destruct (Z.ltb_spec 0 need).
    + case_decide as E.
      * subst. lia.
      * apply IH; [|by apply elem_of_cons in Hw as [?|?]].
        intros w' Hw'. apply Hq. by apply list_elem_of_further.
    + pose proof (Hq w Hw). lia.
Qed.

(** The traversal takes [need] units, or every unit when there are
    fewer. *)
Lemma taken_sum q need ws :
  NoDup ws -> (forall w', w' ∈ ws -> 0 < q w') -> 0 <= need ->
  Zsum (taken q need ws <$> ws) = Z.min need (Zsum (q <$> ws)).
Proof.
  revert need. induction ws as [|w0 ws IH]; intros need Hnd Hq Hn.
  - cbn. lia.
  - apply NoDup_cons in Hnd as [Hw0 Hnd].
    assert (Hq' : forall w', w' ∈ ws -> 0 < q w').
    { intros w' Hw'. apply Hq. by apply list_elem_of_further. }
    pose proof (Hq w0 (list_elem_of_here _ _)) as Hq0.
    assert (Hs : 0 <= Zsum (q <$> ws)).
    { clear -Hq'. induction ws as [|a ws IH]; [done|].
      rewrite fmap_cons, Zsum_cons.
      pose proof (Hq' a (list_elem_of_here _ _)).
      assert (0 <= Zsum (q <$> ws)); [|lia].
      apply IH. intros w' Hw'. apply Hq'. by apply list_elem_of_further. }
    rewrite !fmap_cons, !Zsum_cons.
    assert (Htl : taken q need (w0 :: ws) <$> ws
                  = taken q (need - Z.min (q w0) need) ws <$> ws).
    { apply Forall_fmap_ext_1, Forall_forall. intros w' Hw'. cbn [taken].
      destruct (Z.ltb_spec 0 need).
      - rewrite decide_False; [done|]. intros ->. done.
      - rewrite taken_no_need; [done|lia]. }
    rewrite Htl, IH by (done || lia). cbn [taken].
    rewrite decide_True by done.
    destruct (Z.ltb_spec 0 need); lia.
Qed.

Lemma Zsum_zero (f : Z -> Z) ws : (forall w, w ∈ ws -> f w = 0) -> Zsum (f <$> ws) = 0.
Proof.
  induction ws as [|w ws IH]; intros Hf; [done|].
  rewrite fmap_cons, Zsum_cons, (Hf w), IH; [done| |apply list_elem_of_here].
  intros w' Hw'. apply Hf. by apply list_elem_of_further.
Qed.

Lemma deposits_ext outfit t1 t2 ws g :
  (forall w, w ∈ ws -> t1 w = t2 w) -> deposits outfit t1 ws g = deposits outfit t2 ws g.
Proof.
  revert g. induction ws as [|w ws IH]; intros g Ht; [done|].
  unfold deposits in *. cbn [foldl]. rewrite (Ht w) by apply list_elem_of_here.
  apply IH. intros w' Hw'. apply Ht. by apply list_elem_of_further.
Qed.

Lemma deposits_zero outfit t ws g :
  (forall w, w ∈ ws -> t w = 0) -> deposits outfit t ws g = g.
Proof.
  revert g. induction ws as [|w ws IH]; intros g Ht; [done|].
  unfold deposits in *. cbn [foldl]. rewrite (Ht w) by apply list_elem_of_here.
  cbn. apply IH. intros w' Hw'. apply Ht. by apply list_elem_of_further.
Qed.

Lemma at_wear_lookup led w : at_wear led w <> 0 -> led !! w = Some (at_wear led w).
Proof. unfold at_wear. by destruct (led !! w). Qed.

Section drain.
Variables (outfit : N) (count : Z).
Hypothesis count_int : Int.in_int count.
Implicit Types (st : drain_state) (ws : list Z).

Lemma drain_least_worn_done ws st :
  count <= removed st -> drain_least_worn outfit count ws st = st.
Proof.
  intros Hr. destruct ws as [|w ws]; [done|]. cbn [drain_least_worn].
  by destruct (Z.ltb_spec (removed st) count); [lia|].
Qed.

(** One turn of the loop, without wrap-around. *)
Lemma drain_step_spec w ws st :
  drain_pre count (w :: ws) st -> removed st < count ->
  drain_step outfit count w st
  = let q := at_wear (ledger st) w in
    let t := Z.min q (count - removed st) in
    {| ledger := if q - t =? 0 then delete w (ledger st)
                 else <[w := q - t]> (ledger st);
       dest := (fun to => (AddOutfit to outfit t w).1) <$> dest st;
       removed := removed st + t;
       toErase := toErase st |}.
Proof.
  intros (Hnd & Hq & Hr) Hlt. cbv zeta.
  pose proof (Hq w (list_elem_of_here _ _)) as Hqw.
  unfold Int.in_int, Int.INT_MIN, Int.INT_MAX in *.
  unfold drain_step, drain_bucket. cbn [ledger dest removed toErase].
  rewrite at_wear_insert, decide_True by done.
  rewrite (sub_small count) by (unfold Int.in_int, Int.INT_MIN, Int.INT_MAX; lia).
  rewrite sub_small by (unfold Int.in_int, Int.INT_MIN, Int.INT_MAX; lia).
  rewrite add_small by (unfold Int.in_int, Int.INT_MIN, Int.INT_MAX; lia).
  destruct (_ =? 0); [|done]. by rewrite delete_insert_eq.
Qed.

Lemma drain_step_pre w ws st :
  drain_pre count (w :: ws) st -> removed st < count ->
  drain_pre count ws (drain_step outfit count w st)
  /\ forall w', w' ∈ ws ->
       at_wear (ledger (drain_step outfit count w st)) w' = at_wear (ledger st) w'.
Proof.
  intros Hpre Hlt. rewrite (drain_step_spec w ws st Hpre Hlt). cbv zeta.
  destruct Hpre as (Hnd & Hq & Hr). apply NoDup_cons in Hnd as [Hw Hnd].
  pose proof (Hq w (list_elem_of_here _ _)) as Hqw.
  assert (Hsame : forall w', w' ∈ ws ->
    at_wear (if at_wear (ledger st) w - Z.min (at_wear (ledger st) w) (count - removed st) =? 0
             then delete w (ledger st)
             else <[w := at_wear (ledger st) w - Z.min (at_wear (ledger st) w) (count - removed st)]>
                    (ledger st)) w'
    = at_wear (ledger st) w').
  { intros w' Hw'. assert (w <> w') by (intros ->; done).
    destruct (_ =? 0); [rewrite at_wear_delete|rewrite at_wear_insert];
      by rewrite decide_False. }
  split; [|exact Hsame]. split; [done|]. cbn [ledger removed]. split.
  - intros w' Hw'. rewrite Hsame by done. apply Hq. by apply list_elem_of_further.
  - lia.
Qed.

(** The least-worn-first loop over the buckets [ws]: the count removed,
    the buckets of the ledger and the deposits in [*to]. *)
Lemma drain_least_worn_spec ws st :
  drain_pre count ws st ->
  let t := taken (at_wear (ledger st)) (count - removed st) ws in
  let st' := drain_least_worn outfit count ws st in
  removed st' = removed st + Zsum (t <$> ws)
  /\ (forall w, ledger st' !! w
        = if decide (w ∈ ws)
          then (if at_wear (ledger st) w - t w =? 0 then None
                else Some (at_wear (ledger st) w - t w))
          else ledger st !! w)
  /\ dest st' = deposits outfit t ws <$> dest st
  /\ toErase st' = toErase st.
Proof.
  revert st. induction ws as [|w0 ws IH]; intros st Hpre; cbv zeta.
  - cbn. split; [lia|]. split; [|split; [by destruct (dest st)|done]].
    intros w. rewrite decide_False; [done|apply not_elem_of_nil].
  - cbn [drain_least_worn].
    pose proof Hpre as (Hnd & Hq & Hr). apply NoDup_cons in Hnd as [Hw0 Hnd].
    pose proof (Hq w0 (list_elem_of_here _ _)) as Hq0.
    destruct (Z.ltb_spec (removed st) count) as [Hlt|Hge].
    + destruct (drain_step_pre w0 ws st Hpre Hlt) as [Hpre2 Hsame].
      specialize (IH _ Hpre2). cbv zeta in IH.
      destruct IH as (IHr & IHl & IHd & IHe).
      pose proof (drain_step_spec w0 ws st Hpre Hlt) as Hst. cbv zeta in Hst.
      set (st2 := drain_step outfit count w0 st) in *.
      set (q := at_wear (ledger st)) in *.
      set (t0 := Z.min (q w0) (count - removed st)) in *.
      assert (Hr2 : removed st2 = removed st + t0) by (by rewrite Hst).
      assert (Ht : forall w, w <> w0 ->
        taken q (count - removed st) (w0 :: ws) w
        = taken (at_wear (ledger st2)) (count - removed st2) ws w).
      { intros w Hne. cbn [taken].
        destruct (Z.ltb_spec 0 (count - removed st)); [|lia].
        rewrite decide_False by done. rewrite Hr2.
        replace (count - (removed st + t0)) with (count - removed st - t0) by lia.
        apply taken_ext. intros w' Hw'. symmetry. by apply Hsame. }
      assert (Ht0 : taken q (count - removed st) (w0 :: ws) w0 = t0).
      { cbn [taken]. destruct (Z.ltb_spec 0 (count - removed st)); [|lia].
        by rewrite decide_True. }
      assert (Hfm : taken q (count - removed st) (w0 :: ws) <$> ws
              = taken (at_wear (ledger st2)) (count - removed st2) ws <$> ws).
      { apply Forall_fmap_ext_1, Forall_forall. intros w' Hw'. apply Ht.
        intros ->. done. }
      split; [|split; [|split]].
      * rewrite IHr, fmap_cons, Zsum_cons, Ht0, Hfm, Hr2. lia.
      * intros w. rewrite IHl. destruct (decide (w = w0)) as [->|Hne].
        -- rewrite decide_False by done. rewrite decide_True by apply list_elem_of_here.
           rewrite Ht0. rewrite Hst. cbn [ledger]. fold q. fold t0.
           destruct (_ =? 0); [apply lookup_delete_eq|apply lookup_insert_eq].
        -- rewrite <- Ht by done.
           destruct (decide (w ∈ ws)) as [Hin|Hin].
           ++ rewrite decide_True by (by apply list_elem_of_further).
              by rewrite Hsame.
           ++ rewrite decide_False by (by intros [?|?]%elem_of_cons).
              rewrite Hst. cbn [ledger]. fold q. fold t0.
              destruct (_ =? 0); [by rewrite lookup_delete_ne|by rewrite lookup_insert_ne].
      * assert (Hd2 : dest st2 = (fun to => (AddOutfit to outfit t0 w0).1) <$> dest st)
          by (by rewrite Hst).
        rewrite IHd, Hd2. destruct (dest st) as [g|]; [|done].
        cbn [fmap option_fmap option_map]. f_equal.
        transitivity (deposits outfit (taken q (count - removed st) (w0 :: ws)) ws
                        (AddOutfit g outfit t0 w0).1).
        { apply deposits_ext. intros w' Hw'. symmetry. apply Ht. intros ->. done. }
        unfold deposits. cbn [foldl]. rewrite Ht0.
        by assert ((t0 =? 0) = false) as -> by (apply Z.eqb_neq; unfold t0; lia).
      * rewrite IHe, Hst. done.
    + assert (Hz : forall w, taken (at_wear (ledger st)) (count - removed st) (w0 :: ws) w = 0).
      { intros w. apply taken_no_need. lia. }
      split; [|split; [|split]].
      * rewrite Zsum_zero by (intros; apply Hz). lia.
      * intros w. rewrite Hz, Z.sub_0_r. case_decide as Hin; [|done].
        pose proof (Hq w Hin). destruct (Z.eqb_spec (at_wear (ledger st) w) 0); [lia|].
        by apply at_wear_lookup.
      * destruct (dest st) as [g|]; [|done]. cbn [fmap option_fmap option_map].
        by rewrite deposits_zero by (intros; apply Hz).
      * done.
Qed.

End drain.

Section most_worn.
Variables (outfit : N) (count : Z).
Implicit Types (st : drain_state) (ws : list Z).

Lemma erase_all_app ws1 ws2 led :
  erase_all (ws1 ++ ws2) led = erase_all ws2 (erase_all ws1 led).
Proof. unfold erase_all. apply foldl_app. Qed.

Lemma erase_all_lookup ws led w :
  erase_all ws led !! w = if decide (w ∈ ws) then None else led !! w.
Proof.
  revert led. induction ws as [|w0 ws IH]; intros led.
  - cbn. by rewrite decide_False by apply not_elem_of_nil.
  - change (erase_all (w0 :: ws) led) with (erase_all ws (delete w0 led)).
    rewrite IH. destruct (decide (w ∈ ws)) as [Hin|Hin].
    + by rewrite decide_True by (by apply list_elem_of_further).
    + rewrite lookup_delete. destruct (decide (w0 = w)) as [->|Hne].
      * by rewrite decide_True by apply list_elem_of_here.
      * rewrite decide_False; [done|]. by intros [?|?]%elem_of_cons.
Qed.

Lemma at_wear_erase_all ws led w :
  w ∉ ws -> at_wear (erase_all ws led) w = at_wear led w.
Proof. intros Hw. unfold at_wear. by rewrite erase_all_lookup, decide_False. Qed.

Lemma erase_all_insert ws led w q :
  w ∉ ws -> erase_all ws (<[w := q]> led) = <[w := q]> (erase_all ws led).
Proof.
  intros Hw. apply map_eq. intros w'.
  rewrite erase_all_lookup, !lookup_insert, erase_all_lookup.
  destruct (decide (w = w')) as [->|Hne]; [by rewrite decide_False|done].
Qed.

Lemma drain_step_same w st1 st2 :
  same_goods st1 st2 ->
  same_goods (drain_step outfit count w st1) (drain_step outfit count w st2).
Proof.
  intros (Hl & Hd & Hr). unfold drain_step, drain_bucket.
  cbn [ledger dest removed toErase]. rewrite Hl, Hd, Hr.
  by destruct (_ =? 0).
Qed.

Lemma drain_least_worn_same ws st1 st2 :
  same_goods st1 st2 ->
  same_goods (drain_least_worn outfit count ws st1)
             (drain_least_worn outfit count ws st2).
Proof.
  revert st1 st2. induction ws as [|w ws IH]; intros st1 st2 Hs; [done|].
  cbn [drain_least_worn]. pose proof Hs as (_ & _ & ->).
  destruct (_ <? _); [|done]. by apply IH, drain_step_same.
Qed.

(** The do-while loop, once the buckets it recorded are erased, has done
    what the while loop does on the same keys, provided the test of the
    while loop holds on entry. *)
Lemma drain_most_worn_least_worn ws st :
  NoDup ws -> (forall w, w ∈ ws -> w ∉ toErase st) -> removed st < count ->
  same_goods (erase_marked (drain_most_worn outfit count ws st))
             (drain_least_worn outfit count ws (erase_marked st)).
Proof.
  revert st. induction ws as [|w ws IH]; intros st Hnd Hdis Hlt; [done|].
  apply NoDup_cons in Hnd as [Hw Hnd].
  pose proof (Hdis w (list_elem_of_here _ _)) as HwE.
  cbn [drain_most_worn drain_least_worn].
  change (removed (erase_marked st)) with (removed st).
  destruct (Z.ltb_spec (removed st) count) as [_|?]; [|lia].
  set (m1 := drain_bucket outfit count w st).
  set (m2 := if at_wear (ledger m1) w =? 0
             then {| ledger := ledger m1; dest := dest m1; removed := removed m1;
                     toErase := toErase m1 ++ [w] |}
             else m1).
  assert (Hstep : same_goods (erase_marked m2)
                    (drain_step outfit count w (erase_marked st))
                  /\ forall w', w' ∈ ws -> w' ∉ toErase m2).
  { set (t := Z.min (at_wear (ledger st) w) (Int.sub count (removed st))).
    set (v := Int.sub (at_wear (ledger st) w) t).
    set (d := (fun to : OutfitGroup => (AddOutfit to outfit t w).1) <$> dest st).
    assert (Hm1 : m1 = {| ledger := <[w := v]> (ledger st); dest := d;
                          removed := Int.add (removed st) t;
                          toErase := toErase st |}) by reflexivity.
    assert (Hl1 : drain_bucket outfit count w (erase_marked st)
                  = {| ledger := <[w := v]> (erase_all (toErase st) (ledger st));
                       dest := d; removed := Int.add (removed st) t;
                       toErase := toErase st |}).
    { unfold drain_bucket. cbn [erase_marked ledger dest removed toErase].
      by rewrite at_wear_erase_all by done. }
    unfold drain_step. rewrite Hl1. unfold m2. rewrite Hm1.
    cbn [ledger dest removed toErase].
    rewrite !at_wear_insert, !decide_True by done.
    destruct (v =? 0); unfold same_goods;
      cbn [ledger dest removed toErase erase_marked].
    - split; [split; [|done]|].
      + by rewrite erase_all_app, erase_all_insert.
      + intros w' Hw' [?|Hin]%elem_of_app.
        * eapply Hdis; [|done]. by apply list_elem_of_further.
        * apply list_elem_of_singleton in Hin as ->. done.
    - split; [split; [|done]|].
      + by rewrite erase_all_insert.
      + intros w' Hw'. apply Hdis. by apply list_elem_of_further. }
  destruct Hstep as (Hs & Hdis2).
  assert (Hr : removed m2 = removed (drain_step outfit count w (erase_marked st)))
    by apply Hs.
  destruct (Z.ltb_spec (removed m2) count) as [Hlt2|Hge2]; cbn [andb].
  - case_bool_decide as Hnil; cbn [negb].
    + by subst ws.
    + destruct (IH m2 Hnd Hdis2 Hlt2) as (IHl & IHd & IHr).
      destruct (drain_least_worn_same ws _ _ Hs) as (El & Ed & Er).
      split; [|split]; congruence.
  - rewrite drain_least_worn_done; [done|]. lia.
Qed.
End most_worn.

(** ** Facts about the deposits and about equality of groups *)

Section deposits.
Variable outfit : N.
Implicit Types (g : OutfitGroup) (ws : list Z) (t : Z -> Z).

Lemma deposits_cons t w ws g :
  deposits outfit t (w :: ws) g
  = deposits outfit t ws (if t w =? 0 then g else (AddOutfit g outfit (t w) w).1).
Proof. reflexivity. Qed.

Lemma deposits_lookup_ne t ws g outfit' :
  outfit <> outfit' -> deposits outfit t ws g !! outfit' = g !! outfit'.
Proof.
  intros Hne. revert g. induction ws as [|w ws IH]; intros g; [done|].
  rewrite deposits_cons, IH. destruct (_ =? 0); [done|].
  rewrite AddOutfit_lookup. by rewrite decide_False.
Qed.

(** Every bucket from which units were taken has received them, in 32
    bits; every other quantity is as it was. *)
Lemma quantity_deposits t ws g outfit' w :
  NoDup ws -> (forall w', w' ∈ ws -> Int.in_int (t w')) ->
  quantity (deposits outfit t ws g) outfit' w
  = if decide (outfit = outfit' /\ w ∈ ws /\ t w <> 0)
    then Int.add (quantity g outfit w) (t w)
    else quantity g outfit' w.
Proof.
  intros Hnd Ht. revert g. induction ws as [|w0 ws IH]; intros g.
  - cbn. rewrite decide_False; [done|]. intros (_ & H & _). by apply not_elem_of_nil in H.
  - apply NoDup_cons in Hnd as [Hw0 Hnd]. rewrite deposits_cons.
    rewrite IH by (done || (intros; apply Ht; by apply list_elem_of_further)).
    clear IH. pose proof (Ht w0 (list_elem_of_here _ _)) as Ht0.
    destruct (decide (outfit = outfit' /\ w ∈ ws /\ t w <> 0)) as [(<- & Hin & Hne)|Hn].
    + rewrite decide_True by (split; [done|split; [by apply list_elem_of_further|done]]).
      f_equal. destruct (_ =? 0); [done|].
      rewrite quantity_AddOutfit by done. rewrite decide_False; [done|].
      intros [_ ->]. done.
    + destruct (Z.eqb_spec (t w0) 0) as [E|E].
      * rewrite decide_False; [done|].
        intros (? & [->|?]%elem_of_cons & ?); tauto.
      * rewrite quantity_AddOutfit by done.
        destruct (decide (outfit = outfit' /\ w0 = w)) as [[<- <-]|Hn2].
        -- by rewrite decide_True by (split; [done|split; [apply list_elem_of_here|done]]).
        -- rewrite decide_False; [done|].
           intros (? & [->|?]%elem_of_cons & ?); tauto.
Qed.

Lemma deposits_typed t ws g :
  typed g -> (forall w, w ∈ ws -> Int.in_int w /\ Int.in_int (t w)) ->
  typed (deposits outfit t ws g).
Proof.
  revert g. induction ws as [|w0 ws IH]; intros g Hg Ht; [done|].
  rewrite deposits_cons. apply IH.
  - destruct (_ =? 0); [done|].
    destruct (Ht w0 (list_elem_of_here _ _)). by apply AddOutfit_typed.
  - intros; apply Ht; by apply list_elem_of_further.
Qed.

Lemma deposits_no_empty_buckets t ws g :
  no_empty_buckets g -> NoDup ws ->
  (forall w, w ∈ ws -> Int.in_int (t w)
     /\ (t w <> 0 -> 0 < Int.add (quantity g outfit w) (t w))) ->
  no_empty_buckets (deposits outfit t ws g).
Proof.
  revert g. induction ws as [|w0 ws IH]; intros g Hg Hnd Ht; [done|].
  apply NoDup_cons in Hnd as [Hw0 Hnd]. rewrite deposits_cons.
  destruct (Ht w0 (list_elem_of_here _ _)) as [Hi0 Hp0].
  destruct (Z.eqb_spec (t w0) 0) as [E|E].
  - apply IH; [done..|]. intros; apply Ht; by apply list_elem_of_further.
  - apply IH; [by apply AddOutfit_no_empty_buckets; auto|done|].
    intros w Hw. destruct (Ht w (list_elem_of_further _ _ _ Hw)) as [Hi Hp].
    split; [done|]. rewrite quantity_AddOutfit by done.
    rewrite decide_False; [done|]. intros [_ ->]. done.
Qed.
End deposits.

(** Two groups without empty ledgers and without buckets at zero are equal
    when they hold the same quantities. *)
Lemma quantity_ext (g1 g2 : OutfitGroup) :
  no_empty_buckets g1 -> no_empty_buckets g2 ->
  (forall outfit w, quantity g1 outfit w = quantity g2 outfit w) -> g1 = g2.
Proof.
  intros H1 H2 Hq.
  assert (Hled : forall (l1 l2 : InnerMap), ledger_positive l1 -> ledger_positive l2 ->
            (forall w, at_wear l1 w = at_wear l2 w) -> l1 = l2).
  { intros l1 l2 P1 P2 Ha. apply map_eq. intros w. specialize (Ha w).
    unfold at_wear in Ha.
    destruct (l1 !! w) as [q1|] eqn:E1, (l2 !! w) as [q2|] eqn:E2; cbn in Ha.
    - by subst.
    - apply P1 in E1. lia.
    - apply P2 in E2. lia.
    - done. }
  assert (Hnone : forall (g g' : OutfitGroup) o led, no_empty_buckets g ->
            g !! o = Some led -> g' !! o = None ->
            (forall w, quantity g o w = quantity g' o w) -> False).
  { intros g g' o led Hg Hs Hn Hqq. destruct (Hg o led Hs) as [Hne Hp].
    apply map_choose in Hne as (w & q & Hw). specialize (Hqq w).
    rewrite (quantity_lookup _ _ _ _ Hs), (quantity_absent _ _ _ Hn) in Hqq.
    rewrite (at_wear_Some _ _ _ Hw) in Hqq. apply Hp in Hw. lia. }
  apply map_eq. intros o.
  destruct (g1 !! o) as [l1|] eqn:E1, (g2 !! o) as [l2|] eqn:E2; [|exfalso..|done].
  - f_equal. apply Hled; [by eapply H1|by eapply H2|].
    intros w. specialize (Hq o w).
    by rewrite (quantity_lookup _ _ _ _ E1), (quantity_lookup _ _ _ _ E2) in Hq.
  - by eapply (Hnone g1 g2 o l1).
  - eapply (Hnone g2 g1 o l2); [done..|]. by intros w.
Qed.

(** ** Facts about [RemoveOutfit] *)

Section remove.
Implicit Types (this : OutfitGroup) (led : InnerMap) (outfit : N).

Lemma lookup_store this outfit led outfit' :
  store outfit led this !! outfit'
  = if decide (outfit = outfit')
    then (if decide (led = ∅) then None else Some led)
    else this !! outfit'.
Proof.
  unfold store. case_bool_decide as He.
  - rewrite lookup_delete, (decide_True _ _ He). by case_decide.
  - rewrite lookup_insert, (decide_False _ _ He). by case_decide.
Qed.

Lemma quantity_store this outfit led outfit' w :
  quantity (store outfit led this) outfit' w
  = if decide (outfit = outfit') then at_wear led w else quantity this outfit' w.
Proof.
  unfold quantity at 1. rewrite lookup_store. case_decide; [|done].
  case_decide as He; [|done]. by rewrite He, at_wear_empty.
Qed.

Lemma lookup_withdrawn t led w :
  withdrawn t led !! w
  = match led !! w with
    | Some q => if q - t w =? 0 then None else Some (q - t w)
    | None => None
    end.
Proof. unfold withdrawn. rewrite map_lookup_imap. by destruct (led !! w). Qed.

(** [RemoveOutfit] on a ledger of positive quantities, for a positive
    count: the loops visit the buckets in their order and take from each
    what [taken] says. *)
Lemma RemoveOutfit_spec this outfit count (mostWornFirst : bool)
  (to : option OutfitGroup) led :
  Int.in_int count -> 0 < count ->
  this !! outfit = Some led -> ledger_typed led -> ledger_positive led ->
  let ws := if mostWornFirst then keys_desc led else keys_asc led in
  let t := taken (at_wear led) count ws in
  RemoveOutfit this outfit count mostWornFirst to
  = (Zsum (t <$> ws), store outfit (withdrawn t led) this,
     deposits outfit t ws <$> to).
Proof.
  intros Hc Hpos Hl Hty Hp ws t. unfold RemoveOutfit. rewrite Hl.
  set (st0 := {| ledger := led; dest := to; removed := 0; toErase := [] |}).
  assert (Hnd : NoDup ws) by (destruct mostWornFirst; [apply NoDup_keys_desc|apply NoDup_keys_asc]).
  assert (Hin : forall w, w ∈ ws <-> is_Some (led !! w)).
  { intros w. destruct mostWornFirst; [apply elem_of_keys_desc|apply elem_of_keys_asc]. }
  assert (Hpre : drain_pre count ws st0).
  { split; [done|]. split; [|cbn; lia]. intros w [q Hq]%Hin. cbn [ledger st0].
    rewrite (at_wear_Some _ _ _ Hq). destruct (Hty w q Hq) as [_ [_ ?]].
    split; [by eapply Hp|done]. }
  destruct (drain_least_worn_spec outfit count Hc ws st0 Hpre) as (Er & El & Ed & _).
  cbn [ledger dest removed st0] in Er, El, Ed. rewrite Z.sub_0_r in Er, El, Ed.
  fold t in Er, El, Ed.
  assert (Hgoods : same_goods
            (if mostWornFirst
             then erase_marked (drain_most_worn outfit count (keys_desc led) st0)
             else drain_least_worn outfit count (keys_asc led) st0)
            (drain_least_worn outfit count ws st0)).
  { destruct mostWornFirst; [|done].
    apply (drain_most_worn_least_worn outfit count ws st0); [done| |cbn; lia].
    intros w _. apply not_elem_of_nil. }
  destruct Hgoods as (Gl & Gd & Gr). rewrite Gl, Gd, Gr, Er, Ed.
  f_equal. f_equal. f_equal. apply map_eq. intros w.
  rewrite El, lookup_withdrawn. case_decide as Hw.
  - apply Hin in Hw as [q Hq]. by rewrite Hq, (at_wear_Some _ _ _ Hq).
  - destruct (led !! w) eqn:E; [|done]. exfalso. apply Hw, Hin. eauto.
Qed.
End remove.

Section withdrawn.
Implicit Types (led : InnerMap) (t : Z -> Z).

Lemma keys_asc_insert led w q :
  led !! w = None -> keys_asc (<[w := q]> led) ≡ₚ w :: keys_asc led.
Proof.
  intros Hw. rewrite !keys_asc_perm.
  by rewrite (fmap_Permutation fst _ _ (map_to_list_insert led w q Hw)).
Qed.

(** Withdrawing takes from the total what was taken from the buckets. *)
Lemma ledger_total_withdrawn t led ws :
  ws ≡ₚ keys_asc led ->
  ledger_total (withdrawn t led) = ledger_total led - Zsum (t <$> ws).
Proof.
  intros Hp. rewrite (Zsum_perm _ _ (fmap_Permutation t _ _ Hp)). clear ws Hp.
  induction led as [|w q m Hn IH] using map_ind.
  - unfold withdrawn. rewrite map_imap_empty, ledger_total_empty.
    unfold keys_asc. by rewrite map_to_list_empty.
  - rewrite (Zsum_perm _ _ (fmap_Permutation t _ _ (keys_asc_insert m w q Hn))).
    rewrite fmap_cons, Zsum_cons, ledger_total_insert by done.
    unfold withdrawn in *. destruct (Z.eqb_spec (q - t w) 0) as [E|E].
    + rewrite map_imap_insert_None by (by apply Z.eqb_eq in E as ->).
      rewrite delete_id by (by rewrite map_lookup_imap, Hn). lia.
    + rewrite (map_imap_insert_Some _ _ _ _ (q - t w))
        by (by apply Z.eqb_neq in E as ->).
      rewrite ledger_total_insert by (by rewrite map_lookup_imap, Hn). lia.
Qed.

Lemma withdrawn_typed t led :
  ledger_typed led -> (forall w q, led !! w = Some q -> 0 <= t w <= q) ->
  ledger_positive led -> ledger_typed (withdrawn t led).
Proof.
  intros Hty Ht Hp w q. rewrite lookup_withdrawn.
  destruct (led !! w) as [q0|] eqn:E; [|done].
  destruct (_ =? 0); [done|]. intros [= <-].
  destruct (Hty w q0 E) as [? ?]. split; [done|].
  pose proof (Ht w q0 E). pose proof (Hp w q0 E).
  unfold Int.in_int, Int.INT_MIN, Int.INT_MAX in *. lia.
Qed.

Lemma withdrawn_positive t led :
  ledger_positive led -> (forall w q, led !! w = Some q -> 0 <= t w <= q) ->
  ledger_positive (withdrawn t led).
Proof.
  intros Hp Ht w q. rewrite lookup_withdrawn.
  destruct (led !! w) as [q0|] eqn:E; [|done].
  destruct (Z.eqb_spec (q0 - t w) 0); [done|]. intros [= <-].
  pose proof (Ht w q0 E). lia.
Qed.

Lemma at_wear_withdrawn t led w :
  (led !! w = None -> t w = 0) ->
  at_wear (withdrawn t led) w = at_wear led w - t w.
Proof.
  intros Ht. unfold at_wear. rewrite lookup_withdrawn.
  destruct (led !! w) as [q|]; cbn.
  - by destruct (Z.eqb_spec (q - t w) 0).
  - rewrite Ht by done. lia.
Qed.
End withdrawn.

(** ** The amount taken from a bucket, in closed form *)

Section closed_form.
(** [R w' w]: the bucket at [w'] is visited before the bucket at [w]. *)
Variable R : relation Z.
Context `{!forall x y, Decision (R x y)}.
Hypothesis R_irrefl : forall x, ~ R x x.
Hypothesis R_asym : forall x y, R x y -> ~ R y x.

Lemma taken_sorted q need ws w :
  StronglySorted R ws -> (forall w', w' ∈ ws -> 0 < q w') -> 0 <= need -> w ∈ ws ->
  taken q need ws w
  = Z.min (q w) (Z.max 0 (need - Zsum (q <$> filter (fun w' => R w' w) ws))).
Proof.
  revert need. induction ws as [|w0 ws IH]; intros need Hs Hq Hn Hw.
  - by apply not_elem_of_nil in Hw.
  - apply StronglySorted_inv in Hs as [Hs Hall].
    rewrite Forall_forall in Hall.
    pose proof (Hq w0 (list_elem_of_here _ _)) as Hq0.
    assert (Hq' : forall w', w' ∈ ws -> 0 < q w')
      by (intros; apply Hq; by apply list_elem_of_further).
    assert (Hnn : 0 <= Zsum (q <$> filter (fun w' => R w' w) ws)).
    { clear -Hq'. induction ws as [|a ws IH]; [done|].
      assert (0 <= Zsum (q <$> filter (fun w' => R w' w) ws))
        by (apply IH; intros; apply Hq'; by apply list_elem_of_further).
      rewrite filter_cons. case_decide; [|done].
      rewrite fmap_cons, Zsum_cons.
      pose proof (Hq' a (list_elem_of_here _ _)). lia. }
    cbn [taken]. rewrite filter_cons.
    destruct (decide (w = w0)) as [->|Hne].
    + rewrite decide_False by apply R_irrefl.
      assert (filter (fun w' => R w' w0) ws = []) as ->.
      { clear -Hall R_asym. induction ws as [|a ws IH]; [done|].
        rewrite filter_cons, decide_False
          by (apply R_asym, Hall, list_elem_of_here).
        apply IH. intros; apply Hall; by apply list_elem_of_further. }
      cbn. destruct (Z.ltb_spec 0 need); lia.
    + assert (Hin : w ∈ ws) by (by apply elem_of_cons in Hw as [?|?]).
      rewrite decide_True by (by apply Hall).
      rewrite fmap_cons, Zsum_cons.
      destruct (Z.ltb_spec 0 need).
      * rewrite IH by (done || lia). lia.
      * pose proof (Hq w Hw). lia.
Qed.
End closed_form.

Section strict_order.
Implicit Types (led : InnerMap).

Lemma keys_asc_strict led : StronglySorted Z.lt (keys_asc led).
Proof.
  pose proof (keys_asc_sorted led) as Hs. pose proof (NoDup_keys_asc led) as Hnd.
  induction Hs as [|w ws Hs IH Hall]; [constructor|].
  apply NoDup_cons in Hnd as [Hw Hnd]. constructor; [by apply IH|].
  rewrite Forall_forall in Hall |- *. intros w' Hw'.
  pose proof (Hall w' Hw'). assert (w <> w') by (by intros ->). lia.
Qed.

Lemma keys_desc_strict led : StronglySorted (flip Z.lt) (keys_desc led).
Proof.
  unfold keys_desc. pose proof (keys_asc_strict led) as Hs.
  induction Hs as [|w ws Hs IH Hall]; [constructor|].
  rewrite reverse_cons. apply StronglySorted_app. split; [|split].
  - intros x1 x2 Hx1 Hx2. rewrite elem_of_reverse in Hx1.
    apply list_elem_of_singleton in Hx2. subst x2.
    rewrite Forall_forall in Hall. unfold flip. by apply Hall.
  - exact IH.
  - repeat constructor.
Qed.

(** The sums over the buckets above and below a wear level, along any
    traversal of the ledger. *)
Lemma filter_fst_map_to_list led (P : Z -> Prop)
  `{!forall w, Decision (P w)} `{!forall p : Z * Z, Decision (P p.1)} :
  at_wear led <$> filter P (map_to_list led).*1
  = (filter (fun p => P p.1) (map_to_list led)).*2.
Proof.
  assert (Hgen : forall l : list (Z * Z), (forall p, p ∈ l -> led !! p.1 = Some p.2) ->
            at_wear led <$> filter P l.*1 = (filter (fun p => P p.1) l).*2).
  { induction l as [|[w q] l IH]; intros Hl; [done|].
    rewrite fmap_cons, !filter_cons. cbn [fst].
    assert (IH' := IH (fun p Hp => Hl p (list_elem_of_further _ _ _ Hp))).
    rename select (forall w, Decision (P w)) into D1.
    rename select (forall p : Z * Z, Decision (P p.1)) into D2.
    unfold decide. destruct (D1 w) as [Hw|Hw]; destruct (D2 (w, q)) as [Hw'|Hw'];
      try done.
    rewrite !fmap_cons, IH'. cbn [snd]. f_equal.
    apply at_wear_Some, (Hl (w, q)), list_elem_of_here. }
  apply Hgen. intros [w q] Hp. by apply elem_of_map_to_list.
Qed.

Lemma more_worn_keys led ws w :
  ws ≡ₚ keys_asc led ->
  more_worn led w = Zsum (at_wear led <$> filter (fun w' => flip Z.lt w' w) ws).
Proof.
  intros Hp. unfold more_worn.
  transitivity (Zsum (at_wear led <$> filter (fun w' => w < w') (map_to_list led).*1)).
  { f_equal. symmetry. apply (filter_fst_map_to_list led (fun w' => w < w')). }
  apply Zsum_perm. by rewrite Hp, keys_asc_perm.
Qed.

Lemma less_worn_keys led ws w :
  ws ≡ₚ keys_asc led ->
  less_worn led w = Zsum (at_wear led <$> filter (fun w' => w' < w) ws).
Proof.
  intros Hp. unfold less_worn.
  transitivity (Zsum (at_wear led <$> filter (fun w' => w' < w) (map_to_list led).*1)).
  { f_equal. symmetry. apply (filter_fst_map_to_list led (fun w' => w' < w)). }
  apply Zsum_perm. by rewrite Hp, keys_asc_perm.
Qed.
End strict_order.

Section remove_well_formed.
Implicit Types (this : OutfitGroup) (led : InnerMap) (outfit : N).

Lemma taken_within led count ws w q :
  ledger_positive led -> (forall w', w' ∈ ws <-> is_Some (led !! w')) ->
  led !! w = Some q -> 0 <= taken (at_wear led) count ws w <= q.
Proof.
  intros Hp Hin Hw. rewrite <- (at_wear_Some _ _ _ Hw). apply taken_bounds.
  - intros w' [q' Hq']%Hin. rewrite (at_wear_Some _ _ _ Hq'). by eapply Hp.
  - apply Hin. eauto.
Qed.

Lemma store_well_formed this outfit led :
  well_formed this -> ledger_typed led -> ledger_positive led ->
  well_formed (store outfit led this).
Proof.
  intros [Ht Hn] Hlt Hlp. split; intros o l; rewrite lookup_store.
  - case_decide; [|apply Ht]. case_decide; [done|]. by intros [= <-].
  - case_decide; [|apply Hn]. case_decide; [done|]. by intros [= <-].
Qed.
End remove_well_formed.

Section quantities.
Implicit Types (this to : OutfitGroup) (led : InnerMap) (outfit : N).

Lemma well_formed_quantity_nonneg this outfit w :
  well_formed this -> 0 <= quantity this outfit w <= Int.INT_MAX.
Proof.
  intros [Ht Hg]. unfold quantity, at_wear.
  destruct (this !! outfit) as [l|] eqn:E; [|done].
  destruct (l !! w) as [q|] eqn:E'; [|done]. cbn.
  destruct (Hg outfit l E) as [_ Hp]. specialize (Hp w q E'). cbn in Hp.
  destruct (Ht outfit l E w q E') as [_ [_ ?]]. lia.
Qed.

Lemma well_formed_total_nonneg this outfit :
  well_formed this -> 0 <= total_quantity this outfit.
Proof.
  intros [_ Hg]. unfold total_quantity.
  destruct (this !! outfit) as [l|] eqn:E; [|done].
  destruct (Hg outfit l E) as [_ Hp]. by apply ledger_total_nonneg.
Qed.

Lemma quantity_le_total this outfit w :
  well_formed this -> quantity this outfit w <= total_quantity this outfit.
Proof.
  intros Hwf. pose proof (well_formed_total_nonneg this outfit Hwf) as Hn.
  destruct Hwf as [_ Hg]. unfold quantity, total_quantity, at_wear in *.
  destruct (this !! outfit) as [l|] eqn:E; [|done].
  destruct (l !! w) as [q|] eqn:E'; [|done]. cbn.
  destruct (Hg outfit l E) as [_ Hp].
  by apply (positive_bucket_le_total l w q).
Qed.

(** [RemoveOutfit] in terms of quantities: what is taken from the buckets
    of the group is what the buckets of [*to] receive, and both groups stay
    well formed, provided no bucket of [*to] overflows. *)
Lemma RemoveOutfit_quantities this outfit count (mostWornFirst : bool) to led :
  well_formed this -> well_formed to -> Int.in_int count -> 0 < count ->
  this !! outfit = Some led ->
  (forall w, quantity to outfit w + at_wear led w <= Int.INT_MAX) ->
  let ws := if mostWornFirst then keys_desc led else keys_asc led in
  let t := taken (at_wear led) count ws in
  exists this' to',
    RemoveOutfit this outfit count mostWornFirst (Some to)
    = (Zsum (t <$> ws), this', Some to')
    /\ well_formed this' /\ well_formed to'
    /\ (forall w, 0 <= t w <= at_wear led w)
    /\ (forall outfit' w, quantity this' outfit' w
          = if decide (outfit = outfit') then at_wear led w - t w
            else quantity this outfit' w)
    /\ (forall outfit' w, quantity to' outfit' w
          = if decide (outfit = outfit') then quantity to outfit w + t w
            else quantity to outfit' w).
Proof.
  intros Hwf Hwfto Hc Hpos Hl Hfit ws t.
  pose proof Hwf as [Hty Hne]. pose proof (Hty outfit led Hl) as Hlt.
  destruct (Hne outfit led Hl) as [_ Hlp]. cbn in Hlt.
  assert (Hperm : ws ≡ₚ keys_asc led).
  { unfold ws, keys_desc. destruct mostWornFirst; [apply reverse_Permutation|done]. }
  assert (Hin : forall w, w ∈ ws <-> is_Some (led !! w)).
  { intros w. rewrite Hperm. apply elem_of_keys_asc. }
  assert (Hnd : NoDup ws) by (rewrite Hperm; apply NoDup_keys_asc).
  assert (Hb : forall w q, led !! w = Some q -> 0 <= t w <= q).
  { intros w q. by apply taken_within. }
  assert (Hout : forall w, led !! w = None -> t w = 0).
  { intros w Hw. apply taken_not_elem. rewrite Hin, Hw. by intros [? ?]. }
  assert (Hb' : forall w, 0 <= t w <= at_wear led w).
  { intros w. destruct (led !! w) as [q|] eqn:Hw.
    - rewrite (at_wear_Some _ _ _ Hw). by apply Hb.
    - rewrite (at_wear_None _ _ Hw), Hout by done. lia. }
  assert (Hti : forall w, Int.in_int (t w)).
  { intros w. pose proof (Hb' w). pose proof (well_formed_quantity_nonneg this outfit w Hwf) as Hq.
    rewrite (quantity_lookup _ _ _ _ Hl) in Hq.
    unfold Int.in_int, Int.INT_MIN, Int.INT_MAX in *. lia. }
  exists (store outfit (withdrawn t led) this), (deposits outfit t ws to).
  split; [by apply RemoveOutfit_spec|].
  split; [apply store_well_formed; [done|by apply withdrawn_typed|by apply withdrawn_positive]|].
  assert (Hqd : forall outfit' w, quantity (deposits outfit t ws to) outfit' w
          = if decide (outfit = outfit') then quantity to outfit w + t w
            else quantity to outfit' w).
  { intros o' w. rewrite quantity_deposits by done.
    pose proof (well_formed_quantity_nonneg to outfit w Hwfto).
    pose proof (Hb' w). pose proof (Hfit w).
    destruct (decide (outfit = o')) as [<-|Hne'].
    - destruct (decide (w ∈ ws /\ t w <> 0)) as [[? ?]|Hn].
      + rewrite decide_True by done. apply add_small.
        unfold Int.in_int, Int.INT_MIN, Int.INT_MAX in *. lia.
      + rewrite decide_False by (intros (_ & ? & ?); by apply Hn).
        assert (t w = 0); [|lia]. destruct (decide (w ∈ ws)) as [Hw|Hw].
        * destruct (decide (t w = 0)); [done|]. exfalso. by apply Hn.
        * by apply taken_not_elem.
    - by rewrite decide_False by (by intros (? & _)). }
  split; [|split; [done|split; [|done]]].
  - split.
    + apply deposits_typed; [apply Hwfto|]. intros w [q Hq]%Hin.
      split; [|done]. by destruct (Hlt w q Hq).
    + apply deposits_no_empty_buckets; [apply Hwfto|done|].
      intros w Hw. split; [done|]. intros Hnz.
      pose proof (well_formed_quantity_nonneg to outfit w Hwfto).
      pose proof (Hb' w). pose proof (Hfit w).
      rewrite add_small by (unfold Int.in_int, Int.INT_MIN, Int.INT_MAX in *; lia).
      lia.
  - intros o' w. rewrite quantity_store. case_decide; [|done].
    apply at_wear_withdrawn, Hout.
Qed.
End quantities.

Section round_trip.
Implicit Types (this to : OutfitGroup) (led : InnerMap) (outfit : N).

(** The total of a ledger along a list of keys that covers its own. *)
Lemma ledger_total_cover led ws :
  NoDup ws -> (forall w, is_Some (led !! w) -> w ∈ ws) ->
  ledger_total led = Zsum (at_wear led <$> ws).
Proof.
  intros Hnd. revert led. induction ws as [|w0 ws IH]; intros led Hc.
  - assert (led = ∅) as ->.
    { apply map_eq. intros w. rewrite lookup_empty. apply eq_None_not_Some.
      intros H%Hc. by apply not_elem_of_nil in H. }
    by rewrite ledger_total_empty.
  - apply NoDup_cons in Hnd as [Hw0 Hnd]. rewrite fmap_cons, Zsum_cons.
    assert (Hrest : at_wear led <$> ws = at_wear (delete w0 led) <$> ws).
    { apply Forall_fmap_ext_1, Forall_forall. intros w Hw.
      rewrite at_wear_delete, decide_False; [done|]. by intros ->. }
    assert (Hcd : forall w, is_Some (delete w0 led !! w) -> w ∈ ws).
    { intros w [q [Hne Hq]%lookup_delete_Some].
      assert (w ∈ w0 :: ws) as [?|?]%elem_of_cons by (apply Hc; eauto); done. }
    rewrite Hrest, <- (IH Hnd _ Hcd).
    destruct (led !! w0) as [q|] eqn:E.
    + by rewrite (at_wear_Some _ _ _ E), <- ledger_total_delete.
    + rewrite (at_wear_None _ _ E), delete_id by done. lia.
Qed.

(** A traversal that needs at least what the buckets hold empties them. *)
Lemma taken_all q need ws w :
  NoDup ws -> (forall w', w' ∈ ws -> 0 < q w') -> Zsum (q <$> ws) <= need ->
  w ∈ ws -> taken q need ws w = q w.
Proof.
  revert need. induction ws as [|w0 ws IH]; intros need Hnd Hq Hs Hw.
  - by apply not_elem_of_nil in Hw.
  - apply NoDup_cons in Hnd as [Hw0 Hnd]. rewrite fmap_cons, Zsum_cons in Hs.
    pose proof (Hq w0 (list_elem_of_here _ _)) as Hq0.
    assert (Hq' : forall w', w' ∈ ws -> 0 < q w')
      by (intros; apply Hq; by apply list_elem_of_further).
    assert (0 <= Zsum (q <$> ws)).
    { clear -Hq'. induction ws as [|a ws IH]; [done|].
      rewrite fmap_cons, Zsum_cons. pose proof (Hq' a (list_elem_of_here _ _)).
      assert (0 <= Zsum (q <$> ws)); [|lia].
      apply IH. intros; apply Hq'; by apply list_elem_of_further. }
    cbn [taken]. destruct (Z.ltb_spec 0 need); [|lia].
    destruct (decide (w = w0)) as [->|Hne]; [lia|].
    apply IH; [done|done|lia|]. by apply elem_of_cons in Hw as [?|?].
Qed.

Lemma TransferOutfits_positive fuel this outfit count to mostWornFirst defaultWear :
  0 < count -> outfit <> nullptr ->
  TransferOutfits (S fuel) this outfit count (Some to) mostWornFirst defaultWear
  = Some (RemoveOutfit this outfit count mostWornFirst (Some to)).
Proof.
  intros Hc Ho. cbn [TransferOutfits].
  destruct (Z.eqb_spec count 0); [lia|]. destruct (N.eqb_spec outfit nullptr); [done|].
  cbn [orb]. by destruct (Z.ltb_spec count 0); [lia|].
Qed.

Lemma TransferOutfits_nothing fuel this outfit count (to : option OutfitGroup)
  mostWornFirst defaultWear :
  count = 0 \/ outfit = nullptr ->
  TransferOutfits (S fuel) this outfit count to mostWornFirst defaultWear
  = Some (0, this, to).
Proof.
  intros H. cbn [TransferOutfits].
  destruct (Z.eqb_spec count 0); [done|]. destruct (N.eqb_spec outfit nullptr); [done|].
  by destruct H.
Qed.

Lemma RemoveOutfit_absent this outfit count mostWornFirst (to : option OutfitGroup) :
  this !! outfit = None ->
  RemoveOutfit this outfit count mostWornFirst to = (0, this, to).
Proof. intros H. unfold RemoveOutfit. by rewrite H. Qed.

(** A group that receives units of an outfit it did not hold gives them
    all back, bucket by bucket, when it is asked for as many. *)
Lemma RemoveOutfit_round_trip A B outfit n (f1 f2 : bool) :
  well_formed A -> well_formed B -> B !! outfit = None ->
  Int.in_int n -> 0 < n ->
  exists r1 r2 A1 B1,
    RemoveOutfit A outfit n f1 (Some B) = (r1, A1, Some B1)
    /\ RemoveOutfit B1 outfit n f2 (Some A1) = (r2, B, Some A).
Proof.
  intros HA HB HBo Hn Hpos.
  destruct (A !! outfit) as [led|] eqn:HAo.
  { (* the group holds the outfit *)
    assert (HqB : forall w, quantity B outfit w = 0)
      by (intros; by apply quantity_absent).
    assert (HqA : forall w, quantity A outfit w = at_wear led w)
      by (intros; by apply quantity_lookup).
    assert (Hfit1 : forall w, quantity B outfit w + at_wear led w <= Int.INT_MAX).
    { intros w. rewrite HqB, <- HqA.
      pose proof (well_formed_quantity_nonneg A outfit w HA). lia. }
    destruct (RemoveOutfit_quantities A outfit n f1 B led HA HB Hn Hpos HAo Hfit1)
      as (A1 & B1 & E1 & HA1 & HB1 & Ht & HqA1 & HqB1).
    cbv zeta in *.
    set (ws := if f1 then keys_desc led else keys_asc led) in *.
    set (t := taken (at_wear led) n ws) in *.
    exists (Zsum (t <$> ws)), (total_quantity B1 outfit), A1, B1. split; [done|].
    assert (HqB1o : forall w, quantity B1 outfit w = t w).
    { intros w. rewrite HqB1, decide_True, HqB by done. lia. }
    assert (HqA1o : forall w, quantity A1 outfit w = at_wear led w - t w).
    { intros w. by rewrite HqA1, decide_True. }
    destruct (B1 !! outfit) as [M|] eqn:HB1o.
    - assert (HM : forall w, at_wear M w = t w).
      { intros w. by rewrite <- HqB1o, (quantity_lookup _ _ _ _ HB1o). }
      assert (Hfit2 : forall w, quantity A1 outfit w + at_wear M w <= Int.INT_MAX).
      { intros w. rewrite HqA1o, HM, <- HqA.
        pose proof (well_formed_quantity_nonneg A outfit w HA). lia. }
      destruct (RemoveOutfit_quantities B1 outfit n f2 A1 M HB1 HA1 Hn Hpos HB1o Hfit2)
        as (B2 & A2 & E2 & HB2 & HA2 & Ht2 & HqB2 & HqA2).
      cbv zeta in *.
      set (ws2 := if f2 then keys_desc M else keys_asc M) in *.
      set (t2 := taken (at_wear M) n ws2) in *.
      assert (Hperm : ws ≡ₚ keys_asc led).
      { unfold ws, keys_desc. destruct f1; [apply reverse_Permutation|done]. }
      assert (Hperm2 : ws2 ≡ₚ keys_asc M).
      { unfold ws2, keys_desc. destruct f2; [apply reverse_Permutation|done]. }
      assert (Hnd : NoDup ws) by (rewrite Hperm; apply NoDup_keys_asc).
      assert (Hnd2 : NoDup ws2) by (rewrite Hperm2; apply NoDup_keys_asc).
      destruct HB1 as [HB1t HB1n]. destruct (HB1n outfit M HB1o) as [_ HMp].
      destruct HA as [HAt HAn]. destruct (HAn outfit led HAo) as [_ Hlp].
      assert (HledQ : forall w', w' ∈ ws -> 0 < at_wear led w').
      { intros w'. rewrite Hperm, elem_of_keys_asc. intros [q Hq].
        rewrite (at_wear_Some _ _ _ Hq). by eapply Hlp. }
      assert (HMQ : forall w', w' ∈ ws2 -> 0 < at_wear M w').
      { intros w'. rewrite Hperm2, elem_of_keys_asc. intros [q Hq].
        rewrite (at_wear_Some _ _ _ Hq). by eapply HMp. }
      assert (Hcover : forall w, is_Some (M !! w) -> w ∈ ws).
      { intros w [q Hq]. destruct (decide (w ∈ ws)) as [|Hnin]; [done|].
        pose proof (HMp w q Hq) as Hp. cbn in Hp.
        pose proof (HM w) as Hw. rewrite (at_wear_Some _ _ _ Hq) in Hw.
        unfold t in Hw. rewrite taken_not_elem in Hw by done. lia. }
      assert (Htot : ledger_total M <= n).
      { rewrite (ledger_total_cover M ws Hnd Hcover).
        rewrite (Forall_fmap_ext_1 (at_wear M) t) by (apply Forall_forall; intros; apply HM).
        unfold t. rewrite taken_sum by (done || lia). lia. }
      assert (Hall : forall w, t2 w = t w).
      { intros w. rewrite <- HM. destruct (decide (w ∈ ws2)) as [Hw|Hw].
        - apply taken_all; [done|done| |done].
          by rewrite <- (ledger_total_keys M ws2).
        - unfold t2. rewrite taken_not_elem by done. symmetry.
          apply at_wear_None. apply eq_None_not_Some.
          by rewrite <- elem_of_keys_asc, <- Hperm2. }
      assert (B2 = B) as ->.
      { apply quantity_ext; [apply HB2|apply HB|]. intros o w. rewrite HqB2.
        destruct (decide (outfit = o)) as [Ho|Ho].
        - subst o. rewrite HqB, Hall, HM. lia.
        - rewrite HqB1. by rewrite decide_False. }
      assert (A2 = A) as ->.
      { apply quantity_ext; [apply HA2|done|]. intros o w. rewrite HqA2.
        destruct (decide (outfit = o)) as [Ho|Ho].
        - subst o. rewrite HqA1o, Hall, HqA. lia.
        - rewrite HqA1. by rewrite decide_False. }
      rewrite E2. do 2 f_equal. unfold total_quantity. rewrite HB1o.
      rewrite (ledger_total_keys M ws2 Hperm2).
      f_equal. apply Forall_fmap_ext_1, Forall_forall. intros w _.
      by rewrite Hall, HM.
    - rewrite (RemoveOutfit_absent _ _ _ _ _ HB1o).
      assert (Hz : forall w, t w = 0).
      { intros w. by rewrite <- HqB1o, (quantity_absent _ _ _ HB1o). }
      assert (B1 = B) as ->.
      { apply quantity_ext; [apply HB1|apply HB|]. intros o w. rewrite HqB1.
        destruct (decide (outfit = o)) as [Ho|Ho]; [|done]. subst o. rewrite Hz, HqB. lia. }
      assert (A1 = A) as ->.
      { apply quantity_ext; [apply HA1|apply HA|]. intros o w. rewrite HqA1.
        destruct (decide (outfit = o)) as [Ho|Ho]; [|done]. subst o. rewrite Hz, HqA. lia. }
      unfold total_quantity. by rewrite HBo. }
  (* the group holds none *)
  exists 0, 0, A, B. by rewrite (RemoveOutfit_absent _ _ _ _ _ HAo), (RemoveOutfit_absent _ _ _ _ _ HBo).
Qed.
End round_trip.

(** ** Facts about [IncrementWear] *)

Section ageing.
Variable value : Z.
Implicit Types (this : OutfitGroup) (led acc : InnerMap) (ws : list Z).

(** The loop that writes the buckets back, from any ledger [acc]. *)
Lemma shift_loop_lookup (f : Z -> Z) ws acc :
  NoDup ws -> Forall Int.in_int ws ->
  let acc' := foldl (fun led w => <[Int.add w value := f w]> led) acc ws in
  (forall w, w ∈ ws -> acc' !! Int.add w value = Some (f w))
  /\ (forall k, (forall w, w ∈ ws -> Int.add w value <> k) -> acc' !! k = acc !! k).
Proof.
  intros Hnd Hint. revert acc. induction ws as [|w0 ws IH]; intros acc; cbv zeta.
  - split; [by intros w ?%not_elem_of_nil|done].
  - apply NoDup_cons in Hnd as [Hw0 Hnd]. apply Forall_cons in Hint as [Hi0 Hint].
    cbn [foldl]. destruct (IH Hnd Hint (<[Int.add w0 value := f w0]> acc)) as [IH1 IH2].
    rewrite Forall_forall in Hint. split.
    + intros w [->|Hw]%elem_of_cons; [|by apply IH1].
      rewrite IH2; [apply lookup_insert_eq|].
      intros w Hw E. apply add_inj_l in E; [|by apply Hint|done]. by subst.
    + intros k Hk. rewrite IH2.
      * apply lookup_insert_ne, Hk, list_elem_of_here.
      * intros w Hw. apply Hk. by apply list_elem_of_further.
Qed.

Lemma shift_loop_total (f : Z -> Z) ws acc :
  NoDup ws -> Forall Int.in_int ws ->
  (forall w, w ∈ ws -> acc !! Int.add w value = None) ->
  ledger_total (foldl (fun led w => <[Int.add w value := f w]> led) acc ws)
  = ledger_total acc + Zsum (f <$> ws).
Proof.
  intros Hnd Hint. revert acc. induction ws as [|w0 ws IH]; intros acc Hfresh.
  - cbn. lia.
  - apply NoDup_cons in Hnd as [Hw0 Hnd]. apply Forall_cons in Hint as [Hi0 Hint].
    cbn [foldl]. rewrite IH; [|done|done|].
    + rewrite ledger_total_insert by apply Hfresh, list_elem_of_here.
      rewrite fmap_cons, Zsum_cons. lia.
    + rewrite Forall_forall in Hint. intros w Hw. rewrite lookup_insert_ne.
      * by apply Hfresh, list_elem_of_further.
      * intros E. apply add_inj_l in E; [|done|by apply Hint]. by subst.
Qed.

Lemma keys_asc_in_int led : ledger_typed led -> Forall Int.in_int (keys_asc led).
Proof.
  intros Ht. apply Forall_forall. intros w [q Hq]%elem_of_keys_asc.
  by destruct (Ht w q Hq).
Qed.

(** The buckets of the shifted ledger are the buckets of the ledger, each
    at its wear level plus [value] in 32 bits. *)
Lemma shift_ledger_lookup led w q :
  ledger_typed led -> led !! w = Some q ->
  shift_ledger value led !! Int.add w value = Some q.
Proof.
  intros Ht Hw. unfold shift_ledger.
  destruct (shift_loop_lookup (at_wear led) (keys_asc led) ∅
              (NoDup_keys_asc led) (keys_asc_in_int led Ht)) as [H1 _].
  rewrite H1 by (apply elem_of_keys_asc; eauto). by rewrite (at_wear_Some _ _ _ Hw).
Qed.

Lemma shift_ledger_lookup_inv led k q :
  ledger_typed led -> shift_ledger value led !! k = Some q ->
  exists w, k = Int.add w value /\ led !! w = Some q.
Proof.
  intros Ht Hk. unfold shift_ledger in Hk.
  destruct (shift_loop_lookup (at_wear led) (keys_asc led) ∅
              (NoDup_keys_asc led) (keys_asc_in_int led Ht)) as [H1 H2].
  cbv zeta in *.
  destruct (decide (Exists (fun w => Int.add w value = k) (keys_asc led))) as [He|Hn].
  - apply Exists_exists in He as (w & Hw & <-). exists w. split; [done|].
    rewrite H1 in Hk by done. injection Hk as <-.
    apply elem_of_keys_asc in Hw as [q' Hq']. by rewrite (at_wear_Some _ _ _ Hq').
  - rewrite H2, lookup_empty in Hk; [done|]. intros w Hw E. apply Hn.
    apply Exists_exists. eauto.
Qed.

Lemma shift_ledger_total led :
  ledger_typed led -> ledger_total (shift_ledger value led) = ledger_total led.
Proof.
  intros Ht. unfold shift_ledger. rewrite shift_loop_total.
  - rewrite ledger_total_empty, (ledger_total_keys led (keys_asc led)) by done. lia.
  - apply NoDup_keys_asc.
  - by apply keys_asc_in_int.
  - intros. apply lookup_empty.
Qed.

Lemma shift_ledger_typed led : ledger_typed led -> ledger_typed (shift_ledger value led).
Proof.
  intros Ht k q Hk. destruct (shift_ledger_lookup_inv led k q Ht Hk) as (w & -> & Hw).
  split; [apply wrap_in_int|]. by destruct (Ht w q Hw).
Qed.

Lemma shift_ledger_positive led :
  ledger_typed led -> ledger_positive led -> ledger_positive (shift_ledger value led).
Proof.
  intros Ht Hp k q Hk. destruct (shift_ledger_lookup_inv led k q Ht Hk) as (w & -> & Hw).
  by eapply Hp.
Qed.

Lemma shift_ledger_non_empty led :
  ledger_typed led -> led <> ∅ -> shift_ledger value led <> ∅.
Proof.
  intros Ht (w & q & Hw)%map_choose He.
  pose proof (shift_ledger_lookup led w q Ht Hw) as H. by rewrite He, lookup_empty in H.
Qed.

Lemma outfits_asc_perm this : outfits_asc this ≡ₚ (map_to_list this).*1.
Proof. apply merge_sort_Permutation. Qed.

Lemma elem_of_outfits_asc this (outfit : N) :
  outfit ∈ outfits_asc this <-> is_Some (this !! outfit).
Proof.
  rewrite outfits_asc_perm, list_elem_of_fmap. split.
  - intros [[o l] [-> Hin]]. apply elem_of_map_to_list in Hin. eauto.
  - intros [l Hl]. exists (outfit, l). split; [done|]. by apply elem_of_map_to_list.
Qed.

(** [IncrementWear] replaces every ledger by the shifted ledger. *)
Lemma IncrementWear_lookup this (outfit : N) :
  IncrementWear value this !! outfit = shift_ledger value <$> this !! outfit.
Proof.
  unfold IncrementWear.
  assert (Hgen : forall (os : list N) (acc : OutfitGroup),
    foldl (fun outfits o => match this !! o with
                            | Some led => <[o := shift_ledger value led]> outfits
                            | None => outfits
                            end) acc os !! outfit
    = if decide (outfit ∈ os /\ is_Some (this !! outfit))
      then shift_ledger value <$> this !! outfit else acc !! outfit).
  { induction os as [|o os IH]; intros acc.
    - cbn. rewrite decide_False; [done|]. intros [H _]. by apply not_elem_of_nil in H.
    - cbn [foldl]. rewrite IH.
      destruct (decide (outfit ∈ os /\ is_Some (this !! outfit))) as [[Hin Hs]|Hn].
      + by rewrite decide_True by (split; [by apply list_elem_of_further|done]).
      + destruct (decide (outfit = o)) as [->|Hne].
        * destruct (this !! o) as [led|] eqn:E.
          -- rewrite lookup_insert_eq.
             by rewrite decide_True by (split; [apply list_elem_of_here|eauto]).
          -- rewrite decide_False; [done|]. by intros [_ [? ?]].
        * rewrite decide_False.
          -- destruct (this !! o); [by rewrite lookup_insert_ne|done].
          -- intros [[?|?]%elem_of_cons ?]; [done|]. by apply Hn. }
  rewrite Hgen. case_decide as H; [done|].
  destruct (this !! outfit) as [led|] eqn:E; [|done].
  exfalso. apply H. split; [|eauto]. apply elem_of_outfits_asc. eauto.
Qed.

Lemma IncrementWear_well_formed this :
  well_formed this -> well_formed (IncrementWear value this).
Proof.
  intros [Ht Hn]. split; intros o led'; rewrite IncrementWear_lookup;
    destruct (this !! o) as [led|] eqn:E; try done; intros [= <-].
  - by apply shift_ledger_typed, (Ht o).
  - destruct (Hn o led E). pose proof (Ht o led E). split.
    + by apply shift_ledger_non_empty.
    + by apply shift_ledger_positive.
Qed.
End ageing.

(** ** The invariant along a sequence of calls *)

Section invariant.
Implicit Types (g h : OutfitGroup) (groups : list OutfitGroup) (outfit : N).

Lemma AddOutfit_well_formed g outfit count wear :
  well_formed g -> Int.in_int count -> Int.in_int wear -> 0 < count ->
  quantity g outfit wear + count <= Int.INT_MAX ->
  well_formed (AddOutfit g outfit count wear).1.
Proof.
  intros Hwf Hc Hw Hpos Hfit. split.
  - by apply AddOutfit_typed; [apply Hwf|..].
  - apply AddOutfit_no_empty_buckets; [apply Hwf|done|].
    pose proof (well_formed_quantity_nonneg g outfit wear Hwf).
    rewrite add_small by (unfold Int.in_int, Int.INT_MIN, Int.INT_MAX in *; lia).
    lia.
Qed.

(** The same for any count that leaves the bucket written positive. *)
Lemma AddOutfit_well_formed_positive g outfit count wear :
  well_formed g -> Int.in_int count -> Int.in_int wear ->
  0 < quantity g outfit wear + count <= Int.INT_MAX ->
  well_formed (AddOutfit g outfit count wear).1.
Proof.
  intros Hwf Hc Hw Hfit. split.
  - by apply AddOutfit_typed; [apply Hwf|..].
  - apply AddOutfit_no_empty_buckets; [apply Hwf|done|].
    rewrite add_small by (unfold Int.in_int, Int.INT_MIN, Int.INT_MAX in *; lia).
    lia.
Qed.

(** [RemoveOutfit] keeps the group and the group [*to] well formed. *)
Lemma RemoveOutfit_well_formed g outfit count (mostWornFirst : bool)
  (to : option OutfitGroup) :
  well_formed g -> Int.in_int count -> 0 < count ->
  (forall h, to = Some h ->
     well_formed h
     /\ total_quantity g outfit + total_quantity h outfit <= Int.INT_MAX) ->
  exists r g' to',
    RemoveOutfit g outfit count mostWornFirst to = (r, g', to')
    /\ well_formed g'
    /\ match to with
       | Some _ => exists h', to' = Some h' /\ well_formed h'
       | None => to' = None
       end.
Proof.
  intros Hwf Hc Hpos Hto. destruct (g !! outfit) as [led|] eqn:Hl.
  - destruct to as [h|].
    + destruct (Hto h eq_refl) as [Hh Hfit].
      destruct (RemoveOutfit_quantities g outfit count mostWornFirst h led)
        as (g' & h' & E & Hg' & Hh' & _); [done..| |].
      { intros w. pose proof (quantity_le_total h outfit w Hh).
        pose proof (quantity_le_total g outfit w Hwf) as Hq.
        rewrite (quantity_lookup _ _ _ _ Hl) in Hq. lia. }
      eauto 10.
    + pose proof Hwf as [Hty Hne]. pose proof (Hty outfit led Hl) as Hlt.
      destruct (Hne outfit led Hl) as [_ Hlp]. cbn in Hlt.
      rewrite (RemoveOutfit_spec g outfit count mostWornFirst None led) by done.
      cbv zeta. eexists _, _, _. split; [done|]. split; [|done].
      set (ws := if mostWornFirst then keys_desc led else keys_asc led).
      assert (Hin : forall w, w ∈ ws <-> is_Some (led !! w)).
      { intros w. unfold ws. destruct mostWornFirst;
          [apply elem_of_keys_desc|apply elem_of_keys_asc]. }
      assert (Hb : forall w q, led !! w = Some q ->
                0 <= taken (at_wear led) count ws w <= q).
      { intros w q. by apply taken_within. }
      apply store_well_formed; [done|by apply withdrawn_typed|by apply withdrawn_positive].
  - rewrite (RemoveOutfit_absent _ _ _ _ _ Hl). eexists _, _, _. split; [done|].
    split; [done|]. destruct to as [h|]; [|done]. exists h. split; [done|]. by apply Hto.
Qed.

Lemma neg_small x : Int.INT_MIN < x -> Int.in_int x -> Int.neg x = - x.
Proof.
  intros H1 H2. apply wrap_small.
  unfold Int.in_int, Int.INT_MIN, Int.INT_MAX in *. lia.
Qed.

(** [TransferOutfits] returns within two nested calls, and keeps the two
    groups well formed. *)
Lemma TransferOutfits_well_formed g outfit count (to : option OutfitGroup)
  (mostWornFirst : bool) defaultWear :
  well_formed g -> Int.in_int count -> Int.INT_MIN < count ->
  Int.in_int defaultWear ->
  (forall h, to = Some h ->
     well_formed h
     /\ total_quantity g outfit + total_quantity h outfit <= Int.INT_MAX) ->
  (to = None -> count < 0 ->
     quantity g outfit defaultWear + - count <= Int.INT_MAX) ->
  exists r g' to',
    TransferOutfits 2 g outfit count to mostWornFirst defaultWear
    = Some (r, g', to')
    /\ well_formed g'
    /\ match to with
       | Some _ => exists h', to' = Some h' /\ well_formed h'
       | None => to' = None
       end.
Proof.
  intros Hwf Hc Hmin Hdw Hto Hadd.
  destruct (decide (count = 0 \/ outfit = nullptr)) as [Hz|Hnz].
  { rewrite TransferOutfits_nothing by done. eexists _, _, _. split; [done|].
    split; [done|]. destruct to as [h|]; [|done]. exists h. split; [done|]. by apply Hto. }
  assert (Hc0 : count <> 0) by tauto. assert (Ho : outfit <> nullptr) by tauto.
  assert (Hneg : Int.neg count = - count) by (by apply neg_small).
  assert (Hnegi : Int.in_int (- count)).
  { unfold Int.in_int, Int.INT_MIN, Int.INT_MAX in *. lia. }
  cbn [TransferOutfits].
  destruct (Z.eqb_spec count 0); [done|]. destruct (N.eqb_spec outfit nullptr); [done|].
  cbn [orb]. destruct to as [h|].
  - destruct (Hto h eq_refl) as [Hh Hfit].
    destruct (Z.ltb_spec count 0) as [Hlt|Hge].
    + rewrite Hneg.
      destruct (Z.eqb_spec (- count) 0); [lia|]. cbn [orb].
      destruct (Z.ltb_spec (- count) 0); [lia|].
      destruct (RemoveOutfit_well_formed h outfit (- count) mostWornFirst (Some g))
        as (r & h' & to' & E & Hh' & (g' & -> & Hg')); [done|done|lia| |].
      { intros ? [= <-]. split; [done|lia]. }
      rewrite E. eexists _, _, _. split; [done|]. split; [done|]. eauto.
    + destruct (RemoveOutfit_well_formed g outfit count mostWornFirst (Some h))
        as (r & g' & to' & E & Hg' & Hto'); [done|done|lia|by intros ? [= <-]|].
      rewrite E. eauto 10.
  - destruct (Z.ltb_spec 0 count) as [Hlt|Hge].
    + destruct (RemoveOutfit_well_formed g outfit count mostWornFirst None)
        as (r & g' & to' & E & Hg' & ->); [done|done|lia|done|].
      rewrite E. eauto 10.
    + rewrite Hneg.
      destruct (AddOutfit g outfit (- count) defaultWear) as [g' added] eqn:E.
      eexists _, _, _. split; [done|]. split; [|done].
      change g' with (g', added).1. rewrite <- E.
      apply AddOutfit_well_formed; [done|done|done|lia|apply Hadd; [done|lia]].
Qed.

Lemma Clear_well_formed g : well_formed (Clear g).
Proof. split; intros o led; unfold Clear; by rewrite lookup_empty. Qed.

(** A method that keeps its two groups well formed keeps the groups of the
    program well formed. *)
Lemma call_on_well_formed this to groups groups' method :
  Forall well_formed groups ->
  call_on this to groups method = Some groups' ->
  (forall g, groups !! this = Some g ->
     match to with
     | None => forall g' x, method g None = Some (g', x) -> well_formed g'
     | Some j =>
         forall h g' h', groups !! j = Some h ->
           method g (Some h) = Some (g', Some h') ->
           well_formed g' /\ well_formed h'
     end) ->
  Forall well_formed groups'.
Proof.
  intros Hall Hrun Hm. unfold call_on in Hrun.
  destruct (groups !! this) as [g|] eqn:Eg; [|done]. specialize (Hm g eq_refl).
  destruct to as [j|].
  - case_decide; [done|]. destruct (groups !! j) as [h|] eqn:Eh; [|done].
    destruct (method g (Some h)) as [[g' [h'|]]|] eqn:Em; [|done..].
    injection Hrun as <-. destruct (Hm h g' h' eq_refl Em).
    by apply Forall_insert; [apply Forall_insert|].
  - destruct (method g None) as [[g' x]|] eqn:Em; [|done].
    injection Hrun as <-. apply Forall_insert; [done|]. by eapply Hm.
Qed.

Lemma run_call_well_formed c groups groups' :
  Forall well_formed groups -> admissible groups c ->
  run_call c groups = Some groups' -> Forall well_formed groups'.
Proof.
  intros Hall Hadm Hrun.
  assert (Hget : forall i g, groups !! i = Some g -> well_formed g).
  { intros i g Hi. rewrite Forall_forall in Hall. apply Hall.
    by eapply list_elem_of_lookup_2. }
  destruct c as [this outfit count wear|this outfit count mwf to
                |this outfit count to mwf dw|this value|this];
    cbn [admissible] in Hadm; cbn [run_call] in Hrun.
  - destruct Hadm as (Hc & Hw & Hfit).
    apply (call_on_well_formed _ _ _ _ _ Hall Hrun). intros g Hg g' x [= <- _].
    apply AddOutfit_well_formed_positive; [by eauto|done|done|by apply Hfit].
  - destruct Hadm as (Hc & Hpos & Hfit).
    apply (call_on_well_formed _ _ _ _ _ Hall Hrun). intros g Hg.
    destruct to as [j|].
    + intros h g' h' Hh Hm.
      destruct (RemoveOutfit_well_formed g outfit count mwf (Some h))
        as (r & g1 & to1 & E & Hg1 & (h1 & -> & Hh1)); [eauto..| |].
      { intros ? [= <-]. split; [eauto|]. by apply Hfit. }
      rewrite E in Hm. by injection Hm as <- <-.
    + intros g' x Hm.
      destruct (RemoveOutfit_well_formed g outfit count mwf None)
        as (r & g1 & to1 & E & Hg1 & ->); [eauto..|done|].
      rewrite E in Hm. by injection Hm as <- _.
  - destruct Hadm as (Hc & Hmin & Hdw & Hfit & Hadd).
    apply (call_on_well_formed _ _ _ _ _ Hall Hrun). intros g Hg.
    destruct to as [j|].
    + intros h g' h' Hh Hm.
      destruct (TransferOutfits_well_formed g outfit count (Some h) mwf dw)
        as (r & g1 & to1 & E & Hg1 & (h1 & -> & Hh1)); [eauto..| |done|].
      { intros ? [= <-]. split; [eauto|]. by apply Hfit. }
      rewrite E in Hm. by injection Hm as <- <-.
    + intros g' x Hm.
      destruct (TransferOutfits_well_formed g outfit count None mwf dw)
        as (r & g1 & to1 & E & Hg1 & ->); [eauto..|done| |].
      { intros _ Hlt. by apply Hadd. }
      rewrite E in Hm. by injection Hm as <- _.
  - apply (call_on_well_formed _ _ _ _ _ Hall Hrun). intros g Hg g' x [= <- _].
    apply IncrementWear_well_formed. eauto.
  - apply (call_on_well_formed _ _ _ _ _ Hall Hrun). intros g Hg g' x [= <- _].
    apply Clear_well_formed.
Qed.
End invariant.

(** [operator!=] is the negation of the equality of the specification, for
    two cursors over the same group. *)
Lemma operator_ne_spec (it other : iterator) :
  myGroup it = myGroup other ->
  operator_ne it other = false <-> same_cursor it other.
Proof.
  intros Hg. unfold operator_ne, same_cursor.
  destruct (isEnd it), (isEnd other); cbn [andb];
    rewrite ?orb_false_iff, ?negb_false_iff, ?bool_decide_eq_true;
    intuition congruence.
Qed.

(** [operator==] holds exactly for two cursors at the same positions. *)
Lemma operator_eq_spec (it other : iterator) :
  operator_eq it other = true
  <-> outerIter it = outerIter other /\ innerIter it = innerIter other.
Proof.
  unfold operator_eq. by rewrite andb_true_iff, !bool_decide_eq_true.
Qed.

(** The constants are the correctly rounded quotients 40/100, 90/100 and
    20/10000, and [Double.one] is the integer 1. *)
Lemma default_constants :
  DEFAULT_MIN_PRICE = Double.div (Double.of_int 40) (Double.of_int 100)
  /\ DEFAULT_MAX_PRICE = Double.div (Double.of_int 90) (Double.of_int 100)
  /\ DEFAULT_DEPRECIATION_RATE = Double.div (Double.of_int 20) (Double.of_int 10000)
  /\ Double.one = Double.of_int 1.
Proof. repeat split; by vm_compute. Qed.

(** ** Facts about binary64 arithmetic *)

Section digits.
Implicit Types (p : positive) (m n d e : Z).

Lemma digits2_pos_bounds p :
  2 ^ (Zpos (digits2_pos p) - 1) <= Zpos p < 2 ^ Zpos (digits2_pos p).
Proof.
  induction p as [p IH|p IH|]; cbn [digits2_pos].
  - rewrite Pos2Z.inj_succ, (Pos2Z.inj_xI p).
    replace (Z.succ (Zpos (digits2_pos p)) - 1) with (Z.succ (Zpos (digits2_pos p) - 1)) by lia.
    rewrite !Z.pow_succ_r by lia. lia.
  - rewrite Pos2Z.inj_succ, (Pos2Z.inj_xO p).
    replace (Z.succ (Zpos (digits2_pos p)) - 1) with (Z.succ (Zpos (digits2_pos p) - 1)) by lia.
    rewrite !Z.pow_succ_r by lia. lia.
  - cbn. lia.
Qed.

(** The number of binary digits is determined by the binade. *)
Lemma digits2_pos_unique p d :
  2 ^ (d - 1) <= Zpos p < 2 ^ d -> Zpos (digits2_pos p) = d.
Proof.
  intros [Hl Hu]. pose proof (digits2_pos_bounds p) as [Hl' Hu'].
  assert (0 < d).
  { destruct (Z.ltb_spec 0 d); [done|]. rewrite Z.pow_neg_r in Hl by lia.
    destruct (Z.eqb_spec d 0) as [->|]; [cbn in Hu; lia|].
    rewrite Z.pow_neg_r in Hu by lia. lia. }
  destruct (Z.lt_trichotomy (Zpos (digits2_pos p)) d) as [Hlt|[Heq|Hgt]]; [|done|].
  - assert (2 ^ Zpos (digits2_pos p) <= 2 ^ (d - 1)) by (apply Z.pow_le_mono_r; lia). lia.
  - assert (2 ^ d <= 2 ^ (Zpos (digits2_pos p) - 1)) by (apply Z.pow_le_mono_r; lia). lia.
Qed.

Lemma digits2_pos_mono p1 p2 :
  Zpos p1 <= Zpos p2 -> Zpos (digits2_pos p1) <= Zpos (digits2_pos p2).
Proof.
  intros Hle. pose proof (digits2_pos_bounds p1) as [Hl1 Hu1].
  pose proof (digits2_pos_bounds p2) as [Hl2 Hu2].
  destruct (Z.le_gt_cases (Zpos (digits2_pos p1)) (Zpos (digits2_pos p2))); [done|].
  assert (2 ^ Zpos (digits2_pos p2) <= 2 ^ (Zpos (digits2_pos p1) - 1))
    by (apply Z.pow_le_mono_r; lia). lia.
Qed.

Lemma iter_xO p k : Zpos (Pos.iter xO p k) = Zpos p * 2 ^ Zpos k.
Proof.
  induction k as [|k IH] using Pos.peano_ind.
  - cbn. lia.
  - rewrite Pos.iter_succ, Pos2Z.inj_xO, IH, Pos2Z.inj_succ, Z.pow_succ_r by lia. lia.
Qed.

Lemma digits2_pos_shift p k :
  0 <= k -> Zpos (digits2_pos (Z.to_pos (Zpos p * 2 ^ k))) = Zpos (digits2_pos p) + k.
Proof.
  intros Hk. pose proof (digits2_pos_bounds p) as [Hl Hu].
  assert (0 < 2 ^ k) by (apply Z.pow_pos_nonneg; lia).
  apply digits2_pos_unique. rewrite Z2Pos.id by lia.
  replace (Zpos (digits2_pos p) + k - 1) with (Zpos (digits2_pos p) - 1 + k) by lia.
  rewrite !Z.pow_add_r by lia. nia.
Qed.
End digits.

Section shifting.
Implicit Types (m n e : Z) (r s : bool).

(** [iter_pos] is iteration a number of times. *)
Lemma iter_pos_nat {A} (f : A -> A) (p : positive) (x : A) :
  SpecFloat.iter_pos f p x = Nat.iter (Pos.to_nat p) f x.
Proof.
  revert x. induction p as [p IH|p IH|]; intros x; cbn [SpecFloat.iter_pos].
  - rewrite !IH, Pos2Nat.inj_xI. rewrite <- Nat.iter_succ_r, <- Nat.iter_add.
    f_equal. lia.
  - rewrite !IH, Pos2Nat.inj_xO. rewrite <- Nat.iter_add. f_equal. lia.
  - reflexivity.
Qed.

Lemma shr_1_spec m r s :
  0 <= m ->
  shr_1 (Build_shr_record m r s) = Build_shr_record (m / 2) (Z.odd m) (r || s).
Proof.
  intros Hm. destruct m as [|[p|p|]|p]; try lia; cbn [shr_1].
  - reflexivity.
  - f_equal. rewrite (Pos2Z.inj_xI p). apply Z.div_unique with 1; lia.
  - f_equal. rewrite (Pos2Z.inj_xO p). apply Z.div_unique with 0; lia.
  - reflexivity.
Qed.

(** The record after [n + 1] shifts to the right: the quotient, the bit
    shifted out last and whether a bit shifted out before was set. *)
Lemma shr_iter m (n : nat) :
  0 <= m ->
  Nat.iter (S n) shr_1 (Build_shr_record m false false)
  = Build_shr_record (m / 2 ^ Z.of_nat (S n)) (Z.odd (m / 2 ^ Z.of_nat n))
      (negb (m mod 2 ^ Z.of_nat n =? 0)).
Proof.
  intros Hm. induction n as [|n IH].
  - cbn [Nat.iter]. rewrite shr_1_spec by done. f_equal.
    + by rewrite Z.div_1_r.
    + cbn. by rewrite Z.mod_1_r.
  - rewrite Nat.iter_succ, IH. clear IH.
    assert (0 < 2 ^ Z.of_nat n) by (apply Z.pow_pos_nonneg; lia).
    assert (0 < 2 ^ Z.of_nat (S n)) by (apply Z.pow_pos_nonneg; lia).
    rewrite shr_1_spec by (apply Z.div_pos; lia). f_equal.
    + rewrite Z.div_div by lia. f_equal.
      rewrite (Nat2Z.inj_succ (S n)), Z.pow_succ_r by lia. lia.
    + rewrite (Nat2Z.inj_succ n), Z.pow_succ_r by lia.
      set (P := 2 ^ Z.of_nat n) in *.
      assert (Hdm : m mod (2 * P) = m mod P + P * ((m / P) mod 2)).
      { rewrite (Z.mul_comm 2 P). apply Z.rem_mul_r; lia. }
      rewrite Hdm. rewrite <- (Z.bit0_mod (m / P)), Z.bit0_odd.
      pose proof (Z.mod_pos_bound m P ltac:(lia)).
      destruct (Z.odd (m / P)), (Z.eqb_spec (m mod P) 0); cbn [orb negb Z.b2z];
        symmetry; rewrite ?Z.eqb_eq, ?Z.eqb_neq, ?negb_true_iff, ?negb_false_iff,
          ?Z.eqb_eq, ?Z.eqb_neq; lia.
Qed.
End shifting.

Section rounding.
Implicit Types (m n e : Z) (p : positive).

(** The rounding that follows a shift of [p] bits. *)
Lemma round_shr m p :
  0 <= m ->
  round_nearest_even
    (shr_m (SpecFloat.iter_pos shr_1 p (Build_shr_record m false false)))
    (loc_of_shr_record
       (SpecFloat.iter_pos shr_1 p (Build_shr_record m false false)))
  = rne m (Zpos p).
Proof.
  intros Hm. rewrite iter_pos_nat.
  destruct (Pos2Nat.is_succ p) as [n Hn]. rewrite Hn, shr_iter by done.
  assert (Hp : Zpos p = Z.succ (Z.of_nat n)) by lia.
  unfold rne. destruct (Z.leb_spec (Zpos p) 0); [lia|].
  rewrite Nat2Z.inj_succ, Hp, Z.pow_succ_r by lia.
  set (P := 2 ^ Z.of_nat n).
  assert (0 < P) by (apply Z.pow_pos_nonneg; lia).
  assert (Hdm : m mod (2 * P) = m mod P + P * ((m / P) mod 2)).
  { rewrite (Z.mul_comm 2 P). apply Z.rem_mul_r; lia. }
  rewrite Hdm. rewrite <- (Z.bit0_mod (m / P)), Z.bit0_odd.
  pose proof (Z.mod_pos_bound m P ltac:(lia)).
  cbn [shr_m loc_of_shr_record].
  destruct (Z.odd (m / P)), (Z.eqb_spec (m mod P) 0); cbn [negb Z.b2z round_nearest_even].
  - destruct (Z.ltb_spec (2 * (m mod P + P * 1)) (2 * P)); [lia|].
    destruct (Z.ltb_spec (2 * P) (2 * (m mod P + P * 1))); [lia|]. done.
  - destruct (Z.ltb_spec (2 * (m mod P + P * 1)) (2 * P)); [lia|].
    destruct (Z.ltb_spec (2 * P) (2 * (m mod P + P * 1))); [done|lia].
  - by destruct (Z.ltb_spec (2 * (m mod P + P * 0)) (2 * P)); [|lia].
  - by destruct (Z.ltb_spec (2 * (m mod P + P * 0)) (2 * P)); [|lia].
Qed.

Lemma rne_exact m n : 0 <= n -> rne (m * 2 ^ n) n = m.
Proof.
  intros Hn. unfold rne. destruct (Z.leb_spec n 0).
  - replace n with 0 by lia. cbn. lia.
  - assert (0 < 2 ^ n) by (apply Z.pow_pos_nonneg; lia).
    rewrite Z.mod_mul, Z.div_mul by lia.
    by destruct (Z.ltb_spec (2 * 0) (2 ^ n)); [|lia].
Qed.

(** Rounding is monotone. *)
Lemma rne_mono m1 m2 n : m1 <= m2 -> rne m1 n <= rne m2 n.
Proof.
  intros Hle. unfold rne. destruct (Z.leb_spec n 0); [done|].
  assert (HP : 0 < 2 ^ n) by (apply Z.pow_pos_nonneg; lia).
  set (P := 2 ^ n) in *.
  pose proof (Z.div_mod m1 P ltac:(lia)) as E1.
  pose proof (Z.div_mod m2 P ltac:(lia)) as E2.
  pose proof (Z.mod_pos_bound m1 P HP). pose proof (Z.mod_pos_bound m2 P HP).
  pose proof (Z.div_le_mono m1 m2 P HP Hle) as Hq.
  set (q1 := m1 / P) in *. set (q2 := m2 / P) in *.
  set (r1 := m1 mod P) in *. set (r2 := m2 mod P) in *.
  destruct (Z.eq_dec q1 q2) as [Heq|Hne].
  - assert (r1 <= r2) by (rewrite Heq in E1; lia). rewrite Heq.
    destruct (Z.ltb_spec (2 * r1) P), (Z.ltb_spec (2 * r2) P),
      (Z.ltb_spec P (2 * r1)), (Z.ltb_spec P (2 * r2)), (Z.even q2); lia.
  - assert (q1 + 1 <= q2) by lia.
    destruct (Z.ltb_spec (2 * r1) P), (Z.ltb_spec (2 * r2) P),
      (Z.ltb_spec P (2 * r1)), (Z.ltb_spec P (2 * r2)), (Z.even q1), (Z.even q2); lia.
Qed.

(** Rounding a mantissa of [53 + n] bits gives one of 53 bits, or
    [2 ^ 53]. *)
Lemma rne_bounds m n :
  0 <= n -> 2 ^ (52 + n) <= m < 2 ^ (53 + n) -> 2 ^ 52 <= rne m n <= 2 ^ 53.
Proof.
  intros Hn [Hl Hu].
  assert (H1 : rne (2 ^ 52 * 2 ^ n) n = 2 ^ 52) by (by apply rne_exact).
  assert (H2 : rne (2 ^ 53 * 2 ^ n) n = 2 ^ 53) by (by apply rne_exact).
  rewrite Z.pow_add_r in Hl, Hu by lia.
  split.
  - rewrite <- H1. by apply rne_mono.
  - rewrite <- H2. apply rne_mono. lia.
Qed.

(** Rounding does not depend on trailing zero bits. *)
Lemma rne_shift m n k :
  0 <= m -> 0 <= n -> 0 <= k -> rne (m * 2 ^ k) (n + k) = rne m n.
Proof.
  intros Hm Hn Hk. destruct (Z.eq_dec n 0) as [->|Hn0].
  { rewrite Z.add_0_l, rne_exact by done. reflexivity. }
  unfold rne. destruct (Z.leb_spec (n + k) 0), (Z.leb_spec n 0); try lia.
  assert (HP : 0 < 2 ^ n) by (apply Z.pow_pos_nonneg; lia).
  assert (HK : 0 < 2 ^ k) by (apply Z.pow_pos_nonneg; lia).
  rewrite Z.pow_add_r by lia.
  rewrite Z.div_mul_cancel_r by lia.
  rewrite Z.mul_mod_distr_r by lia.
  set (P := 2 ^ n) in *. set (K := 2 ^ k) in *.
  pose proof (Z.mod_pos_bound m P HP).
  set (q := m / P). set (r := m mod P) in *.
  destruct (Z.ltb_spec (2 * r) P), (Z.ltb_spec (2 * (r * K)) (P * K)),
    (Z.ltb_spec P (2 * r)), (Z.ltb_spec (P * K) (2 * (r * K))); try done; nia.
Qed.
End rounding.

Section binary64.
Implicit Types (m n e d : Z) (p : positive) (s : bool).

Lemma fexp_normal e : -1021 <= e -> fexp Double.prec Double.emax e = e - 53.
Proof. intros He. unfold fexp, emin, Double.prec, Double.emax. lia. Qed.

(** No shift is needed for a mantissa of 53 bits. *)
Lemma shr_fexp_53 p e :
  Zpos (digits2_pos p) = 53 -> -1074 <= e ->
  shr_fexp Double.prec Double.emax (Zpos p) e loc_Exact
  = (Build_shr_record (Zpos p) false false, e).
Proof.
  intros Hd He. unfold shr_fexp. cbn [Zdigits2 shr_record_of_loc].
  rewrite Hd, fexp_normal by lia.
  replace (53 + e - 53 - e) with 0 by lia. reflexivity.
Qed.

(** [binary_round_aux] on a positive mantissa of 53 bits at least, away
    from the subnormal numbers and from overflow. *)
Lemma binary_round_aux_normal s p e :
  53 <= Zpos (digits2_pos p) ->
  -1074 <= e + Zpos (digits2_pos p) - 53 ->
  e + Zpos (digits2_pos p) - 52 <= 971 ->
  binary_round_aux Double.prec Double.emax s (Zpos p) e loc_Exact
  = S754_finite s (Z.to_pos (round_pos (Zpos p) e).1) (round_pos (Zpos p) e).2.
Proof.
  intros Hd Hlo Hhi. set (d := Zpos (digits2_pos p)) in *.
  pose proof (digits2_pos_bounds p) as Hb. fold d in Hb.
  unfold binary_round_aux, round_pos. cbn [Zdigits2]. fold d.
  assert (Hrb : 2 ^ 52 <= rne (Zpos p) (d - 53) <= 2 ^ 53).
  { apply rne_bounds; [lia|]. by replace (52 + (d - 53)) with (d - 1) by lia;
      replace (53 + (d - 53)) with d by lia. }
  assert (Hfirst : exists mrs,
    shr_fexp Double.prec Double.emax (Zpos p) e loc_Exact = (mrs, e + (d - 53))
    /\ round_nearest_even (shr_m mrs) (loc_of_shr_record mrs)
       = rne (Zpos p) (d - 53)).
  { unfold shr_fexp. cbn [Zdigits2 shr_record_of_loc]. fold d.
    rewrite fexp_normal by lia. replace (d + e - 53 - e) with (d - 53) by lia.
    destruct (d - 53) as [|k|k] eqn:Hk; [| |lia].
    - eexists. split; [cbn [shr]; f_equal; lia|]. reflexivity.
    - eexists. split; [reflexivity|]. by apply round_shr. }
  destruct Hfirst as (mrs & -> & ->).
  set (m1 := rne (Zpos p) (d - 53)) in *.
  destruct (Z.eqb_spec m1 (2 ^ 53)) as [E|E]; cbn [fst snd].
  - rewrite E. change (2 ^ 53) with (Zpos (Z.to_pos (2 ^ 53))).
    unfold shr_fexp. cbn [Zdigits2 shr_record_of_loc].
    change (Zpos (digits2_pos (Z.to_pos (2 ^ 53)))) with 54.
    rewrite fexp_normal by lia.
    replace (54 + (e + (d - 53)) - 53 - (e + (d - 53))) with 1 by lia.
    cbn [shr SpecFloat.iter_pos shr_1 Z.to_pos Z.pow Z.pow_pos Pos.iter Pos.mul shr_m].
    unfold Double.emax, Double.prec.
    destruct (Z.leb_spec (e + (d - 53) + 1) (1024 - 53)); [|lia].
    reflexivity.
  - assert (Hm1 : 2 ^ 52 <= m1 < 2 ^ 53) by lia.
    destruct m1 as [|p1|p1] eqn:Em; [lia| |lia].
    rewrite shr_fexp_53; [|by apply digits2_pos_unique|lia].
    cbn [shr_m]. unfold Double.emax, Double.prec.
    destruct (Z.leb_spec (e + (d - 53)) (1024 - 53)); [|lia].
    by rewrite Pos2Z.id.
Qed.

(** [binary_round] of a positive mantissa of 53 bits at most is exact: the
    mantissa is shifted to 53 bits. *)
Lemma binary_round_exact s p e :
  Zpos (digits2_pos p) <= 53 ->
  -1074 <= e + Zpos (digits2_pos p) - 53 ->
  e + Zpos (digits2_pos p) - 52 <= 971 ->
  binary_round Double.prec Double.emax s p e
  = S754_finite s (Z.to_pos (Zpos p * 2 ^ (53 - Zpos (digits2_pos p))))
      (e - (53 - Zpos (digits2_pos p))).
Proof.
  intros Hd Hlo Hhi. set (d := Zpos (digits2_pos p)) in *.
  unfold binary_round, shl_align. rewrite fexp_normal by (fold d; lia). fold d.
  replace (d + e - 53 - e) with (d - 53) by lia.
  destruct (d - 53) as [|k|k] eqn:Hk; [|lia|].
  - replace (53 - d) with 0 by lia. rewrite Z.mul_1_r, Pos2Z.id, Z.sub_0_r.
    rewrite binary_round_aux_normal; fold d; [|lia..].
    unfold round_pos. cbn [Zdigits2]. fold d. rewrite Hk.
    change (rne (Zpos p) 0) with (Zpos p).
    pose proof (digits2_pos_bounds p) as Hb. fold d in Hb.
    replace d with 53 in Hb by lia.
    destruct (Z.eqb_spec (Zpos p) (2 ^ 53)); [lia|]. cbn [fst snd].
    rewrite Pos2Z.id. f_equal. lia.
  - assert (Hs : Zpos (Pos.iter xO p k) = Zpos p * 2 ^ (53 - d))
      by (rewrite iter_xO; f_equal; f_equal; lia).
    assert (Hds : Zpos (digits2_pos (Pos.iter xO p k)) = 53).
    { replace (Pos.iter xO p k) with (Z.to_pos (Zpos p * 2 ^ (53 - d)))
        by (by rewrite <- Hs, Pos2Z.id).
      rewrite digits2_pos_shift by lia. fold d. lia. }
    rewrite binary_round_aux_normal; rewrite ?Hds; [|lia..].
    unfold round_pos. cbn [Zdigits2]. rewrite Hds.
    change (rne (Zpos (Pos.iter xO p k)) (53 - 53)) with (Zpos (Pos.iter xO p k)).
    pose proof (digits2_pos_bounds (Pos.iter xO p k)) as Hb. rewrite Hds in Hb.
    destruct (Z.eqb_spec (Zpos (Pos.iter xO p k)) (2 ^ 53)); [lia|]. cbn [fst snd].
    rewrite Hs. f_equal. lia.
Qed.
End binary64.

Section conversions.
Implicit Types (m n e d c : Z) (p : positive) (s : bool).

(** The conversion of a non-zero integer of 53 bits at most. *)
Lemma of_int_pos p :
  Zpos (digits2_pos p) <= 53 ->
  Double.of_int (Zpos p)
  = S754_finite false (Z.to_pos (Zpos p * 2 ^ (53 - Zpos (digits2_pos p))))
      (Zpos (digits2_pos p) - 53).
Proof.
  intros Hd. unfold Double.of_int. cbn [binary_normalize].
  pose proof (Pos2Z.is_pos (digits2_pos p)).
  rewrite binary_round_exact by lia. f_equal. lia.
Qed.

Lemma of_int_neg p :
  Zpos (digits2_pos p) <= 53 ->
  Double.of_int (Zneg p)
  = S754_finite true (Z.to_pos (Zpos p * 2 ^ (53 - Zpos (digits2_pos p))))
      (Zpos (digits2_pos p) - 53).
Proof.
  intros Hd. unfold Double.of_int. cbn [binary_normalize].
  pose proof (Pos2Z.is_pos (digits2_pos p)).
  rewrite binary_round_exact by lia. f_equal. lia.
Qed.

(** The product of two mantissas of 53 bits has 105 or 106 bits. *)
Lemma digits2_pos_mul p1 p2 :
  Zpos (digits2_pos p1) = 53 -> Zpos (digits2_pos p2) = 53 ->
  105 <= Zpos (digits2_pos (p1 * p2)) <= 106.
Proof.
  intros H1 H2. pose proof (digits2_pos_bounds p1) as B1.
  pose proof (digits2_pos_bounds p2) as B2. rewrite H1 in B1. rewrite H2 in B2.
  pose proof (digits2_pos_bounds (p1 * p2)) as B. rewrite Pos2Z.inj_mul in B.
  set (d := Zpos (digits2_pos (p1 * p2))) in *.
  assert (Hlo : 2 ^ 104 <= Zpos p1 * Zpos p2) by (change (2 ^ 104) with (2 ^ 52 * 2 ^ 52); nia).
  assert (Hhi : Zpos p1 * Zpos p2 < 2 ^ 106) by (change (2 ^ 106) with (2 ^ 53 * 2 ^ 53); nia).
  split.
  - destruct (Z.le_gt_cases 105 d); [done|].
    assert (2 ^ d <= 2 ^ 104) by (apply Z.pow_le_mono_r; lia). lia.
  - destruct (Z.le_gt_cases d 106); [done|].
    assert (2 ^ 106 <= 2 ^ (d - 1)) by (apply Z.pow_le_mono_r; lia). lia.
Qed.

(** Multiplying by [1.] changes nothing. *)
Lemma mul_one s p e :
  Zpos (digits2_pos p) = 53 -> -1074 <= e <= 970 ->
  Double.mul (S754_finite s p e) Double.one = S754_finite s p e.
Proof.
  intros Hd He. unfold Double.mul, Double.one. cbn [SFmul].
  rewrite xorb_false_r.
  assert (Hm : Zpos (p * 4503599627370496) = Zpos p * 2 ^ 52) by (by rewrite Pos2Z.inj_mul).
  assert (Hdm : Zpos (digits2_pos (p * 4503599627370496)) = 105).
  { replace (p * 4503599627370496)%positive with (Z.to_pos (Zpos p * 2 ^ 52))
      by (by rewrite <- Hm, Pos2Z.id).
    rewrite digits2_pos_shift by lia. lia. }
  rewrite binary_round_aux_normal; rewrite ?Hdm; [|lia..].
  unfold round_pos. cbn [Zdigits2]. rewrite Hdm, Hm.
  change (105 - 53) with 52. rewrite rne_exact by lia.
  pose proof (digits2_pos_bounds p) as Hb. rewrite Hd in Hb.
  destruct (Z.eqb_spec (Zpos p) (2 ^ 53)); [lia|]. cbn [fst snd].
  rewrite Pos2Z.id. f_equal. lia.
Qed.

Lemma to_int64_shifted s p k :
  0 <= k ->
  Double.to_int64 (S754_finite s (Z.to_pos (Zpos p * 2 ^ k)) (- k))
  = if s then Zneg p else Zpos p.
Proof.
  intros Hk. assert (0 < 2 ^ k) by (apply Z.pow_pos_nonneg; lia).
  destruct k as [|k|k]; [| |lia].
  - change (2 ^ 0) with 1. rewrite Z.mul_1_r, Pos2Z.id. by destruct s.
  - unfold Double.to_int64. rewrite Z2Pos.id by lia.
    change (- Zpos k) with (Zneg k). cbv beta iota.
    change (- Zneg k) with (Zpos k). rewrite Z.div_mul by lia. by destruct s.
Qed.

(** An integer of 53 bits at most goes through [double], times [1.], and
    back, unchanged. *)
Lemma to_int64_of_int c :
  - 2 ^ 53 < c < 2 ^ 53 ->
  Double.to_int64 (Double.mul (Double.of_int c) Double.one) = c.
Proof.
  intros Hc.
  assert (Hdig : forall p, Zpos p < 2 ^ 53 -> Zpos (digits2_pos p) <= 53).
  { intros p Hp. pose proof (digits2_pos_bounds p) as [Hl _].
    destruct (Z.le_gt_cases (Zpos (digits2_pos p)) 53); [done|].
    assert (2 ^ 53 <= 2 ^ (Zpos (digits2_pos p) - 1)) by (apply Z.pow_le_mono_r; lia).
    lia. }
  destruct c as [|p|p].
  - reflexivity.
  - assert (Hd := Hdig p ltac:(lia)). pose proof (Pos2Z.is_pos (digits2_pos p)).
    rewrite of_int_pos by done. rewrite mul_one.
    + replace (Zpos (digits2_pos p) - 53) with (- (53 - Zpos (digits2_pos p))) by lia.
      by rewrite to_int64_shifted by lia.
    + rewrite digits2_pos_shift by lia. lia.
    + lia.
  - assert (Hd := Hdig p ltac:(lia)). pose proof (Pos2Z.is_pos (digits2_pos p)).
    rewrite of_int_neg by done. rewrite mul_one.
    + replace (Zpos (digits2_pos p) - 53) with (- (53 - Zpos (digits2_pos p))) by lia.
      by rewrite to_int64_shifted by lia.
    + rewrite digits2_pos_shift by lia. lia.
    + lia.
Qed.
End conversions.

Section monotone.
Implicit Types (m n e d c : Z) (p : positive) (s : bool).

Lemma Zdigits2_pos m : 0 < m -> Zdigits2 m = Zpos (digits2_pos (Z.to_pos m)).
Proof. intros Hm. destruct m as [|p|p]; [lia|done|lia]. Qed.

Lemma Zdigits2_bounds m : 0 < m -> 2 ^ (Zdigits2 m - 1) <= m < 2 ^ Zdigits2 m.
Proof.
  intros Hm. rewrite Zdigits2_pos by done.
  pose proof (digits2_pos_bounds (Z.to_pos m)) as H. by rewrite Z2Pos.id in H.
Qed.

Lemma Zdigits2_shift m k : 0 < m -> 0 <= k -> Zdigits2 (m * 2 ^ k) = Zdigits2 m + k.
Proof.
  intros Hm Hk. assert (0 < 2 ^ k) by (apply Z.pow_pos_nonneg; lia).
  rewrite !Zdigits2_pos by nia.
  rewrite <- (digits2_pos_shift (Z.to_pos m) k Hk). by rewrite Z2Pos.id.
Qed.

Lemma Zdigits2_mono m1 m2 : 0 < m1 -> m1 <= m2 -> Zdigits2 m1 <= Zdigits2 m2.
Proof.
  intros H1 H2. rewrite !Zdigits2_pos by lia. apply digits2_pos_mono.
  by rewrite !Z2Pos.id by lia.
Qed.

(** Rounding does not depend on trailing zero bits of the mantissa. *)
Lemma round_pos_shift m e k :
  0 < m -> 53 <= Zdigits2 m -> 0 <= k ->
  round_pos (m * 2 ^ k) (e - k) = round_pos m e.
Proof.
  intros Hm Hd Hk. unfold round_pos. rewrite Zdigits2_shift by done.
  replace (Zdigits2 m + k - 53) with (Zdigits2 m - 53 + k) by lia.
  rewrite rne_shift by lia.
  destruct (_ =? _); f_equal; lia.
Qed.

(** The result of rounding: a mantissa of 53 bits, and the exponent. *)
Lemma round_pos_bounds m e :
  0 < m -> 53 <= Zdigits2 m ->
  2 ^ 52 <= (round_pos m e).1 < 2 ^ 53
  /\ e + Zdigits2 m - 53 <= (round_pos m e).2 <= e + Zdigits2 m - 52.
Proof.
  intros Hm Hd. unfold round_pos.
  pose proof (Zdigits2_bounds m Hm) as Hb.
  assert (Hr : 2 ^ 52 <= rne m (Zdigits2 m - 53) <= 2 ^ 53).
  { apply rne_bounds; [lia|]. by replace (52 + (Zdigits2 m - 53)) with (Zdigits2 m - 1) by lia;
      replace (53 + (Zdigits2 m - 53)) with (Zdigits2 m) by lia. }
  destruct (Z.eqb_spec (rne m (Zdigits2 m - 53)) (2 ^ 53)); cbn [fst snd]; lia.
Qed.

(** Rounding is monotone: at one exponent, and at two. *)
Lemma round_pos_mono_mantissa m1 m2 e :
  0 < m1 -> 53 <= Zdigits2 m1 -> m1 <= m2 ->
  lex_le (round_pos m1 e) (round_pos m2 e).
Proof.
  intros Hm Hd Hle. pose proof (Zdigits2_mono m1 m2 Hm Hle) as Hdd.
  pose proof (Zdigits2_bounds m1 Hm) as Hb1.
  pose proof (Zdigits2_bounds m2 ltac:(lia)) as Hb2.
  unfold round_pos, lex_le.
  set (d1 := Zdigits2 m1) in *. set (d2 := Zdigits2 m2) in *.
  assert (Hr1 : 2 ^ 52 <= rne m1 (d1 - 53) <= 2 ^ 53).
  { apply rne_bounds; [lia|]. by replace (52 + (d1 - 53)) with (d1 - 1) by lia;
      replace (53 + (d1 - 53)) with d1 by lia. }
  assert (Hr2 : 2 ^ 52 <= rne m2 (d2 - 53) <= 2 ^ 53).
  { apply rne_bounds; [lia|]. by replace (52 + (d2 - 53)) with (d2 - 1) by lia;
      replace (53 + (d2 - 53)) with d2 by lia. }
  destruct (Z.eq_dec d1 d2) as [Hdeq|Hdne].
  - rewrite <- Hdeq in *. pose proof (rne_mono m1 m2 (d1 - 53) Hle) as Hmono.
    destruct (Z.eqb_spec (rne m1 (d1 - 53)) (2 ^ 53)),
      (Z.eqb_spec (rne m2 (d1 - 53)) (2 ^ 53)); cbn [fst snd]; lia.
  - destruct (Z.eqb_spec (rne m1 (d1 - 53)) (2 ^ 53)),
      (Z.eqb_spec (rne m2 (d2 - 53)) (2 ^ 53)); cbn [fst snd]; lia.
Qed.

Lemma round_pos_mono m1 e1 m2 e2 :
  0 < m1 -> 0 < m2 -> 53 <= Zdigits2 m1 -> 53 <= Zdigits2 m2 ->
  (e1 <= e2 /\ m1 <= m2 * 2 ^ (e2 - e1)
   \/ e2 <= e1 /\ m1 * 2 ^ (e1 - e2) <= m2) ->
  lex_le (round_pos m1 e1) (round_pos m2 e2).
Proof.
  intros H1 H2 Hd1 Hd2 [[He Hle]|[He Hle]].
  - rewrite <- (round_pos_shift m2 e2 (e2 - e1)) by lia.
    replace (e2 - (e2 - e1)) with e1 by lia.
    by apply round_pos_mono_mantissa.
  - rewrite <- (round_pos_shift m1 e1 (e1 - e2)) by lia.
    replace (e1 - (e1 - e2)) with e2 by lia.
    assert (0 < 2 ^ (e1 - e2)) by (apply Z.pow_pos_nonneg; lia).
    apply round_pos_mono_mantissa; [by apply Z.mul_pos_pos| |done].
    rewrite Zdigits2_shift by lia. lia.
Qed.

(** [to_int64] is the floor of the value. *)
Lemma to_int64_floor p e k :
  0 <= k -> 0 <= e + k ->
  Double.to_int64 (S754_finite false p e) = (Zpos p * 2 ^ (e + k)) / 2 ^ k.
Proof.
  intros Hk Hek. assert (0 < 2 ^ k) by (apply Z.pow_pos_nonneg; lia).
  unfold Double.to_int64. destruct e as [|e|e].
  - by rewrite Z.add_0_l, Z.div_mul by lia.
  - by rewrite Z.pow_add_r, Z.mul_assoc, Z.div_mul by lia.
  - change (- Zneg e) with (Zpos e).
    assert (0 < 2 ^ (Zneg e + k)) by (apply Z.pow_pos_nonneg; lia).
    assert (0 < 2 ^ Zpos e) by (apply Z.pow_pos_nonneg; lia).
    replace (2 ^ k) with (2 ^ Zpos e * 2 ^ (Zneg e + k))
      by (rewrite <- Z.pow_add_r by lia; f_equal; lia).
    by rewrite Z.div_mul_cancel_r by lia.
Qed.

(** [to_int64] is monotone on the positive numbers of 53 bits. *)
Lemma to_int64_mono p1 e1 p2 e2 :
  2 ^ 52 <= Zpos p1 < 2 ^ 53 -> 2 ^ 52 <= Zpos p2 < 2 ^ 53 ->
  lex_le (Zpos p1, e1) (Zpos p2, e2) ->
  Double.to_int64 (S754_finite false p1 e1)
  <= Double.to_int64 (S754_finite false p2 e2).
Proof.
  intros B1 B2 Hle. unfold lex_le in Hle. cbn [fst snd] in Hle.
  set (k := Z.max 0 (Z.max (- e1) (- e2))).
  rewrite (to_int64_floor p1 e1 k), (to_int64_floor p2 e2 k) by lia.
  assert (0 < 2 ^ k) by (apply Z.pow_pos_nonneg; lia).
  apply Z.div_le_mono; [lia|].
  assert (0 < 2 ^ (e1 + k)) by (apply Z.pow_pos_nonneg; lia).
  destruct Hle as [Hlt|[-> Hle]]; [|nia].
  replace (e2 + k) with (e1 + k + (e2 - e1)) by lia.
  rewrite (Z.pow_add_r 2 (e1 + k) (e2 - e1)) by lia.
  assert (2 ^ 1 <= 2 ^ (e2 - e1)) by (apply Z.pow_le_mono_r; lia).
  change (2 ^ 53) with (2 * 2 ^ 52) in *. change (2 ^ 1) with 2 in *.
  set (A := 2 ^ (e1 + k)) in *. set (B := 2 ^ (e2 - e1)) in *.
  set (c := 2 ^ 52) in *.
  assert (Zpos p1 * A <= 2 * c * A) by nia.
  assert (2 * c * A <= c * (A * B)) by nia.
  assert (c * (A * B) <= Zpos p2 * (A * B)) by nia.
  lia.
Qed.
End monotone.

Section curve.
Implicit Types (m n e d c w : Z) (p : positive) (s : bool).

(** A rounded negative number is not above a positive one. *)
Lemma SFltb_binary_round_negative p0 e0 p e :
  SFltb (S754_finite false p0 e0) (binary_round Double.prec Double.emax true p e)
  = false.
Proof.
  unfold binary_round, binary_round_aux.
  destruct (shl_align _ _ _) as [mz ez].
  destruct (shr_fexp _ _ _ _ _) as [mrs' e'].
  destruct (shr_fexp _ _ _ _ _) as [mrs'' e''].
  destruct (shr_m mrs'') as [|q|q]; [reflexivity| |reflexivity].
  by destruct (_ <=? _).
Qed.

(** [0.90 - x] is not above [0.40] when [x] is [0.5] at least. *)
Lemma sub_max_below px ex :
  2 ^ 52 <= Zpos px -> -53 <= ex <= 900 ->
  SFltb DEFAULT_MIN_PRICE
    (Double.sub DEFAULT_MAX_PRICE (S754_finite false px ex)) = false.
Proof.
  intros Hpx Hex. unfold Double.sub, DEFAULT_MAX_PRICE. cbn [SFsub].
  rewrite Z.min_l by lia.
  change (shl_align 8106479329266893 (-53) (-53)) with (8106479329266893%positive, -53).
  cbn [fst cond_Zopp].
  assert (HX : 2 ^ 52 <= Zpos (shl_align px ex (-53)).1).
  { unfold shl_align. destruct (-53 - ex) as [|k|k] eqn:Hk; cbn [fst]; [done|done|].
    rewrite iter_xO. assert (0 < 2 ^ Zpos k) by (apply Z.pow_pos_nonneg; lia). nia. }
  set (X := Zpos (shl_align px ex (-53)).1) in *.
  destruct (8106479329266893 - X) as [|pD|pD] eqn:HD; cbn [binary_normalize].
  - reflexivity.
  - assert (HpD : Zpos pD <= 3602879701896397) by (change (2 ^ 52) with 4503599627370496 in HX; lia).
    pose proof (digits2_pos_bounds pD) as Hb.
    assert (Hd : Zpos (digits2_pos pD) <= 52).
    { destruct (Z.le_gt_cases (Zpos (digits2_pos pD)) 52); [done|].
      assert (2 ^ 52 <= 2 ^ (Zpos (digits2_pos pD) - 1)) by (apply Z.pow_le_mono_r; lia).
      change (2 ^ 52) with 4503599627370496 in *. lia. }
    pose proof (Pos2Z.is_pos (digits2_pos pD)).
    rewrite binary_round_exact by lia.
    set (d := Zpos (digits2_pos pD)) in *.
    unfold SFltb, DEFAULT_MIN_PRICE. cbn [SFcompare].
    destruct (Z.compare_spec (-54) (-53 - (53 - d))) as [He|He|He]; [|lia|done].
    assert (d = 52) as Hd52 by lia. rewrite Hd52.
    change (2 ^ (53 - 52)) with 2.
    rewrite Pos.compare_cont_spec. cbn [Pos.switch_Eq].
    destruct (Pos.compare_spec 7205759403792794 (Z.to_pos (Zpos pD * 2))) as [Hc|Hc|Hc];
      [done| |done].
    apply Pos2Z.pos_lt_pos in Hc. rewrite Z2Pos.id in Hc by lia. lia.
  - apply SFltb_binary_round_negative.
Qed.

(** From wear 257 on, the factor is the floor. *)
Lemma CostFunction_wear_floor w :
  257 <= w <= Int.INT_MAX -> CostFunction_wear w = DEFAULT_MIN_PRICE.
Proof.
  intros Hw. unfold Int.INT_MAX in Hw.
  unfold CostFunction_wear, CostFunction_curve.
  destruct (Z.eqb_spec w 0); [lia|].
  rewrite sub_small by (unfold Int.in_int, Int.INT_MIN, Int.INT_MAX; lia).
  destruct (w - 1) as [|p|p] eqn:Hp; [lia| |lia].
  pose proof (digits2_pos_bounds p) as Hb.
  set (d := Zpos (digits2_pos p)) in *.
  assert (Hd : 9 <= d <= 31).
  { split.
    - destruct (Z.le_gt_cases 9 d); [done|].
      assert (2 ^ d <= 2 ^ 8) by (apply Z.pow_le_mono_r; lia).
      change (2 ^ 8) with 256 in *. lia.
    - destruct (Z.le_gt_cases d 31); [done|].
      assert (2 ^ 31 <= 2 ^ (d - 1)) by (apply Z.pow_le_mono_r; lia). lia. }
  rewrite of_int_pos by (fold d; lia). fold d.
  set (pn := Z.to_pos (Zpos p * 2 ^ (53 - d))).
  assert (Hdn : Zpos (digits2_pos pn) = 53).
  { unfold pn. rewrite digits2_pos_shift by lia. fold d. lia. }
  unfold Double.mul, DEFAULT_DEPRECIATION_RATE. cbn [SFmul xorb].
  pose proof (digits2_pos_mul 4611686018427388 pn eq_refl Hdn) as Hdm.
  rewrite binary_round_aux_normal by lia.
  pose proof (round_pos_bounds (Zpos (4611686018427388 * pn)) (-61 + (d - 53))
                ltac:(lia) ltac:(cbn [Zdigits2]; lia)) as [Hm He].
  cbn [Zdigits2] in He.
  unfold Double.max. rewrite sub_max_below; [done| |lia].
  rewrite Z2Pos.id by lia. lia.
Qed.

Lemma wear_table : wear_table_ok = true.
Proof. by vm_compute. Qed.
End curve.

Section factors.
Implicit Types (m n e d c w : Z) (p : positive) (s : bool) (x y z : spec_float).

Lemma canonicalb_spec x :
  canonicalb x = true ->
  exists p e, x = S754_finite false p e
    /\ Zpos (digits2_pos p) = 53 /\ -60 <= e <= -52.
Proof.
  destruct x as [| | |[|] p e]; try done. cbn [canonicalb].
  rewrite !andb_true_iff, Z.eqb_eq, !Z.leb_le. intros [[? ?] ?].
  exists p, e. split; [done|]. split; [done|lia].
Qed.

Lemma fleb_spec p1 e1 p2 e2 :
  fleb (S754_finite false p1 e1) (S754_finite false p2 e2) = true
  <-> lex_le (Zpos p1, e1) (Zpos p2, e2).
Proof.
  unfold lex_le. cbn [fleb fst snd].
  rewrite orb_true_iff, andb_true_iff, Z.ltb_lt, Z.eqb_eq, Z.leb_le. tauto.
Qed.

Lemma fleb_refl x : canonicalb x = true -> fleb x x = true.
Proof.
  intros (p & e & -> & _)%canonicalb_spec. apply fleb_spec. right. cbn. lia.
Qed.

Lemma fleb_trans x y z : fleb x y = true -> fleb y z = true -> fleb x z = true.
Proof.
  destruct x as [| | |[|] p1 e1]; try done.
  destruct y as [| | |[|] p2 e2]; try done.
  destruct z as [| | |[|] p3 e3]; try done.
  rewrite !fleb_spec. unfold lex_le. cbn [fst snd]. lia.
Qed.

(** The factors of the wear levels of the table. *)
Lemma CostFunction_wear_table w :
  0 <= w <= 256 ->
  canonicalb (CostFunction_wear w) = true
  /\ fleb (CostFunction_wear (w + 1)) (CostFunction_wear w) = true.
Proof.
  intros Hw. pose proof wear_table as Ht. unfold wear_table_ok in Ht.
  rewrite forallb_forall in Ht. specialize (Ht (Z.to_nat w)).
  cbv zeta in Ht. rewrite Z2Nat.id in Ht by lia.
  apply andb_true_iff, Ht, in_seq. lia.
Qed.

Lemma CostFunction_wear_canonical w :
  0 <= w <= Int.INT_MAX -> canonicalb (CostFunction_wear w) = true.
Proof.
  intros Hw. destruct (Z.le_gt_cases w 256).
  - apply CostFunction_wear_table. lia.
  - by rewrite CostFunction_wear_floor by lia.
Qed.

(** The factor does not increase with the wear level. *)
Lemma CostFunction_wear_antitone w1 w2 :
  0 <= w1 <= w2 -> w2 <= Int.INT_MAX ->
  fleb (CostFunction_wear w2) (CostFunction_wear w1) = true.
Proof.
  intros Hw Hmax.
  assert (Hmaxv : 257 <= Int.INT_MAX) by (unfold Int.INT_MAX; lia).
  assert (Hsmall : forall (k : nat) w, 0 <= w -> w + Z.of_nat k <= 257 ->
            fleb (CostFunction_wear (w + Z.of_nat k)) (CostFunction_wear w) = true).
  { induction k as [|k IH]; intros w H0 Hk.
    - rewrite Z.add_0_r. apply fleb_refl, CostFunction_wear_canonical. lia.
    - apply (fleb_trans _ (CostFunction_wear (w + Z.of_nat k))); [|apply IH; lia].
      replace (w + Z.of_nat (S k)) with (w + Z.of_nat k + 1) by lia.
      apply CostFunction_wear_table. lia. }
  destruct (Z.le_gt_cases w2 257) as [H2|H2].
  - replace w2 with (w1 + Z.of_nat (Z.to_nat (w2 - w1))) by lia.
    apply Hsmall; lia.
  - rewrite (CostFunction_wear_floor w2) by lia.
    rewrite <- (CostFunction_wear_floor 257) by lia.
    destruct (Z.le_gt_cases w1 257) as [H1|H1].
    + replace 257 with (w1 + Z.of_nat (Z.to_nat (257 - w1))) at 1 by lia.
      apply Hsmall; lia.
    + rewrite (CostFunction_wear_floor w1), (CostFunction_wear_floor 257) by lia.
      reflexivity.
Qed.

(** The product of a base cost of 53 bits at most and a factor. *)
Lemma mul_cost_factor pc pa ea :
  Zpos pc < 2 ^ 53 -> Zpos (digits2_pos pa) = 53 -> -60 <= ea <= -52 ->
  exists pr er,
    Double.mul (Double.of_int (Zpos pc)) (S754_finite false pa ea)
    = S754_finite false pr er
    /\ 2 ^ 52 <= Zpos pr < 2 ^ 53
    /\ 53 <= Zdigits2 (Zpos pc * 2 ^ (53 - Zpos (digits2_pos pc)) * Zpos pa)
    /\ (Zpos pr, er)
       = round_pos (Zpos pc * 2 ^ (53 - Zpos (digits2_pos pc)) * Zpos pa)
           (ea - (53 - Zpos (digits2_pos pc))).
Proof.
  intros Hc Hda Hea.
  pose proof (digits2_pos_bounds pc) as Hb. pose proof (Pos2Z.is_pos (digits2_pos pc)).
  set (d := Zpos (digits2_pos pc)) in *.
  assert (Hd : d <= 53).
  { destruct (Z.le_gt_cases d 53); [done|].
    assert (2 ^ 53 <= 2 ^ (d - 1)) by (apply Z.pow_le_mono_r; lia). lia. }
  rewrite of_int_pos by (fold d; lia). fold d.
  set (pn := Z.to_pos (Zpos pc * 2 ^ (53 - d))).
  assert (0 < 2 ^ (53 - d)) by (apply Z.pow_pos_nonneg; lia).
  assert (Hpn : Zpos pn = Zpos pc * 2 ^ (53 - d)) by (unfold pn; rewrite Z2Pos.id; lia).
  assert (Hdn : Zpos (digits2_pos pn) = 53).
  { unfold pn. rewrite digits2_pos_shift by lia. fold d. lia. }
  unfold Double.mul. cbn [SFmul xorb].
  pose proof (digits2_pos_mul pn pa Hdn Hda) as Hdm.
  rewrite binary_round_aux_normal; [|lia..].
  pose proof (round_pos_bounds (Zpos (pn * pa)) (d - 53 + ea)
                (Pos2Z.is_pos _) ltac:(cbn [Zdigits2]; lia)) as [Hm He].
  eexists _, _. split; [reflexivity|]. rewrite Z2Pos.id by lia. split; [done|].
  rewrite <- Hpn, <- Pos2Z.inj_mul. split; [cbn [Zdigits2]; lia|].
  rewrite <- surjective_pairing. f_equal. lia.
Qed.

(** The cost does not increase with the factor. *)
Lemma cost_factor_mono c x y :
  0 <= c < 2 ^ 53 -> canonicalb x = true -> canonicalb y = true ->
  fleb x y = true ->
  Double.to_int64 (Double.mul (Double.of_int c) x)
  <= Double.to_int64 (Double.mul (Double.of_int c) y).
Proof.
  intros Hc (px & ex & -> & Hdx & Hex)%canonicalb_spec
    (py & ey & -> & Hdy & Hey)%canonicalb_spec Hle%fleb_spec.
  destruct c as [|pc|pc]; [done| |lia].
  destruct (mul_cost_factor pc px ex) as (pr1 & er1 & -> & B1 & D1 & R1); [lia|done|done|].
  destruct (mul_cost_factor pc py ey) as (pr2 & er2 & -> & B2 & D2 & R2); [lia|done|done|].
  apply to_int64_mono; [done|done|]. rewrite R1, R2.
  set (k := 53 - Zpos (digits2_pos pc)) in *.
  pose proof (digits2_pos_bounds pc). pose proof (Pos2Z.is_pos (digits2_pos pc)).
  assert (0 <= k).
  { unfold k. destruct (Z.le_gt_cases (Zpos (digits2_pos pc)) 53); [lia|].
    assert (2 ^ 53 <= 2 ^ (Zpos (digits2_pos pc) - 1)) by (apply Z.pow_le_mono_r; lia).
    lia. }
  assert (0 < 2 ^ k) by (apply Z.pow_pos_nonneg; lia).
  set (C := Zpos pc * 2 ^ k) in *. assert (0 < C) by (unfold C; nia).
  pose proof (digits2_pos_bounds px) as Bx. rewrite Hdx in Bx.
  pose proof (digits2_pos_bounds py) as By. rewrite Hdy in By.
  apply round_pos_mono; [nia|nia|done|done|]. left.
  unfold lex_le in Hle. cbn [fst snd] in Hle. split; [lia|].
  replace (ey - k - (ex - k)) with (ey - ex) by lia.
  destruct Hle as [Hlt|[-> Hle]].
  - assert (2 ^ 1 <= 2 ^ (ey - ex)) by (apply Z.pow_le_mono_r; lia).
    change (2 ^ 1) with 2 in *. change (2 ^ 53) with (2 * 2 ^ 52) in *.
    set (B := 2 ^ (ey - ex)) in *. set (c52 := 2 ^ 52) in *.
    assert (Zpos px <= Zpos py * B) by nia.
    rewrite <- Z.mul_assoc. apply Z.mul_le_mono_nonneg_l; lia.
  - rewrite Z.sub_diag, Z.mul_1_r. apply Z.mul_le_mono_nonneg_l; lia.
Qed.
End factors.

(** ** Facts about the queries *)

Section wear_range.
Implicit Types (this : OutfitGroup) (led : InnerMap) (outfit : N).

Lemma GetMinWear_lookup this outfit led :
  this !! outfit = Some led -> led <> ∅ ->
  is_Some (led !! GetMinWear this outfit)
  /\ forall w, is_Some (led !! w) -> GetMinWear this outfit <= w.
Proof.
  intros Hl Hne. unfold GetMinWear, Find. rewrite Hl.
  pose proof (keys_asc_strict led) as Hs.
  pose proof (elem_of_keys_asc led) as He.
  destruct (keys_asc led) as [|w0 ws] eqn:Hk.
  - by apply keys_asc_nil in Hk.
  - split; [apply He; left|]. intros w Hw. apply He in Hw.
    apply StronglySorted_inv in Hs as [_ Hall].
    apply elem_of_cons in Hw as [->|Hw]; [lia|].
    rewrite Forall_forall in Hall. specialize (Hall _ Hw). lia.
Qed.

Lemma GetMaxWear_lookup this outfit led :
  this !! outfit = Some led -> led <> ∅ ->
  is_Some (led !! GetMaxWear this outfit)
  /\ forall w, is_Some (led !! w) -> w <= GetMaxWear this outfit.
Proof.
  intros Hl Hne. unfold GetMaxWear, Find. rewrite Hl.
  pose proof (keys_desc_strict led) as Hs.
  pose proof (elem_of_keys_desc led) as He.
  destruct (keys_desc led) as [|w0 ws] eqn:Hk.
  - unfold keys_desc in Hk. apply (f_equal reverse) in Hk.
    rewrite reverse_involutive in Hk. by apply keys_asc_nil in Hk.
  - split; [apply He; left|]. intros w Hw. apply He in Hw.
    apply StronglySorted_inv in Hs as [_ Hall].
    apply elem_of_cons in Hw as [->|Hw]; [lia|].
    rewrite Forall_forall in Hall. specialize (Hall _ Hw). unfold flip in Hall. lia.
Qed.

(** The least and the greatest key are determined by these properties. *)
Lemma GetMinWear_unique this outfit led m :
  this !! outfit = Some led -> is_Some (led !! m) ->
  (forall w, is_Some (led !! w) -> m <= w) ->
  GetMinWear this outfit = m.
Proof.
  intros Hl Hm Hle.
  assert (Hne : led <> ∅) by (intros ->; rewrite lookup_empty in Hm; by destruct Hm).
  destruct (GetMinWear_lookup _ _ _ Hl Hne) as [H1 H2].
  specialize (H2 _ Hm). specialize (Hle _ H1). lia.
Qed.

Lemma GetMaxWear_unique this outfit led m :
  this !! outfit = Some led -> is_Some (led !! m) ->
  (forall w, is_Some (led !! w) -> w <= m) ->
  GetMaxWear this outfit = m.
Proof.
  intros Hl Hm Hle.
  assert (Hne : led <> ∅) by (intros ->; rewrite lookup_empty in Hm; by destruct Hm).
  destruct (GetMaxWear_lookup _ _ _ Hl Hne) as [H1 H2].
  specialize (H2 _ Hm). specialize (Hle _ H1). lia.
Qed.

End wear_range.

Section counting.
Implicit Types (this : OutfitGroup) (led : InnerMap) (outfit : N).

Lemma ledger_total_insert_Some led w q v :
  led !! w = Some q -> ledger_total (<[w := v]> led) = ledger_total led - q + v.
Proof.
  intros Hw. rewrite (ledger_total_delete led w q Hw).
  rewrite <- (insert_delete_eq led), ledger_total_insert by apply lookup_delete_eq.
  lia.
Qed.

Lemma total_quantity_AddOutfit this outfit count wear :
  total_quantity (AddOutfit this outfit count wear).1 outfit
  = ledger_total (added_ledger this outfit count wear).
Proof.
  unfold total_quantity. rewrite AddOutfit_lookup, decide_True by done.
  case_decide as He; [by rewrite He, ledger_total_empty|done].
Qed.

Lemma wrap_eq_mod x y k : x = y + k * 2 ^ 32 -> Int.wrap x = Int.wrap y.
Proof.
  intros ->. unfold Int.wrap.
  replace (y + k * 2 ^ 32 + 2 ^ 31) with (y + 2 ^ 31 + k * 2 ^ 32) by lia.
  by rewrite Z.mod_add by lia.
Qed.

Lemma wrap_spec x : exists k, Int.wrap x = x + k * 2 ^ 32.
Proof.
  exists (- ((x + 2 ^ 31) / 2 ^ 32)). unfold Int.wrap.
  pose proof (Z.div_mod (x + 2 ^ 31) (2 ^ 32) ltac:(lia)). lia.
Qed.

Lemma ledger_total_added_ledger this outfit count wear :
  Int.wrap (ledger_total (added_ledger this outfit count wear))
  = Int.wrap (total_quantity this outfit + count).
Proof.
  unfold added_ledger, total_quantity.
  destruct (this !! outfit) as [led|].
  - destruct (led !! wear) as [q|] eqn:Hw.
    + unfold add_to_bucket. rewrite at_wear_insert, decide_True by done.
      rewrite (at_wear_Some _ _ _ Hw).
      destruct (wrap_spec (q + count)) as [k Hk]. fold (Int.add q count) in Hk.
      destruct (Z.eqb_spec (Int.add q count) 0) as [H0|H0].
      * rewrite delete_insert_eq.
        apply (wrap_eq_mod _ _ k).
        rewrite (ledger_total_delete led wear q Hw). lia.
      * rewrite (ledger_total_insert_Some _ _ q) by done.
        apply (wrap_eq_mod _ _ k). lia.
    + rewrite ledger_total_insert by done. f_equal. lia.
  - rewrite ledger_total_insert, ledger_total_empty by apply lookup_empty. f_equal. lia.
Qed.

End counting.

Section undo.
Implicit Types (this : OutfitGroup) (led : InnerMap) (outfit : N).

Lemma add_neg_cancel q c : Int.in_int q -> Int.add (Int.add q c) (Int.neg c) = q.
Proof.
  intros Hq. unfold Int.add, Int.neg. rewrite wrap_wrap_add, wrap_add_wrap.
  replace (q + c + - c) with q by lia. by apply wrap_small.
Qed.

Lemma add_neg_diag c : Int.add c (Int.neg c) = 0.
Proof.
  unfold Int.add, Int.neg. rewrite wrap_add_wrap.
  replace (c + - c) with 0 by lia. done.
Qed.

Lemma add_zero_neg q c : Int.in_int q -> Int.add q c = 0 -> Int.neg c = q.
Proof.
  intros Hq H0. rewrite <- (add_neg_cancel q c Hq), H0.
  unfold Int.add, Int.neg. rewrite wrap_add_wrap. f_equal.
Qed.

Lemma ledger_of_AddOutfit this outfit count wear :
  ledger_of (AddOutfit this outfit count wear).1 outfit
  = added_ledger this outfit count wear.
Proof.
  unfold ledger_of. rewrite AddOutfit_lookup, decide_True by done.
  by case_decide.
Qed.

Lemma AddOutfit_undo this outfit count wear :
  well_formed this -> 
  (AddOutfit (AddOutfit this outfit count wear).1 outfit (Int.neg count) wear).1
  = this.
Proof.
  intros [Ht Hn].
  set (g1 := (AddOutfit this outfit count wear).1).
  assert (HL : added_ledger g1 outfit (Int.neg count) wear = ledger_of this outfit).
  { apply map_eq. intros w. rewrite added_ledger_lookup. unfold g1.
    rewrite ledger_of_AddOutfit, !added_ledger_lookup.
    destruct (decide (wear = w)) as [<-|Hw]; [|done].
    rewrite decide_True by done.
    destruct (ledger_of this outfit !! wear) as [q|] eqn:Hq.
    - assert (Hqi : Int.in_int q /\ q <> 0).
      { revert Hq. unfold ledger_of. destruct (this !! outfit) as [led|] eqn:Hl;
          [|by rewrite lookup_empty].
        intros Hq. split; [by eapply (Ht _ _ Hl)|].
        destruct (Hn _ _ Hl) as [_ Hp]. specialize (Hp _ _ Hq). cbn in Hp. lia. }
      destruct Hqi as [Hqi Hq0].
      destruct (Z.eqb_spec (Int.add q count) 0) as [H0|H0].
      + by rewrite (add_zero_neg q count).
      + rewrite add_neg_cancel by done.
        by destruct (Z.eqb_spec q 0).
    - by rewrite add_neg_diag. }
  apply map_eq. intros o. rewrite AddOutfit_lookup, HL.
  case_decide as Ho.
  - subst o. unfold ledger_of.
    destruct (this !! outfit) as [led|] eqn:Hl.
    + destruct (Hn _ _ Hl) as [Hne _]. by rewrite decide_False.
    + by rewrite decide_True.
  - unfold g1. by rewrite AddOutfit_lookup, decide_False.
Qed.

End undo.

Section conservation.
Implicit Types (this to : OutfitGroup) (led : InnerMap) (outfit : N).

Lemma Zsum_fmap_add (f g : Z -> Z) ws :
  Zsum ((fun w => f w + g w) <$> ws) = Zsum (f <$> ws) + Zsum (g <$> ws).
Proof.
  induction ws as [|w ws IH]; [done|]. rewrite !fmap_cons, !Zsum_cons, IH. lia.
Qed.

(** A sum over a list is a sum over a shorter list outside of which the
    function is zero. *)
Lemma Zsum_support (f : Z -> Z) ws us :
  NoDup ws -> NoDup us -> (forall w, w ∈ ws -> w ∈ us) ->
  (forall w, w ∉ ws -> f w = 0) ->
  Zsum (f <$> us) = Zsum (f <$> ws).
Proof.
  intros Hws Hus Hsub Hf.
  assert (ws ⊆+ us) as [k Hk]%submseteq_Permutation by (by apply NoDup_submseteq).
  rewrite (Zsum_perm _ _ (fmap_Permutation f _ _ Hk)), fmap_app, Zsum_app.
  rewrite (Zsum_zero f k); [lia|].
  intros w Hw. apply Hf. intros Hw'.
  rewrite Hk in Hus. apply NoDup_app in Hus as (_ & Hdis & _). by apply (Hdis w).
Qed.

Lemma total_quantity_cover this outfit ws :
  NoDup ws -> (forall w, quantity this outfit w <> 0 -> w ∈ ws) ->
  no_empty_buckets this ->
  total_quantity this outfit = Zsum (quantity this outfit <$> ws).
Proof.
  intros Hnd Hc Hn. unfold total_quantity.
  destruct (this !! outfit) as [led|] eqn:Hl.
  - rewrite (ledger_total_cover led ws Hnd).
    + apply (f_equal Zsum), Forall_fmap_ext_1, Forall_forall. intros w _.
      by rewrite (quantity_lookup _ _ _ _ Hl).
    + intros w [q Hq]. apply Hc. rewrite (quantity_lookup _ _ _ _ Hl).
      rewrite (at_wear_Some _ _ _ Hq). destruct (Hn _ _ Hl) as [_ Hp].
      specialize (Hp _ _ Hq). cbn in Hp. lia.
  - symmetry. apply Zsum_zero. intros w _. by apply quantity_absent.
Qed.

(** Two groups whose quantities of an outfit differ by [f], a function
    that is zero outside of [ws], differ in total by the sum of [f]. *)
Lemma total_quantity_shift (g1 g2 : OutfitGroup) outfit (f : Z -> Z) ws :
  no_empty_buckets g1 -> no_empty_buckets g2 -> NoDup ws ->
  (forall w, w ∉ ws -> f w = 0) ->
  (forall w, quantity g1 outfit w = quantity g2 outfit w + f w) ->
  total_quantity g1 outfit = total_quantity g2 outfit + Zsum (f <$> ws).
Proof.
  intros H1 H2 Hnd Hf Hq.
  set (D := dom (ledger_of g1 outfit) ∪ dom (ledger_of g2 outfit)
            ∪ list_to_set ws : gset Z).
  assert (HD : NoDup (elements D)) by apply NoDup_elements.
  assert (Hdom : forall g : OutfitGroup, forall w, quantity g outfit w <> 0 ->
            w ∈ dom (ledger_of g outfit)).
  { intros g w. unfold quantity, ledger_of, at_wear.
    destruct (g !! outfit) as [led|]; [|done]. intros Hw. apply elem_of_dom.
    by destruct (led !! w). }
  rewrite (total_quantity_cover g1 outfit (elements D)), (total_quantity_cover g2 outfit (elements D));
    [|done| |done|done| |done].
  - rewrite <- (Zsum_support f ws (elements D)); [|done|done| |done].
    + rewrite <- Zsum_fmap_add. apply (f_equal Zsum), Forall_fmap_ext_1, Forall_forall.
      intros w _. apply Hq.
    + intros w Hw. apply elem_of_elements. unfold D. set_solver.
  - intros w Hw%Hdom. apply elem_of_elements. unfold D. set_solver.
  - intros w Hw%Hdom. apply elem_of_elements. unfold D. set_solver.
Qed.

End conservation.

Section transfer.
Implicit Types (this to : OutfitGroup) (led : InnerMap) (outfit : N).

Lemma transferred_sym this to this' to' outfit r :
  transferred this to this' to' outfit r ->
  transferred to this to' this' outfit (- r).
Proof.
  intros (H1 & H2 & H3 & H4 & H5 & H6). unfold transferred.
  split; [done|]. split; [done|]. split; [|split; [|split]].
  - intros o w. specialize (H3 o w). lia.
  - intros o w Ho. by destruct (H4 o w Ho).
  - lia.
  - lia.
Qed.

Lemma transferred_nothing this to outfit :
  well_formed this -> well_formed to -> transferred this to this to outfit 0.
Proof.
  intros H1 H2. unfold transferred. split; [done|]. split; [done|].
  split; [done|]. split; [done|]. split; lia.
Qed.

Lemma RemoveOutfit_transferred this to outfit count (mostWornFirst : bool) :
  well_formed this -> well_formed to -> Int.in_int count -> 0 < count ->
  total_quantity this outfit + total_quantity to outfit <= Int.INT_MAX ->
  exists r this' to',
    RemoveOutfit this outfit count mostWornFirst (Some to) = (r, this', Some to')
    /\ r = Z.min count (total_quantity this outfit)
    /\ transferred this to this' to' outfit r.
Proof.
  intros Hwf Hwt Hc Hpos Hfit.
  destruct (this !! outfit) as [led|] eqn:Hl.
  - destruct (RemoveOutfit_quantities this outfit count mostWornFirst to led)
      as (this' & to' & E & Hw1 & Hw2 & Ht & Hq1 & Hq2); [done..| |].
    { intros w. pose proof (quantity_le_total this outfit w Hwf) as H1.
      pose proof (quantity_le_total to outfit w Hwt) as H2.
      rewrite (quantity_lookup _ _ _ _ Hl) in H1. lia. }
    set (ws := if mostWornFirst then keys_desc led else keys_asc led) in *.
    set (t := taken (at_wear led) count ws) in *.
    assert (Hnd : NoDup ws).
    { unfold ws. destruct mostWornFirst; [apply NoDup_keys_desc|apply NoDup_keys_asc]. }
    assert (Hin : forall w, w ∈ ws <-> is_Some (led !! w)).
    { intros w. unfold ws.
      destruct mostWornFirst; [apply elem_of_keys_desc|apply elem_of_keys_asc]. }
    assert (Hperm : ws ≡ₚ keys_asc led).
    { unfold ws. destruct mostWornFirst; [apply reverse_Permutation|done]. }
    assert (Hout : forall w, w ∉ ws -> t w = 0).
    { intros w Hw. by apply taken_not_elem. }
    assert (Hposl : forall w, w ∈ ws -> 0 < at_wear led w).
    { intros w [q Hq]%Hin. rewrite (at_wear_Some _ _ _ Hq).
      destruct Hwf as [_ Hn]. destruct (Hn _ _ Hl) as [_ Hp].
      by specialize (Hp _ _ Hq). }
    assert (Hsum : Zsum (t <$> ws) = Z.min count (total_quantity this outfit)).
    { unfold t. rewrite taken_sum by (done || lia).
      unfold total_quantity. by rewrite Hl, (ledger_total_keys led ws Hperm). }
    exists (Zsum (t <$> ws)), this', to'. split; [done|]. split; [done|].
    split; [done|]. split; [done|]. split; [|split; [|split]].
    + intros o w. rewrite Hq1, Hq2. case_decide as Ho; [subst o|done].
      rewrite (quantity_lookup _ _ _ _ Hl). lia.
    + intros o w Ho. rewrite Hq1, Hq2. by rewrite !decide_False by done.
    + rewrite (total_quantity_shift this this' outfit t ws);
        [lia|apply Hwf|apply Hw1|done|done|].
      intros w. rewrite Hq1, decide_True by done.
      rewrite (quantity_lookup _ _ _ _ Hl). lia.
    + apply (total_quantity_shift to' to outfit t ws);
        [apply Hw2|apply Hwt|done|done|].
      intros w. by rewrite Hq2, decide_True.
  - exists 0, this, to. rewrite RemoveOutfit_absent by done.
    assert (H0 : total_quantity this outfit = 0) by (unfold total_quantity; by rewrite Hl).
    pose proof (well_formed_total_nonneg this outfit Hwf).
    split; [done|]. split; [lia|]. by apply transferred_nothing.
Qed.

End transfer.

Section ageing_twice.
Implicit Types (this : OutfitGroup) (led : InnerMap).

Lemma add_assoc x a b : Int.add (Int.add x b) a = Int.add x (Int.add b a).
Proof.
  unfold Int.add. rewrite wrap_wrap_add, wrap_add_wrap. f_equal. lia.
Qed.

Lemma shift_ledger_lookup_Some value led k q :
  ledger_typed led ->
  shift_ledger value led !! k = Some q
  <-> exists w, k = Int.add w value /\ led !! w = Some q.
Proof.
  intros Ht. split.
  - by apply shift_ledger_lookup_inv.
  - intros (w & -> & Hw). by apply shift_ledger_lookup.
Qed.

Lemma shift_ledger_compose a b led :
  ledger_typed led ->
  shift_ledger a (shift_ledger b led) = shift_ledger (Int.add b a) led.
Proof.
  intros Ht. apply map_eq. intros k. apply option_eq. intros q.
  rewrite !shift_ledger_lookup_Some by (done || by apply shift_ledger_typed).
  split.
  - intros (w' & -> & Hw').
    apply shift_ledger_lookup_Some in Hw' as (w & -> & Hw); [|done].
    exists w. by rewrite add_assoc.
  - intros (w & -> & Hw). exists (Int.add w b). rewrite add_assoc. split; [done|].
    by apply shift_ledger_lookup.
Qed.

Lemma shift_ledger_zero led : ledger_typed led -> shift_ledger 0 led = led.
Proof.
  intros Ht. apply map_eq. intros k. apply option_eq. intros q.
  rewrite shift_ledger_lookup_Some by done. split.
  - intros (w & -> & Hw). rewrite add_small; [by rewrite Z.add_0_r|].
    rewrite Z.add_0_r. by eapply (Ht _ _ Hw).
  - intros Hk. exists k. split; [|done]. rewrite add_small; [by rewrite Z.add_0_r|].
    rewrite Z.add_0_r. by eapply (Ht _ _ Hk).
Qed.

Lemma IncrementWear_typed value this : typed this -> typed (IncrementWear value this).
Proof.
  intros Ht o led. rewrite IncrementWear_lookup.
  destruct (this !! o) as [l|] eqn:Hl; [|done]. intros [= <-].
  apply shift_ledger_typed. by eapply Ht.
Qed.

Lemma IncrementWear_compose a b this :
  typed this ->
  IncrementWear a (IncrementWear b this) = IncrementWear (Int.add b a) this.
Proof.
  intros Ht. apply map_eq. intros o. rewrite !IncrementWear_lookup.
  destruct (this !! o) as [led|] eqn:Hl; [|done]. cbn.
  f_equal. apply shift_ledger_compose. by eapply Ht.
Qed.

Lemma IncrementWear_zero this : typed this -> IncrementWear 0 this = this.
Proof.
  intros Ht. apply map_eq. intros o. rewrite IncrementWear_lookup.
  destruct (this !! o) as [led|] eqn:Hl; [|done]. cbn.
  f_equal. apply shift_ledger_zero. by eapply Ht.
Qed.

End ageing_twice.

(** ** Facts about 64-bit arithmetic *)

Lemma wrap64_small z : Int64.in_int64 z -> Int64.wrap z = z.
Proof.
  unfold Int64.in_int64, Int64.wrap, Int64.INT64_MIN, Int64.INT64_MAX. intros Hz.
  rewrite Z.mod_small; lia.
Qed.

Lemma wrap64_wrap_add x y : Int64.wrap (Int64.wrap x + y) = Int64.wrap (x + y).
Proof.
  unfold Int64.wrap.
  replace ((x + 2 ^ 63) mod 2 ^ 64 - 2 ^ 63 + y + 2 ^ 63)
    with ((x + 2 ^ 63) mod 2 ^ 64 + y) by lia.
  rewrite Zplus_mod_idemp_l. do 2 f_equal. lia.
Qed.

Lemma wrap64_add_wrap x y : Int64.wrap (x + Int64.wrap y) = Int64.wrap (x + y).
Proof. rewrite (Z.add_comm x), wrap64_wrap_add. f_equal. lia. Qed.

Lemma add64_mul64 acc x y :
  Int64.add (Int64.wrap acc) (Int64.mul x y) = Int64.wrap (acc + x * y).
Proof. unfold Int64.add, Int64.mul. by rewrite wrap64_wrap_add, wrap64_add_wrap. Qed.

(** ** Facts about [GetCost] *)

Section quoting.
Variables (p q : Z -> Z).
Implicit Types (ws : list Z) (need : Z).

Lemma quote_nothing ws : (forall w, w ∈ ws -> 0 < q w) -> quote p q 0 ws = 0.
Proof.
  induction ws as [|w ws IH]; intros Hq; [done|]. cbn [quote].
  assert (0 < q w) by (apply Hq; left).
  rewrite Z.min_r by lia. rewrite Z.sub_0_r, IH; [lia|].
  intros w' Hw'. apply Hq. by right.
Qed.

(** The price is that of the units [taken] from every bucket. *)
Lemma quote_taken need ws :
  NoDup ws -> (forall w, w ∈ ws -> 0 < q w) -> 0 <= need ->
  quote p q need ws = Zsum ((fun w => p w * taken q need ws w) <$> ws).
Proof.
  revert need. induction ws as [|w0 ws IH]; intros need Hnd Hq Hn; [done|].
  apply NoDup_cons in Hnd as [Hw0 Hnd].
  assert (Hq' : forall w, w ∈ ws -> 0 < q w) by (intros w Hw; apply Hq; by right).
  assert (0 < q w0) by (apply Hq; left).
  cbn [quote]. rewrite fmap_cons, Zsum_cons.
  destruct (Z.ltb_spec 0 need) as [Hpos|Hz].
  - rewrite IH by (done || lia). cbn [taken].
    destruct (Z.ltb_spec 0 need) as [_|?]; [|lia].
    rewrite decide_True by done. f_equal.
    apply (f_equal Zsum), Forall_fmap_ext_1, Forall_forall. intros w Hw.
    cbn [taken]. destruct (Z.ltb_spec 0 need) as [_|?]; [|lia].
    rewrite decide_False; [done|]. by intros ->.
  - assert (need = 0) as -> by lia. rewrite Z.min_r by lia.
    rewrite Z.sub_0_r, quote_nothing by done.
    rewrite (taken_no_need q 0 (w0 :: ws) w0) by lia.
    rewrite Zsum_zero; [lia|]. intros w _.
    rewrite (taken_no_need q 0 (w0 :: ws) w) by lia. lia.
Qed.

End quoting.

Section get_cost.
Variable objects : N -> Outfit.
Implicit Types (this : OutfitGroup) (led : InnerMap) (outfit : N).

Lemma GetCost_loop_quote (data : Outfit) led ws count acc :
  (forall w, w ∈ ws -> 0 < at_wear led w) -> Int.in_int count ->
  GetCost_loop data led ws count (Int64.wrap acc)
  = Int64.wrap (acc + quote (CostFunction data) (at_wear led) count ws).
Proof.
  revert count acc. induction ws as [|w ws IH]; intros count acc Hq Hc.
  - cbn. by rewrite Z.add_0_r.
  - assert (Hq' : forall w', w' ∈ ws -> 0 < at_wear led w')
      by (intros w' Hw'; apply Hq; by right).
    assert (0 < at_wear led w) by (apply Hq; left).
    cbn [GetCost_loop quote]. rewrite add64_mul64.
    assert (Hsub : Int.sub count (Z.min (at_wear led w) count)
                   = count - Z.min (at_wear led w) count).
    { apply sub_small. revert Hc. unfold Int.in_int, Int.INT_MIN, Int.INT_MAX. lia. }
    rewrite Hsub.
    destruct (Z.leb_spec (count - Z.min (at_wear led w) count) 0) as [Hle|Hgt].
    + assert (count - Z.min (at_wear led w) count = 0) as -> by lia.
      rewrite quote_nothing by done. f_equal. lia.
    + rewrite IH; [f_equal; lia|done|].
      revert Hc. unfold Int.in_int, Int.INT_MIN, Int.INT_MAX. lia.
Qed.

Lemma GetCost_quote this outfit count (mostWornFirst : bool) led :
  no_empty_buckets this -> this !! outfit = Some led -> Int.in_int count ->
  GetCost objects this outfit count mostWornFirst
  = Int64.wrap (quote (CostFunction (objects outfit)) (at_wear led) count
                  (if mostWornFirst then keys_desc led else keys_asc led)).
Proof.
  intros Hn Hl Hc. unfold GetCost. rewrite Hl.
  change 0 with (Int64.wrap 0) at 1. rewrite GetCost_loop_quote; [done| |done].
  intros w Hw.
  assert (is_Some (led !! w)) as [x Hx].
  { destruct mostWornFirst; [by apply elem_of_keys_desc|by apply elem_of_keys_asc]. }
  rewrite (at_wear_Some _ _ _ Hx). destruct (Hn _ _ Hl) as [_ Hp].
  by specialize (Hp _ _ Hx).
Qed.

End get_cost.

(** ** Facts about the cost of an outfit *)

Section price.
Implicit Types (outfit : Outfit) (w : Z).

Lemma to_int64_nonneg p e : 0 <= Double.to_int64 (S754_finite false p e).
Proof.
  unfold Double.to_int64. destruct e as [|e|e]; [lia| |].
  - pose proof (Z.pow_pos_nonneg 2 (Zpos e)). lia.
  - apply Z.div_pos; [lia|]. apply Z.pow_pos_nonneg; lia.
Qed.

Lemma cost_factor_nonneg c x :
  0 <= c < 2 ^ 53 -> canonicalb x = true ->
  0 <= Double.to_int64 (Double.mul (Double.of_int c) x).
Proof.
  intros Hc (p & e & -> & Hp & He)%canonicalb_spec.
  destruct c as [|pc|pc]; [done| |lia].
  destruct (mul_cost_factor pc p e) as (pr & er & -> & _); [lia|done|done|].
  apply to_int64_nonneg.
Qed.

(** The wear level that [CostFunction] prices: 0 for an ageless outfit and
    for ammunition. *)
Lemma CostFunction_unfold outfit w :
  CostFunction outfit w
  = Double.to_int64
      (Double.mul (Double.of_int (Cost outfit))
         (CostFunction_wear
            (if Double.nonzero (Get outfit "ageless")
                || bool_decide (Category outfit = "Ammunition")
             then 0 else w))).
Proof. done. Qed.

Lemma CostFunction_nonneg outfit w :
  0 <= Cost outfit < 2 ^ 53 -> 0 <= w <= Int.INT_MAX -> 0 <= CostFunction outfit w.
Proof.
  intros Hc Hw. rewrite CostFunction_unfold.
  apply cost_factor_nonneg; [done|]. apply CostFunction_wear_canonical.
  destruct (_ || _); [|done]. unfold Int.INT_MAX. lia.
Qed.

Lemma CostFunction_new outfit :
  - 2 ^ 53 < Cost outfit < 2 ^ 53 -> CostFunction outfit 0 = Cost outfit.
Proof.
  intros Hc. rewrite CostFunction_unfold.
  replace (if _ || _ then 0 else 0) with 0 by (by destruct (_ || _)).
  change (CostFunction_wear 0) with Double.one. by apply to_int64_of_int.
Qed.

Lemma CostFunction_antitone outfit w1 w2 :
  0 <= Cost outfit < 2 ^ 53 -> 0 <= w1 <= w2 -> w2 <= Int.INT_MAX ->
  CostFunction outfit w2 <= CostFunction outfit w1.
Proof.
  intros Hc Hw Hmax. rewrite !CostFunction_unfold.
  destruct (_ || _); [done|].
  apply cost_factor_mono; [done| | |].
  - apply CostFunction_wear_canonical. lia.
  - apply CostFunction_wear_canonical. lia.
  - by apply CostFunction_wear_antitone.
Qed.

Lemma CostFunction_le_Cost outfit w :
  0 <= Cost outfit < 2 ^ 53 -> 0 <= w <= Int.INT_MAX ->
  CostFunction outfit w <= Cost outfit.
Proof.
  intros Hc Hw. pose proof (CostFunction_new outfit ltac:(lia)) as H0.
  pose proof (CostFunction_antitone outfit 0 w Hc ltac:(lia) ltac:(lia)). lia.
Qed.

End price.

Section quote_order.
Variables (p q : Z -> Z).
Implicit Types (ws : list Z) (need : Z).

Lemma Zsum_pos_nonneg ws : (forall w, w ∈ ws -> 0 < q w) -> 0 <= Zsum (q <$> ws).
Proof.
  induction ws as [|w ws IH]; intros Hq; [done|].
  rewrite fmap_cons, Zsum_cons.
  assert (0 < q w) by (apply Hq; left).
  assert (0 <= Zsum (q <$> ws)) by (apply IH; intros w' Hw'; apply Hq; by right).
  lia.
Qed.

(** The whole stock, when the need covers it. *)
Lemma quote_all need ws :
  (forall w, w ∈ ws -> 0 < q w) -> Zsum (q <$> ws) <= need ->
  quote p q need ws = Zsum ((fun w => p w * q w) <$> ws).
Proof.
  revert need. induction ws as [|w ws IH]; intros need Hq Hn; [done|].
  assert (Hq' : forall w', w' ∈ ws -> 0 < q w') by (intros w' Hw'; apply Hq; by right).
  assert (0 < q w) by (apply Hq; left).
  pose proof (Zsum_pos_nonneg ws Hq').
  rewrite fmap_cons, Zsum_cons in Hn. cbn [quote]. rewrite fmap_cons, Zsum_cons.
  rewrite Z.min_l by lia. rewrite IH by (done || lia). done.
Qed.

(** A need that the first bucket covers. *)
Lemma quote_first need w ws :
  (forall w', w' ∈ w :: ws -> 0 < q w') -> need <= q w ->
  quote p q need (w :: ws) = p w * need.
Proof.
  intros Hq Hn. cbn [quote]. rewrite Z.min_r by lia.
  rewrite Z.sub_diag, quote_nothing; [lia|]. intros w' Hw'. apply Hq. by right.
Qed.

Lemma quote_snoc need ws w0 :
  (forall w, w ∈ ws -> 0 < q w) -> 0 <= need ->
  quote p q need (ws ++ [w0])
  = quote p q need ws
    + p w0 * Z.min (q w0) (Z.max 0 (need - Zsum (q <$> ws))).
Proof.
  revert need. induction ws as [|w ws IH]; intros need Hq Hn.
  - cbn. rewrite Z.sub_0_r, Z.max_r by lia. lia.
  - assert (Hq' : forall w', w' ∈ ws -> 0 < q w') by (intros w' Hw'; apply Hq; by right).
    assert (0 < q w) by (apply Hq; left).
    pose proof (Zsum_pos_nonneg ws Hq').
    cbn [app quote]. rewrite IH by (done || lia).
    rewrite fmap_cons, Zsum_cons.
    replace (Z.max 0 (need - Z.min (q w) need - Zsum (q <$> ws)))
      with (Z.max 0 (need - (q w + Zsum (q <$> ws)))) by lia.
    lia.
Qed.

(** A greater need costs more, and no more than the greatest price for
    every unit it adds. *)
Lemma quote_lipschitz c need need' ws :
  (forall w, w ∈ ws -> 0 < q w) -> (forall w, w ∈ ws -> 0 <= p w <= c) ->
  0 <= need' <= need ->
  0 <= quote p q need ws - quote p q need' ws
    <= c * (Z.min need (Zsum (q <$> ws)) - Z.min need' (Zsum (q <$> ws))).
Proof.
  revert need need'. induction ws as [|w ws IH]; intros need need' Hq Hp Hn.
  - cbn. lia.
  - assert (Hq' : forall w', w' ∈ ws -> 0 < q w') by (intros w' Hw'; apply Hq; by right).
    assert (Hp' : forall w', w' ∈ ws -> 0 <= p w' <= c)
      by (intros w' Hw'; apply Hp; by right).
    assert (0 < q w) by (apply Hq; left).
    assert (0 <= p w <= c) by (apply Hp; left).
    pose proof (Zsum_pos_nonneg ws Hq') as HT.
    cbn [quote]. rewrite fmap_cons, Zsum_cons.
    set (T := Zsum (q <$> ws)) in *.
    set (m := Z.min (q w) need). set (m' := Z.min (q w) need').
    assert (Hm : 0 <= m' <= m) by (unfold m, m'; lia).
    assert (Hr : 0 <= need' - m' <= need - m) by (unfold m, m'; lia).
    specialize (IH (need - m) (need' - m') Hq' Hp' Hr). fold T in IH.
    assert (E1 : Z.min need (q w + T) = m + Z.min (need - m) T) by (unfold m; lia).
    assert (E2 : Z.min need' (q w + T) = m' + Z.min (need' - m') T) by (unfold m'; lia).
    rewrite E1, E2.
    set (d := Z.min (need - m) T - Z.min (need' - m') T) in *.
    assert (Hd : 0 <= d) by (unfold d, m, m'; lia).
    replace (m + Z.min (need - m) T - (m' + Z.min (need' - m') T)) with ((m - m') + d)
      by (unfold d; lia).
    assert (0 <= p w * (m - m') <= c * (m - m')) by nia.
    nia.
Qed.

(** When the price does not increase along [ws], drawing from the far
    end costs no more than drawing from the near end. *)
Lemma quote_reverse_le need ws :
  StronglySorted (fun a b => p b <= p a) ws ->
  (forall w, w ∈ ws -> 0 < q w) -> (forall w, w ∈ ws -> 0 <= p w) ->
  0 <= need ->
  quote p q need (reverse ws) <= quote p q need ws.
Proof.
  revert need. induction ws as [|w ws IH]; intros need Hs Hq Hp Hn; [done|].
  apply StronglySorted_inv in Hs as [Hs Hall]. rewrite Forall_forall in Hall.
  assert (Hq' : forall w', w' ∈ ws -> 0 < q w') by (intros w' Hw'; apply Hq; by right).
  assert (Hp' : forall w', w' ∈ ws -> 0 <= p w') by (intros w' Hw'; apply Hp; by right).
  assert (0 < q w) by (apply Hq; left).
  assert (0 <= p w) by (apply Hp; left).
  pose proof (Zsum_pos_nonneg ws Hq') as HT.
  rewrite reverse_cons, quote_snoc; [| |done].
  2:{ intros w' Hw'. apply Hq'. by apply elem_of_reverse. }
  rewrite (Zsum_perm (q <$> reverse ws) (q <$> ws))
    by (apply fmap_Permutation, reverse_Permutation).
  specialize (IH need Hs Hq' Hp' Hn). cbn [quote].
  set (T := Zsum (q <$> ws)) in *.
  set (m := Z.min (q w) need).
  set (x := Z.min (q w) (Z.max 0 (need - T))).
  pose proof (quote_lipschitz (p w) need (need - m) ws Hq') as HL.
  fold T in HL.
  assert (Hpw : forall w', w' ∈ ws -> 0 <= p w' <= p w).
  { intros w' Hw'. split; [by apply Hp'|by apply Hall]. }
  specialize (HL Hpw ltac:(unfold m; lia)).
  assert (Hk : Z.min need T - Z.min (need - m) T + x <= m) by (unfold m, x; lia).
  nia.
Qed.

End quote_order.

Section get_cost_order.
Variable objects : N -> Outfit.
Implicit Types (this : OutfitGroup) (led : InnerMap) (outfit : N).

Lemma StronglySorted_weaken {A} (R R' : A -> A -> Prop) (l : list A) :
  StronglySorted R l ->
  (forall a b, a ∈ l -> b ∈ l -> R a b -> R' a b) ->
  StronglySorted R' l.
Proof.
  induction 1 as [|a l Hs IH Hall]; intros Himp; [constructor|].
  constructor.
  - apply IH. intros x y Hx Hy. apply Himp; by right.
  - rewrite Forall_forall in *. intros b Hb. apply Himp; [left|by right|by apply Hall].
Qed.

Lemma well_formed_ledger this outfit led :
  well_formed this -> this !! outfit = Some led ->
  ledger_typed led /\ ledger_positive led /\ led <> ∅.
Proof.
  intros [Ht Hn] Hl. destruct (Hn _ _ Hl) as [? ?]. split; [by eapply Ht|done].
Qed.

Lemma at_wear_pos led w :
  ledger_positive led -> is_Some (led !! w) -> 0 < at_wear led w.
Proof. intros Hp [x Hx]. rewrite (at_wear_Some _ _ _ Hx). by apply (Hp _ _ Hx). Qed.

(** The price of a quote is between zero and the full price of as many
    new units. *)
Lemma quote_bounds (data : Outfit) led need ws :
  0 <= Cost data < 2 ^ 53 -> ledger_positive led ->
  (forall w, w ∈ ws -> is_Some (led !! w) /\ 0 <= w <= Int.INT_MAX) ->
  0 <= need ->
  0 <= quote (CostFunction data) (at_wear led) need ws
    <= Cost data * Z.min need (Zsum (at_wear led <$> ws)).
Proof.
  intros Hc Hp Hws Hn.
  assert (Hq : forall w, w ∈ ws -> 0 < at_wear led w).
  { intros w Hw. apply at_wear_pos; [done|]. by apply Hws. }
  pose proof (quote_lipschitz (CostFunction data) (at_wear led) (Cost data)
                need 0 ws Hq) as HL.
  rewrite quote_nothing in HL by done.
  pose proof (Zsum_pos_nonneg (at_wear led) ws Hq).
  rewrite (Z.min_l 0) in HL by lia.
  rewrite !Z.sub_0_r in HL. apply HL; [|lia].
  intros w Hw. destruct (Hws w Hw) as [_ Hr].
  split; [by apply CostFunction_nonneg|by apply CostFunction_le_Cost].
Qed.

End get_cost_order.

(** ** Facts about the iterator *)

Section sorted_lists.
Context {A : Type} (R : relation A) `{!RelDecision R} `{!StrictOrder R}.

(** In a strictly sorted list, the elements after [x] are those that [x]
    is below. *)
Lemma filter_after (pre post : list A) (x : A) :
  StronglySorted R (pre ++ x :: post) ->
  filter (R x) (pre ++ x :: post) = post.
Proof.
  intros Hs. rewrite filter_app, filter_cons_False by apply irreflexivity, _.
  assert (Hpre : filter (R x) pre = []).
  { assert (Hall : Forall (fun y => R y x) pre).
    { apply Forall_forall. intros y Hy.
      apply (StronglySorted_app_1_elem_of R pre (x :: post)); [done|done|left]. }
    clear Hs. induction Hall as [|y pre Hy Hall IH]; [done|].
    rewrite filter_cons_False; [done|]. intros Hxy.
    by apply (irreflexivity R x); etrans. }
  rewrite Hpre. cbn [app].
  apply StronglySorted_app_1_r, StronglySorted_inv in Hs as [_ Hall].
  clear Hpre. induction post as [|y post IH]; [done|].
  apply Forall_cons in Hall as [Hy Hall].
  rewrite filter_cons_True by done. f_equal. by apply IH.
Qed.

End sorted_lists.

Lemma NoDup_outfits_asc (group : OutfitGroup) : NoDup (outfits_asc group).
Proof. rewrite outfits_asc_perm. apply NoDup_fst_map_to_list. Qed.

Lemma outfits_asc_strict (group : OutfitGroup) :
  StronglySorted N.lt (outfits_asc group).
Proof.
  assert (Hs : StronglySorted N.le (outfits_asc group))
    by apply (StronglySorted_merge_sort N.le).
  pose proof (NoDup_outfits_asc group) as Hnd.
  induction Hs as [|o os Hs IH Hall]; [constructor|].
  apply NoDup_cons in Hnd as [Ho Hnd]. constructor; [by apply IH|].
  rewrite Forall_forall in Hall |- *. intros o' Ho'.
  pose proof (Hall o' Ho'). assert (o <> o') by (by intros ->). lia.
Qed.

Section stepping.
Variables (address : nat) (group : OutfitGroup).
Implicit Types (o : N) (w : Z) (it : iterator).

Lemma inner_next_same o kpre w w' kpost :
  keys_asc (ledger_of group o) = kpre ++ w :: w' :: kpost ->
  inner_next group (InnerAt o w) = InnerAt o w'.
Proof.
  intros Hk. cbn [inner_next]. rewrite Hk.
  rewrite (filter_after Z.lt kpre (w' :: kpost) w); [done|].
  rewrite <- Hk. apply keys_asc_strict.
Qed.

Lemma inner_next_last o kpre w :
  keys_asc (ledger_of group o) = kpre ++ [w] ->
  inner_next group (InnerAt o w) = InnerEnd o.
Proof.
  intros Hk. cbn [inner_next]. rewrite Hk.
  rewrite (filter_after Z.lt kpre [] w); [done|].
  rewrite <- Hk. apply keys_asc_strict.
Qed.

Lemma outer_next_same opre o o' opost :
  outfits_asc group = opre ++ o :: o' :: opost ->
  outer_next group (OuterAt o) = OuterAt o'.
Proof.
  intros Hk. cbn [outer_next]. rewrite Hk.
  rewrite (filter_after N.lt opre (o' :: opost) o); [done|].
  rewrite <- Hk. apply outfits_asc_strict.
Qed.

Lemma outer_next_last opre o :
  outfits_asc group = opre ++ [o] ->
  outer_next group (OuterAt o) = OuterEnd.
Proof.
  intros Hk. cbn [outer_next]. rewrite Hk.
  rewrite (filter_after N.lt opre [] o); [done|].
  rewrite <- Hk. apply outfits_asc_strict.
Qed.

(** [operator++] inside a ledger, from a ledger to the next one, and
    after the last bucket. *)
Lemma operator_incr_same o kpre w w' kpost :
  keys_asc (ledger_of group o) = kpre ++ w :: w' :: kpost ->
  operator_incr group (cursor address (o, w)) = cursor address (o, w').
Proof.
  intros Hk. unfold operator_incr, cursor. cbn [innerIter outerIter fst snd].
  rewrite (inner_next_same o kpre w w' kpost Hk). by rewrite bool_decide_eq_false_2.
Qed.

Lemma operator_incr_next o kpre w opre o' opost :
  keys_asc (ledger_of group o) = kpre ++ [w] ->
  outfits_asc group = opre ++ o :: o' :: opost ->
  operator_incr group (cursor address (o, w)) = ledger_begin address group o'.
Proof.
  intros Hk Ho. unfold operator_incr, cursor. cbn [innerIter outerIter fst snd].
  rewrite (inner_next_last o kpre w Hk). cbn [inner_end].
  rewrite bool_decide_eq_true_2 by done.
  rewrite (outer_next_same opre o o' opost Ho). by rewrite bool_decide_eq_false_2.
Qed.

Lemma operator_incr_last o kpre w opre :
  keys_asc (ledger_of group o) = kpre ++ [w] ->
  outfits_asc group = opre ++ [o] ->
  operator_incr group (cursor address (o, w)) = exhausted address o.
Proof.
  intros Hk Ho. unfold operator_incr, cursor. cbn [innerIter outerIter fst snd].
  rewrite (inner_next_last o kpre w Hk). cbn [inner_end].
  rewrite bool_decide_eq_true_2 by done.
  rewrite (outer_next_last opre o Ho). by rewrite bool_decide_eq_true_2.
Qed.

Lemma ledger_begin_cursor o w ks :
  keys_asc (ledger_of group o) = w :: ks ->
  ledger_begin address group o = cursor address (o, w).
Proof. intros Hk. unfold ledger_begin, cursor. cbn [inner_begin]. by rewrite Hk. Qed.

Lemma operator_ne_cursor_end p :
  operator_ne (cursor address p) (end_ address group) = true.
Proof.
  unfold operator_ne, end_, iterator_begin_or_end, cursor.
  cbn [andb isEnd myGroup outerIter innerIter].
  rewrite (bool_decide_eq_false_2 (OuterAt p.1 = OuterEnd)) by done.
  cbn [negb]. apply orb_true_iff. left. apply orb_true_r.
Qed.

Lemma operator_ne_exhausted_end o :
  operator_ne (exhausted address o) (end_ address group) = false.
Proof. unfold operator_ne, end_, iterator_begin_or_end, exhausted. done. Qed.

End stepping.

Section traversal.
Variables (address : nat) (group : OutfitGroup).
Hypothesis ledgers : no_empty_ledger group.
Context {A : Type} (body : iterator -> A -> option A).
Implicit Types (o : N) (w : Z) (it : iterator) (acc : A).

Lemma run_body_app its1 its2 acc :
  run_body body (its1 ++ its2) acc
  = run_body body its1 acc ≫= run_body body its2.
Proof.
  revert acc. induction its1 as [|it its1 IH]; intros acc; [done|].
  cbn [app run_body]. destruct (body it acc) as [acc'|]; [apply IH|done].
Qed.

Lemma outfits_asc_nil : outfits_asc group = [] <-> group = ∅.
Proof.
  split.
  - intros Hk. apply map_eq. intros o. rewrite lookup_empty.
    apply eq_None_not_Some. rewrite <- elem_of_outfits_asc, Hk. apply not_elem_of_nil.
  - intros ->. unfold outfits_asc. by rewrite map_to_list_empty.
Qed.

Lemma keys_asc_cons o :
  o ∈ outfits_asc group ->
  exists w ks, keys_asc (ledger_of group o) = w :: ks.
Proof.
  intros [led Hl]%elem_of_outfits_asc. unfold ledger_of. rewrite Hl.
  destruct (keys_asc led) as [|w ks] eqn:Hk; [|by eauto].
  apply keys_asc_nil in Hk. by destruct (ledgers _ _ Hl).
Qed.

(** The loop over what is left of one ledger. *)
Lemma for_each_ledger o opre opost kpost :
  outfits_asc group = opre ++ o :: opost ->
  forall kpre w acc n,
    keys_asc (ledger_of group o) = kpre ++ w :: kpost ->
    for_each (length (w :: kpost) + n) address group body
      (cursor address (o, w)) acc
    = match run_body body (cursor address <$> ((fun w' => (o, w')) <$> w :: kpost))
              acc with
      | Some acc' => for_each n address group body (after_ledger address group o opost) acc'
      | None => ReadsEnd
      end.
Proof.
  intros Ho. induction kpost as [|w' kpost IH]; intros kpre w acc n Hk.
  - cbn [length Nat.add for_each fmap list_fmap run_body].
    rewrite operator_ne_cursor_end.
    destruct (body (cursor address (o, w)) acc) as [acc'|]; [|done].
    destruct opost as [|o' opost].
    + by rewrite (operator_incr_last address group o kpre w opre).
    + by rewrite (operator_incr_next address group o kpre w opre o' opost).
  - change (length (w :: w' :: kpost) + n)%nat with (S (length (w' :: kpost) + n)).
    cbn [for_each]. rewrite operator_ne_cursor_end.
    rewrite !fmap_cons. cbn [run_body].
    destruct (body (cursor address (o, w)) acc) as [acc'|]; [|done].
    rewrite (operator_incr_same address group o kpre w w' kpost Hk).
    rewrite (IH (kpre ++ [w]) w' acc' n); [done|].
    by rewrite <- app_assoc.
Qed.

(** The loop from the first bucket of an outfit to the end of the group. *)
Lemma for_each_outfits opost :
  forall opre o acc k,
    outfits_asc group = opre ++ o :: opost ->
    for_each (length (positions_of group (o :: opost)) + S k) address group body
      (ledger_begin address group o) acc
    = finish (run_body body (cursor address <$> positions_of group (o :: opost)) acc).
Proof.
  induction opost as [|o' opost IH]; intros opre o acc k Ho.
  - destruct (keys_asc_cons o) as (w & ks & Hk).
    { rewrite Ho. apply elem_of_app. right. left. }
    rewrite (ledger_begin_cursor address group o w ks Hk).
    unfold positions_of. cbn [mbind list_bind]. rewrite app_nil_r, Hk.
    rewrite length_fmap.
    rewrite (for_each_ledger o opre [] ks Ho [] w acc (S k) Hk).
    destruct (run_body _ _ acc) as [acc'|]; [|done].
    cbn [after_ledger for_each]. by rewrite operator_ne_exhausted_end.
  - destruct (keys_asc_cons o) as (w & ks & Hk).
    { rewrite Ho. apply elem_of_app. right. left. }
    rewrite (ledger_begin_cursor address group o w ks Hk).
    change (positions_of group (o :: o' :: opost))
      with (((fun w' => (o, w')) <$> keys_asc (ledger_of group o))
            ++ positions_of group (o' :: opost)).
    rewrite Hk, length_app, length_fmap, <- Nat.add_assoc.
    rewrite (for_each_ledger o opre (o' :: opost) ks Ho [] w acc _ Hk).
    rewrite fmap_app, run_body_app.
    destruct (run_body _ _ acc) as [acc'|]; [|done].
    cbn [after_ledger mbind option_bind].
    apply (IH (opre ++ [o])). by rewrite <- app_assoc.
Qed.

(** The loop [for (auto it = begin(); it != end(); ++it)] runs its body at
    every bucket of the group, once, by ascending outfit and wear level,
    and ends. *)
Lemma for_each_begin acc k :
  for_each (length (positions group) + S k) address group body
    (begin_ address group) acc
  = finish (run_body body (cursor address <$> positions group) acc).
Proof.
  unfold positions. destruct (outfits_asc group) as [|o os] eqn:Ho.
  - apply outfits_asc_nil in Ho. rewrite Ho. done.
  - assert (Hne : group <> ∅).
    { intros He. apply outfits_asc_nil in He. by rewrite He in Ho. }
    assert (Hb : begin_ address group = ledger_begin address group o).
    { unfold begin_, iterator_begin_or_end, Empty, ledger_begin.
      rewrite bool_decide_eq_false_2 by done. cbn [andb negb].
      unfold outer_begin. by rewrite Ho. }
    rewrite Hb. apply (for_each_outfits os [] o acc k). by rewrite Ho.
Qed.

End traversal.

Section positions.
Variable group : OutfitGroup.
Implicit Types (o : N) (w : Z) (os : list N).

Lemma elem_of_positions_of os o w :
  (o, w) ∈ positions_of group os
  <-> o ∈ os /\ is_Some (ledger_of group o !! w).
Proof.
  unfold positions_of. rewrite list_elem_of_bind. split.
  - intros (o' & Hw & Ho'). apply list_elem_of_fmap in Hw as (w' & [= -> ->] & Hw).
    split; [done|]. by apply elem_of_keys_asc.
  - intros [Ho Hw]. exists o. split; [|done]. apply list_elem_of_fmap.
    exists w. split; [done|]. by apply elem_of_keys_asc.
Qed.

Lemma elem_of_positions o w :
  (o, w) ∈ positions group <-> is_Some (ledger_of group o !! w).
Proof.
  unfold positions. rewrite elem_of_positions_of, elem_of_outfits_asc. split.
  - by intros [_ ?].
  - intros Hw. split; [|done]. unfold ledger_of in Hw.
    destruct (group !! o); [done|]. rewrite lookup_empty in Hw. by destruct Hw.
Qed.

Lemma positions_of_sorted os :
  StronglySorted N.lt os -> StronglySorted position_lt (positions_of group os).
Proof.
  induction 1 as [|o os Hs IH Hall]; [constructor|].
  change (positions_of group (o :: os))
    with (((fun w => (o, w)) <$> keys_asc (ledger_of group o))
          ++ positions_of group os).
  apply StronglySorted_app. split; [|split; [|done]].
  - intros [o1 w1] [o2 w2] H1 H2.
    apply list_elem_of_fmap in H1 as (w & [= -> ->] & _).
    apply elem_of_positions_of in H2 as [H2 _].
    rewrite Forall_forall in Hall. left. by apply Hall.
  - apply StronglySorted_fmap with (R1 := Z.lt); [|apply keys_asc_strict].
    intros w1 w2 Hw. right. done.
Qed.

Lemma positions_sorted : StronglySorted position_lt (positions group).
Proof. apply positions_of_sorted, outfits_asc_strict. Qed.

End positions.

Section loops.
Variables (address : nat) (group : OutfitGroup).
Implicit Types (o : N) (w : Z) (ps : list (N * Z)).

Lemma quantity_ledger_of (g : OutfitGroup) o w :
  quantity g o w = at_wear (ledger_of g o) w.
Proof.
  unfold quantity, ledger_of. destruct (g !! o); [done|]. by rewrite at_wear_empty.
Qed.

Lemma bucket_at_cursor o w q :
  ledger_of group o !! w = Some q ->
  bucket_at group (cursor address (o, w)) = Some (o, w, quantity group o w).
Proof.
  intros Hq. unfold bucket_at, cursor, GetOutfit, GetWear, GetQuantity.
  cbn [outerIter innerIter fst snd mbind option_bind]. rewrite Hq.
  cbn [mbind option_bind]. by rewrite quantity_ledger_of, (at_wear_Some _ _ _ Hq).
Qed.

Lemma run_body_collect ps seen :
  (forall p, p ∈ ps -> is_Some (ledger_of group p.1 !! p.2)) ->
  run_body (fun it seen => (fun b => seen ++ [b]) <$> bucket_at group it)
    (cursor address <$> ps) seen
  = Some (seen ++ ((fun p => (p.1, p.2, quantity group p.1 p.2)) <$> ps)).
Proof.
  revert seen. induction ps as [|[o w] ps IH]; intros seen Hps.
  - cbn. by rewrite app_nil_r.
  - destruct (Hps (o, w)) as [q Hq]; [left|]. cbn [fst snd] in Hq.
    rewrite !fmap_cons. cbn [run_body]. rewrite (bucket_at_cursor o w q Hq).
    cbn [fmap option_fmap option_map].
    rewrite IH by (intros p Hp; apply Hps; by right).
    by rewrite <- app_assoc.
Qed.

Lemma iterator_GetTotalCost_cursor (objects : N -> Outfit) o w q :
  ledger_of group o !! w = Some q ->
  iterator_GetTotalCost objects group (cursor address (o, w))
  = Some (Int64.mul (CostFunction (objects o) w) (quantity group o w)).
Proof.
  intros Hq. unfold iterator_GetTotalCost, cursor, GetOutfit, GetWear, GetQuantity.
  cbn [outerIter innerIter fst snd mbind option_bind]. rewrite Hq.
  cbn [mbind option_bind]. by rewrite quantity_ledger_of, (at_wear_Some _ _ _ Hq).
Qed.

Lemma run_body_cost (objects : N -> Outfit) ps acc :
  (forall p, p ∈ ps -> is_Some (ledger_of group p.1 !! p.2)) ->
  run_body (fun it cost => Int64.add cost <$> iterator_GetTotalCost objects group it)
    (cursor address <$> ps) (Int64.wrap acc)
  = Some (Int64.wrap
            (acc + Zsum ((fun p => CostFunction (objects p.1) p.2
                                   * quantity group p.1 p.2) <$> ps))).
Proof.
  revert acc. induction ps as [|[o w] ps IH]; intros acc Hps.
  - cbn. by rewrite Z.add_0_r.
  - destruct (Hps (o, w)) as [q Hq]; [left|]. cbn [fst snd] in Hq.
    rewrite !fmap_cons. cbn [run_body].
    rewrite (iterator_GetTotalCost_cursor objects o w q Hq).
    cbn [fmap option_fmap option_map]. rewrite add64_mul64.
    rewrite IH by (intros p Hp; apply Hps; by right).
    rewrite Zsum_cons. cbn [fst snd]. do 2 f_equal. lia.
Qed.

Lemma positions_held p :
  p ∈ positions group -> is_Some (ledger_of group p.1 !! p.2).
Proof. destruct p as [o w]. apply elem_of_positions. Qed.

End loops.

Section cost_of_outfit.
Variables (objects : N -> Outfit) (address : nat) (group : OutfitGroup).
Hypothesis ledgers : no_empty_ledger group.
Implicit Types (o : N) (w : Z).

Lemma GetTotalCost_of_loop_same n o it cost c :
  GetOutfit it = Some o ->
  iterator_GetTotalCost objects group it = Some c ->
  GetTotalCost_of_loop (S n) objects group o it cost
  = GetTotalCost_of_loop n objects group o (operator_incr group it)
      (Int64.add cost c).
Proof.
  intros Ho Hc. cbn [GetTotalCost_of_loop]. rewrite Ho, Hc.
  by rewrite bool_decide_eq_true_2.
Qed.

Lemma GetTotalCost_of_loop_other n o o' it cost :
  GetOutfit it = Some o' -> o' <> o ->
  GetTotalCost_of_loop (S n) objects group o it cost = Returns cost.
Proof.
  intros Ho Hne. cbn [GetTotalCost_of_loop]. rewrite Ho.
  by rewrite bool_decide_eq_false_2.
Qed.

(** The loop of [GetTotalCost(outfit)] over what is left of the ledger of
    the outfit. *)
Lemma GetTotalCost_of_ledger o opre opost kpost :
  outfits_asc group = opre ++ o :: opost ->
  forall kpre w acc n,
    keys_asc (ledger_of group o) = kpre ++ w :: kpost ->
    GetTotalCost_of_loop (length (w :: kpost) + n) objects group o
      (cursor address (o, w)) (Int64.wrap acc)
    = GetTotalCost_of_loop n objects group o (after_ledger address group o opost)
        (Int64.wrap
           (acc + Zsum ((fun w' => CostFunction (objects o) w' * quantity group o w')
                        <$> w :: kpost))).
Proof.
  intros Ho. induction kpost as [|w' kpost IH]; intros kpre w acc n Hk.
  - assert (Hw : is_Some (ledger_of group o !! w)).
    { apply elem_of_keys_asc. rewrite Hk, elem_of_app. right. left. }
    destruct Hw as [q Hq].
    cbn [length Nat.add].
    rewrite (GetTotalCost_of_loop_same _ o (cursor address (o, w)) _ _ eq_refl
               (iterator_GetTotalCost_cursor address group objects o w q Hq)).
    rewrite add64_mul64.
    rewrite fmap_cons, Zsum_cons. cbn [fmap list_fmap Zsum foldr]. rewrite Z.add_0_r.
    destruct opost as [|o' opost].
    + by rewrite (operator_incr_last address group o kpre w opre).
    + by rewrite (operator_incr_next address group o kpre w opre o' opost).
  - assert (Hw : is_Some (ledger_of group o !! w)).
    { apply elem_of_keys_asc. rewrite Hk, elem_of_app. right. left. }
    destruct Hw as [q Hq].
    change (length (w :: w' :: kpost) + n)%nat with (S (length (w' :: kpost) + n)).
    rewrite (GetTotalCost_of_loop_same _ o (cursor address (o, w)) _ _ eq_refl
               (iterator_GetTotalCost_cursor address group objects o w q Hq)).
    rewrite add64_mul64.
    rewrite (operator_incr_same address group o kpre w w' kpost Hk).
    rewrite (IH (kpre ++ [w]) w' _ n) by (by rewrite <- app_assoc).
    rewrite (fmap_cons _ w), (Zsum_cons _ (_ <$> w' :: kpost)).
    do 2 f_equal. lia.
Qed.

Lemma find_held o w ks :
  keys_asc (ledger_of group o) = w :: ks -> is_Some (group !! o) ->
  find address group o = cursor address (o, w).
Proof.
  intros Hk [led Hl]. unfold find, iterator_find, cursor. rewrite Hl.
  cbn [inner_begin inner_end]. rewrite Hk.
  by rewrite !bool_decide_eq_false_2.
Qed.

Lemma find_absent o :
  group !! o = None -> find address group o = end_ address group.
Proof. intros Hl. unfold find, iterator_find. rewrite Hl. done. Qed.

(** The outfits around an outfit of the group, in the order of the map. *)
Lemma outfits_asc_split o :
  is_Some (group !! o) ->
  exists opre opost,
    outfits_asc group = opre ++ o :: opost
    /\ (forall o', o' ∈ opre -> (o' < o)%N)
    /\ (forall o', o' ∈ opost -> (o < o')%N).
Proof.
  intros Ho%elem_of_outfits_asc. apply list_elem_of_split in Ho as (opre & opost & E).
  exists opre, opost. split; [done|].
  pose proof (outfits_asc_strict group) as Hs. rewrite E in Hs. split.
  - intros o' Ho'. apply (StronglySorted_app_1_elem_of _ opre (o :: opost)); [done|done|left].
  - intros o' Ho'. apply StronglySorted_app_1_r, StronglySorted_inv in Hs as [_ Hall].
    rewrite Forall_forall in Hall. by apply Hall.
Qed.

(** [GetTotalCost(outfit)], by what follows the outfit in the map. *)
Lemma GetTotalCost_of_held o led opre opost k :
  group !! o = Some led ->
  outfits_asc group = opre ++ o :: opost ->
  GetTotalCost_of (length (keys_asc led) + S k) objects address group o
  = match opost with
    | [] => ReadsEnd
    | _ :: _ =>
        Returns
          (Int64.wrap
             (Zsum ((fun w => CostFunction (objects o) w * quantity group o w)
                    <$> keys_asc led)))
    end.
Proof.
  intros Hl Ho.
  assert (Hled : ledger_of group o = led) by (unfold ledger_of; by rewrite Hl).
  destruct (keys_asc led) as [|w ks] eqn:Hk.
  { apply keys_asc_nil in Hk. by destruct (ledgers _ _ Hl). }
  unfold GetTotalCost_of. rewrite (find_held o w ks) by (by rewrite ?Hled; eauto).
  change 0 with (Int64.wrap 0) at 1.
  rewrite (GetTotalCost_of_ledger o opre opost ks Ho [] w 0 (S k))
    by (by rewrite Hled).
  rewrite Z.add_0_l. destruct opost as [|o' opost]; [done|].
  cbn [after_ledger].
  apply (GetTotalCost_of_loop_other k o o' (ledger_begin address group o') _ eq_refl). intros ->.
  pose proof (NoDup_outfits_asc group) as Hnd. rewrite Ho in Hnd.
  apply NoDup_app in Hnd as (_ & _ & Hnd). apply NoDup_cons in Hnd as [Hnd _].
  apply Hnd. left.
Qed.

End cost_of_outfit.

Section floor.

Lemma CostFunction_wear_floor_251 w :
  251 <= w <= Int.INT_MAX -> CostFunction_wear w = DEFAULT_MIN_PRICE.
Proof.
  intros Hw. destruct (Z.le_gt_cases 257 w) as [Hge|Hlt].
  - apply CostFunction_wear_floor. lia.
  - assert (w = 251 \/ w = 252 \/ w = 253 \/ w = 254 \/ w = 255 \/ w = 256)
      as [->|[->|[->|[->|[->| ->]]]]] by lia; by vm_compute.
Qed.

End floor.

(** ** Facts about the random wear *)

(** The literals are the correctly rounded quotients 2/10, 5/10, 7/10 and
    9/10. *)
Lemma percent_literals :
  percent_20 = Double.div (Double.of_int 2) (Double.of_int 10)
  /\ percent_50 = Double.div (Double.of_int 5) (Double.of_int 10)
  /\ percent_70 = Double.div (Double.of_int 7) (Double.of_int 10)
  /\ percent_90 = Double.div (Double.of_int 9) (Double.of_int 10).
Proof. repeat split; by vm_compute. Qed.

(** With the default constants the wear of full depreciation is 251, and
    the bounds of the two ranges are 50 and 125, 175 and 225. *)
Lemma UsedWear_unfold (Random_Int : Z -> Z) :
  UsedWear Random_Int = Int.add (Random_Int 75) 50.
Proof.
  unfold UsedWear, GetRandomWear.
  set (full := double_add _ _).
  assert (E1 : double_to_int (Double.mul full percent_20) = 50) by (by vm_compute).
  assert (E2 : double_to_int (Double.mul full percent_50) = 125) by (by vm_compute).
  by rewrite E1, E2.
Qed.

Lemma PlunderWear_unfold (Random_Int : Z -> Z) :
  PlunderWear Random_Int = Int.add (Random_Int 50) 175.
Proof.
  unfold PlunderWear, GetRandomWear.
  set (full := double_add _ _).
  assert (E1 : double_to_int (Double.mul full percent_70) = 175) by (by vm_compute).
  assert (E2 : double_to_int (Double.mul full percent_90) = 225) by (by vm_compute).
  by rewrite E1, E2.
Qed.

Section attribute.
Variables (objects : N -> Outfit) (address : nat) (group : OutfitGroup).
Variable attribute : string.

Lemma run_body_attribute ps value :
  (forall p, p ∈ ps -> is_Some (ledger_of group p.1 !! p.2)) ->
  run_body
    (fun it value =>
       outfit ← GetOutfit it;
       quantity ← GetQuantity group it;
       Some (double_add value
               (Double.mul (Get (objects outfit) attribute)
                  (Double.of_int quantity))))
    (cursor address <$> ps) value
  = Some (foldl (fun value p =>
                   double_add value
                     (Double.mul (Get (objects p.1) attribute)
                        (Double.of_int (quantity group p.1 p.2))))
            value ps).
Proof.
  revert value. induction ps as [|[o w] ps IH]; intros value Hps; [done|].
  destruct (Hps (o, w)) as [q Hq]; [left|]. cbn [fst snd] in Hq.
  rewrite !fmap_cons. cbn [run_body foldl].
  unfold GetOutfit at 1, GetQuantity at 1, cursor at 1 2.
  cbn [outerIter innerIter fst snd mbind option_bind]. rewrite Hq.
  cbn [mbind option_bind].
  rewrite IH by (intros p Hp; apply Hps; by right).
  by rewrite quantity_ledger_of, (at_wear_Some _ _ _ Hq).
Qed.

End attribute.

Section add_range.
Implicit Types (this : OutfitGroup) (led : InnerMap) (outfit : N).

(** The wear levels held after a positive number of units is added. *)
Lemma AddOutfit_held this outfit count wear :
  well_formed this -> Int.in_int count -> 0 < count ->
  quantity this outfit wear + count <= Int.INT_MAX ->
  (AddOutfit this outfit count wear).1 !! outfit
  = Some (added_ledger this outfit count wear)
  /\ forall w, is_Some (added_ledger this outfit count wear !! w)
               <-> w = wear \/ is_Some (ledger_of this outfit !! w).
Proof.
  intros Hwf Hc Hpos Hfit.
  pose proof (well_formed_quantity_nonneg this outfit wear Hwf) as Hq0.
  assert (Hw : forall w, is_Some (added_ledger this outfit count wear !! w)
               <-> w = wear \/ is_Some (ledger_of this outfit !! w)).
  { intros w. rewrite added_ledger_lookup.
    destruct (decide (wear = w)) as [<-|Hne].
    - split; [by left|]. intros _.
      destruct (ledger_of this outfit !! wear) as [q|] eqn:Hq; [|by eauto].
      assert (quantity this outfit wear = q) as <-.
      { by rewrite quantity_ledger_of, (at_wear_Some _ _ _ Hq). }
      rewrite add_small by (unfold Int.in_int, Int.INT_MIN, Int.INT_MAX in *; lia).
      destruct (Z.eqb_spec (quantity this outfit wear + count) 0); [lia|by eauto].
    - split; [by right|]. by intros [->|?]. }
  split; [|done].
  rewrite AddOutfit_lookup, decide_True by done.
  rewrite decide_False; [done|]. intros He.
  assert (is_Some (added_ledger this outfit count wear !! wear)) as [x Hx]
    by (apply Hw; by left).
  by rewrite He, lookup_empty in Hx.
Qed.

End add_range.

Section other_end.
Implicit Types (this : OutfitGroup) (led : InnerMap) (outfit : N).

(** What is taken from the bucket visited last. *)
Lemma taken_last (q : Z -> Z) need ws w0 :
  NoDup (ws ++ [w0]) -> (forall w, w ∈ ws -> 0 < q w) -> 0 <= need ->
  taken q need (ws ++ [w0]) w0
  = if 0 <? need - Zsum (q <$> ws) then Z.min (q w0) (need - Zsum (q <$> ws))
    else 0.
Proof.
  revert need. induction ws as [|w ws IH]; intros need Hnd Hq Hn.
  - cbn [app taken fmap list_fmap Zsum foldr]. rewrite Z.sub_0_r.
    destruct (Z.ltb_spec 0 need); [by rewrite decide_True|done].
  - assert (Hq' : forall w', w' ∈ ws -> 0 < q w') by (intros w' Hw'; apply Hq; by right).
    assert (Hqw : 0 < q w) by (apply Hq; left).
    pose proof (Zsum_pos_nonneg q ws Hq') as HT.
    cbn [app] in Hnd. apply NoDup_cons in Hnd as [Hw Hnd].
    assert (Hne : w0 <> w).
    { intros ->. apply Hw, elem_of_app. right. left. }
    cbn [app taken]. rewrite fmap_cons, Zsum_cons.
    destruct (Z.ltb_spec 0 need) as [Hpos|Hz].
    + rewrite decide_False by done. rewrite IH by (done || lia).
      replace (need - Z.min (q w) need - Zsum (q <$> ws))
        with (need - (q w + Zsum (q <$> ws)) + (q w - Z.min (q w) need)) by lia.
      destruct (Z.ltb_spec 0 (need - (q w + Zsum (q <$> ws)))) as [Hlt|Hge].
      * rewrite (Z.min_l (q w) need) by lia. rewrite Z.sub_diag, Z.add_0_r.
        destruct (Z.ltb_spec 0 (need - (q w + Zsum (q <$> ws)))); [done|lia].
      * destruct (Z.ltb_spec 0 (need - (q w + Zsum (q <$> ws))
                                + (q w - Z.min (q w) need))); [lia|done].
    + destruct (Z.ltb_spec 0 (need - (q w + Zsum (q <$> ws)))); [lia|done].
Qed.

(** A removal of fewer units than the group holds leaves units in the
    bucket visited last. *)
Lemma RemoveOutfit_last_bucket this outfit count (mostWornFirst : bool)
  (to : option OutfitGroup) led ws w0 :
  well_formed this -> this !! outfit = Some led ->
  Int.in_int count -> 0 < count < total_quantity this outfit ->
  (if mostWornFirst then keys_desc led else keys_asc led) = ws ++ [w0] ->
  exists led',
    (RemoveOutfit this outfit count mostWornFirst to).1.2 !! outfit = Some led'
    /\ is_Some (led' !! w0)
    /\ forall w, is_Some (led' !! w) -> is_Some (led !! w).
Proof.
  intros Hwf Hl Hc Hcount Hws.
  destruct (well_formed_ledger _ _ _ Hwf Hl) as (Ht & Hp & Hne).
  rewrite (RemoveOutfit_spec this outfit count mostWornFirst to led)
    by (done || lia).
  rewrite Hws. set (t := taken (at_wear led) count (ws ++ [w0])).
  cbn [fst snd].
  assert (Hnd : NoDup (ws ++ [w0])).
  { rewrite <- Hws. destruct mostWornFirst; [apply NoDup_keys_desc|apply NoDup_keys_asc]. }
  assert (Hin : forall w, w ∈ ws ++ [w0] <-> is_Some (led !! w)).
  { intros w. rewrite <- Hws.
    destruct mostWornFirst; [apply elem_of_keys_desc|apply elem_of_keys_asc]. }
  assert (Hperm : ws ++ [w0] ≡ₚ keys_asc led).
  { rewrite <- Hws. destruct mostWornFirst; [apply reverse_Permutation|done]. }
  assert (Hq : forall w, w ∈ ws ++ [w0] -> 0 < at_wear led w).
  { intros w Hw. apply at_wear_pos; [done|by apply Hin]. }
  assert (Htot : total_quantity this outfit
                 = Zsum (at_wear led <$> ws) + at_wear led w0).
  { unfold total_quantity. rewrite Hl, (ledger_total_keys led _ Hperm).
    rewrite fmap_app, Zsum_app. cbn. lia. }
  assert (Hlast : t w0 < at_wear led w0).
  { unfold t. rewrite taken_last; [|done| |lia].
    - destruct (Z.ltb_spec 0 (count - Zsum (at_wear led <$> ws))); [lia|].
      apply Hq, elem_of_app. right. left.
    - intros w Hw. apply Hq, elem_of_app. by left. }
  assert (Hw0 : is_Some (led !! w0)) by (apply Hin, elem_of_app; right; left).
  destruct Hw0 as [q0 Hq0]. rewrite (at_wear_Some _ _ _ Hq0) in Hlast.
  assert (Hkept : withdrawn t led !! w0 = Some (q0 - t w0)).
  { rewrite lookup_withdrawn, Hq0. destruct (Z.eqb_spec (q0 - t w0) 0); [lia|done]. }
  exists (withdrawn t led). split; [|split].
  - rewrite lookup_store, decide_True by done. rewrite decide_False; [done|].
    intros He. by rewrite He, lookup_empty in Hkept.
  - by eauto.
  - intros w. rewrite lookup_withdrawn. destruct (led !! w); [by eauto|].
    by intros [? ?].
Qed.

End other_end.

Section ageing_quote.
Implicit Types (this : OutfitGroup) (led : InnerMap) (outfit : N).

Lemma quote_fmap (p q : Z -> Z) (f : Z -> Z) need ws :
  quote p q need (f <$> ws) = quote (p ∘ f) (q ∘ f) need ws.
Proof.
  revert need. induction ws as [|w ws IH]; intros need; [done|].
  rewrite fmap_cons. cbn [quote compose]. by rewrite IH.
Qed.

Lemma quote_ext (p1 p2 q1 q2 : Z -> Z) need ws :
  (forall w, w ∈ ws -> p1 w = p2 w /\ q1 w = q2 w) ->
  quote p1 q1 need ws = quote p2 q2 need ws.
Proof.
  revert need. induction ws as [|w ws IH]; intros need Hw; [done|].
  cbn [quote]. destruct (Hw w) as [-> ->]; [left|].
  rewrite IH; [done|]. intros w' Hw'. apply Hw. by right.
Qed.

(** Lower prices give a lower quote. *)
Lemma quote_mono_price (p1 p2 q : Z -> Z) need ws :
  (forall w, w ∈ ws -> p1 w <= p2 w) -> (forall w, w ∈ ws -> 0 < q w) ->
  0 <= need ->
  quote p1 q need ws <= quote p2 q need ws.
Proof.
  revert need. induction ws as [|w ws IH]; intros need Hp Hq Hn; [done|].
  cbn [quote].
  assert (p1 w <= p2 w) by (apply Hp; left).
  assert (0 < q w) by (apply Hq; left).
  assert (quote p1 q (need - Z.min (q w) need) ws
          <= quote p2 q (need - Z.min (q w) need) ws).
  { apply IH; [intros w' Hw'; apply Hp; by right
              |intros w' Hw'; apply Hq; by right|lia]. }
  assert (p1 w * Z.min (q w) need <= p2 w * Z.min (q w) need)
    by (apply Z.mul_le_mono_nonneg_r; lia).
  lia.
Qed.

(** The keys of a shifted ledger, when no wear level overflows. *)
Lemma keys_asc_shift_ledger value led :
  ledger_typed led ->
  (forall w, is_Some (led !! w) -> Int.in_int (w + value)) ->
  keys_asc (shift_ledger value led) = (fun w => w + value) <$> keys_asc led.
Proof.
  intros Ht Hfit.
  assert (Hs : StronglySorted Z.lt ((fun w => w + value) <$> keys_asc led)).
  { apply StronglySorted_fmap with (R1 := Z.lt); [|apply keys_asc_strict].
    intros x y. lia. }
  apply (StronglySorted_unique_strong Z.lt); [intros; lia|apply keys_asc_strict|done|].
  apply NoDup_Permutation; [apply NoDup_keys_asc| |].
  - apply NoDup_fmap; [|apply NoDup_keys_asc]. intros x y. lia.
  - intros k. rewrite elem_of_keys_asc, list_elem_of_fmap. split.
    + intros [q Hq]. apply shift_ledger_lookup_Some in Hq as (w & -> & Hw); [|done].
      exists w. split; [apply add_small, Hfit; by eauto|].
      apply elem_of_keys_asc. by eauto.
    + intros (w & -> & [q Hq]%elem_of_keys_asc). exists q.
      rewrite <- add_small by (apply Hfit; by eauto).
      by apply shift_ledger_lookup.
Qed.

Lemma at_wear_shift_ledger value led w :
  ledger_typed led -> is_Some (led !! w) ->
  at_wear (shift_ledger value led) (Int.add w value) = at_wear led w.
Proof.
  intros Ht [q Hq]. rewrite (at_wear_Some _ _ _ Hq).
  apply at_wear_Some. by apply shift_ledger_lookup.
Qed.

End ageing_quote.

(** What a transfer between two different well-formed groups comes to. *)
Lemma TransferOutfits_transferred (fuel : nat) (this to : OutfitGroup)
  (outfit : N) (count : Z) (mostWornFirst : bool) (defaultWear : Z) :
  well_formed this -> well_formed to ->
  Int.in_int count -> Int.INT_MIN < count ->
  total_quantity this outfit + total_quantity to outfit <= Int.INT_MAX ->
  exists r this' to',
    TransferOutfits (S (S fuel)) this outfit count (Some to) mostWornFirst
      defaultWear = Some (r, this', Some to')
    /\ transferred this to this' to' outfit r
    /\ (outfit = nullptr -> r = 0)
    /\ (outfit <> nullptr -> 0 <= count ->
        r = Z.min count (total_quantity this outfit))
    /\ (outfit <> nullptr -> count < 0 ->
        r = - Z.min (- count) (total_quantity to outfit)).
Proof.
  intros Hwf Hwt Hc Hmin Hfit.
  pose proof (well_formed_total_nonneg this outfit Hwf) as Hn1.
  destruct (decide (count = 0 \/ outfit = nullptr)) as [Hz|Hnz].
  - exists 0, this, to. rewrite TransferOutfits_nothing by done.
    split; [done|]. split; [by apply transferred_nothing|].
    split; [done|]. split; intros Ho Hcnt; (destruct Hz as [->|?]; [lia|done]).
  - assert (Hc0 : count <> 0) by tauto. assert (Ho : outfit <> nullptr) by tauto.
    destruct (Z.ltb_spec count 0) as [Hneg|Hpos].
    + assert (Hng : Int.neg count = - count) by (by apply neg_small).
      destruct (RemoveOutfit_transferred to this outfit (- count) mostWornFirst)
        as (n & to' & this' & E & Hr & Htr); [done|done| |lia|lia|].
      { revert Hc Hmin. unfold Int.in_int, Int.INT_MIN, Int.INT_MAX. lia. }
      assert (Hnn : Int.neg n = - n).
      { apply neg_small; revert Hc Hmin Hr; unfold Int.in_int, Int.INT_MIN, Int.INT_MAX;
          pose proof (well_formed_total_nonneg to outfit Hwt); lia. }
      exists (- n), this', to'. split; [|split; [by apply transferred_sym|]].
      * cbn [TransferOutfits].
        destruct (Z.eqb_spec count 0) as [?|_]; [done|].
        destruct (N.eqb_spec outfit nullptr) as [?|_]; [done|]. cbn [orb].
        destruct (Z.ltb_spec count 0) as [_|?]; [|lia].
        rewrite Hng.
        destruct (Z.eqb_spec (- count) 0) as [?|_]; [lia|].
        cbn [orb]. destruct (Z.ltb_spec (- count) 0) as [?|_]; [lia|].
        by rewrite E, Hnn.
      * split; [intros ?; contradiction|]. split; [lia|]. intros _ _. by rewrite Hr.
    + destruct (RemoveOutfit_transferred this to outfit count mostWornFirst)
        as (r & this' & to' & E & Hr & Htr); [done|done|done|lia|lia|].
      exists r, this', to'. rewrite TransferOutfits_positive by (done || lia).
      split; [by rewrite E|]. split; [done|]. split; [intros ?; contradiction|].
      split; [done|lia].
Qed.

Section sums.
Context {A : Type}.
Implicit Types (f g : A -> Z) (l : list A).

Lemma Zsum_fmap_zero f l : (forall a, a ∈ l -> f a = 0) -> Zsum (f <$> l) = 0.
Proof.
  induction l as [|a l IH]; intros Hf; [done|].
  rewrite fmap_cons, Zsum_cons, (Hf a), IH; [done| |left].
  intros a' Ha'. apply Hf. by right.
Qed.

Lemma Zsum_fmap_plus f g l :
  Zsum ((fun a => f a + g a) <$> l) = Zsum (f <$> l) + Zsum (g <$> l).
Proof.
  induction l as [|a l IH]; [done|]. rewrite !fmap_cons, !Zsum_cons, IH. lia.
Qed.

Lemma Zsum_fmap_ext f g l :
  (forall a, a ∈ l -> f a = g a) -> Zsum (f <$> l) = Zsum (g <$> l).
Proof.
  intros Hfg. apply (f_equal Zsum), Forall_fmap_ext_1, Forall_forall. exact Hfg.
Qed.

(** A sum over a list is a sum over a shorter list outside of which the
    function is zero. *)
Lemma Zsum_fmap_support f (ws us : list A) :
  NoDup ws -> NoDup us -> (forall a, a ∈ ws -> a ∈ us) ->
  (forall a, a ∉ ws -> f a = 0) ->
  Zsum (f <$> us) = Zsum (f <$> ws).
Proof.
  intros Hws Hus Hsub Hf.
  assert (ws ⊆+ us) as [k Hk]%submseteq_Permutation by (by apply NoDup_submseteq).
  rewrite (Zsum_perm _ _ (fmap_Permutation f _ _ Hk)), fmap_app, Zsum_app.
  rewrite (Zsum_fmap_zero f k); [lia|].
  intros a Ha. apply Hf. intros Ha'.
  rewrite Hk in Hus. apply NoDup_app in Hus as (_ & Hdis & _). by apply (Hdis a).
Qed.

End sums.

Section value.
Variable objects : N -> Outfit.
Implicit Types (g : OutfitGroup) (p : N * Z).

Lemma NoDup_positions g : NoDup (positions g).
Proof.
  pose proof (positions_sorted g) as Hs.
  induction Hs as [|p ps Hs IH Hall]; [constructor|].
  apply NoDup_cons. split; [|done]. intros Hp.
  rewrite Forall_forall in Hall. specialize (Hall p Hp).
  unfold position_lt in Hall. lia.
Qed.

Lemma quantity_outside g p : p ∉ positions g -> quantity g p.1 p.2 = 0.
Proof.
  destruct p as [o w]. rewrite elem_of_positions, quantity_ledger_of. cbn [fst snd].
  unfold at_wear. destruct (ledger_of g o !! w); [|done]. intros H. destruct H. by eauto.
Qed.

(** The sum that [GetTotalCost()] computes, over any list of positions
    that covers the buckets of the group. *)
Lemma value_cover g (us : list (N * Z)) :
  NoDup us -> (forall p, p ∈ positions g -> p ∈ us) ->
  Zsum ((fun p => CostFunction (objects p.1) p.2 * quantity g p.1 p.2)
        <$> positions g)
  = Zsum ((fun p => CostFunction (objects p.1) p.2 * quantity g p.1 p.2) <$> us).
Proof.
  intros Hnd Hsub. symmetry. apply Zsum_fmap_support; [apply NoDup_positions|done|done|].
  intros p Hp. rewrite (quantity_outside g p Hp). lia.
Qed.

Lemma GetTotalCost_sums_buckets (address : nat) g (k : nat) :
  no_empty_ledger g ->
  GetTotalCost (length (positions g) + S k) objects address g
  = Returns
      (Int64.wrap
         (Zsum ((fun p => CostFunction (objects p.1) p.2 * quantity g p.1 p.2)
                <$> positions g))).
Proof.
  intros Hne. unfold GetTotalCost. rewrite for_each_begin by done.
  change 0 with (Int64.wrap 0) at 1.
  rewrite run_body_cost by apply positions_held. done.
Qed.

Lemma well_formed_no_empty_ledger g : well_formed g -> no_empty_ledger g.
Proof. intros [_ Hn] o led Hl. by destruct (Hn o led Hl). Qed.

(** Two pairs of groups that hold together the same quantities have
    together the same value. *)
Lemma value_conserved (g1 g2 h1 h2 : OutfitGroup) :
  (forall o w, quantity h1 o w + quantity h2 o w
               = quantity g1 o w + quantity g2 o w) ->
  Zsum ((fun p => CostFunction (objects p.1) p.2 * quantity h1 p.1 p.2)
        <$> positions h1)
  + Zsum ((fun p => CostFunction (objects p.1) p.2 * quantity h2 p.1 p.2)
          <$> positions h2)
  = Zsum ((fun p => CostFunction (objects p.1) p.2 * quantity g1 p.1 p.2)
          <$> positions g1)
    + Zsum ((fun p => CostFunction (objects p.1) p.2 * quantity g2 p.1 p.2)
            <$> positions g2).
Proof.
  intros Hq.
  set (U := list_to_set (positions g1 ++ positions g2 ++ positions h1 ++ positions h2)
            : gset (N * Z)).
  assert (HU : NoDup (elements U)) by apply NoDup_elements.
  assert (Hin : forall g, g = g1 \/ g = g2 \/ g = h1 \/ g = h2 ->
            forall p, p ∈ positions g -> p ∈ elements U).
  { intros g Hg p Hp. apply elem_of_elements. unfold U.
    rewrite elem_of_list_to_set, !elem_of_app.
    destruct Hg as [->|[->|[->| ->]]]; tauto. }
  rewrite (value_cover h1 _ HU), (value_cover h2 _ HU), (value_cover g1 _ HU),
    (value_cover g2 _ HU) by (apply Hin; tauto).
  rewrite <- !Zsum_fmap_plus. apply Zsum_fmap_ext. intros [o w] _. cbn [fst snd].
  specialize (Hq o w). nia.
Qed.

End value.

(** ** Theorems *)

(** C10: whatever the state of the group, the outfit, the wear level and
    the count (zero and negative counts included, bucket present or not),
    [AddOutfit] returns its [count] argument. *)
Theorem AddOutfit_returns_count (this : OutfitGroup) (outfit : N) (count wear : Z) :
  (AddOutfit this outfit count wear).2 = count.
Proof.
  unfold AddOutfit. destruct (this !! outfit) as [led|]; reflexivity.
Qed.

(** C3: on a well-formed group and for a positive count, [RemoveOutfit]
    removes [min (count, units held)] units of the outfit and returns that
    number; the other outfits are untouched, every bucket left is strictly
    positive (none is negative), and the value returned is 0 when the
    group holds none of the outfit. [GetTotalCount] reports the same
    numbers when the units held fit in an [int]. *)
Theorem RemoveOutfit_removes_min (this : OutfitGroup) (outfit : N) (count : Z)
  (mostWornFirst : bool) (to : option OutfitGroup) :
  well_formed this -> Int.in_int count -> 0 < count ->
  let r := (RemoveOutfit this outfit count mostWornFirst to).1.1 in
  let this' := (RemoveOutfit this outfit count mostWornFirst to).1.2 in
  r = Z.min count (total_quantity this outfit)
  /\ total_quantity this' outfit = total_quantity this outfit - r
  /\ (forall outfit', outfit' <> outfit -> this' !! outfit' = this !! outfit')
  /\ well_formed this'
  /\ (forall outfit' w, 0 <= quantity this' outfit' w)
  /\ (this !! outfit = None -> r = 0)
  /\ (total_quantity this outfit <= Int.INT_MAX ->
      r = Z.min count (GetTotalCount this outfit)
      /\ GetTotalCount this' outfit = GetTotalCount this outfit - r).
Proof.
  intros Hwf Hc Hpos r this'.
  assert (Hnn : forall g : OutfitGroup, well_formed g ->
            forall o w, 0 <= quantity g o w).
  { intros g [_ Hg] o w. unfold quantity, at_wear.
    destruct (g !! o) as [l|] eqn:E; [|done].
    destruct (l !! w) as [q|] eqn:E'; [|done]. cbn.
    destruct (Hg o l E) as [_ Hp]. specialize (Hp w q E'). cbn in Hp. lia. }
  assert (Htot : forall g : OutfitGroup, well_formed g ->
            forall o, 0 <= total_quantity g o).
  { intros g [_ Hg] o. unfold total_quantity.
    destruct (g !! o) as [l|] eqn:E; [|done].
    destruct (Hg o l E) as [_ Hp]. by apply ledger_total_nonneg. }
  assert (Hmain : r = Z.min count (total_quantity this outfit)
            /\ total_quantity this' outfit = total_quantity this outfit - r
            /\ (forall outfit', outfit' <> outfit -> this' !! outfit' = this !! outfit')
            /\ well_formed this').
  { subst r this'. unfold total_quantity at 1 3.
    destruct (this !! outfit) as [led|] eqn:Hl.
    - destruct Hwf as [Hty Hne]. pose proof (Hty outfit led Hl) as Hlt.
      destruct (Hne outfit led Hl) as [_ Hlp]. cbn in Hlt.
      rewrite (RemoveOutfit_spec this outfit count mostWornFirst to led) by done.
      cbn [fst snd].
      set (ws := if mostWornFirst then keys_desc led else keys_asc led).
      set (t := taken (at_wear led) count ws).
      assert (Hperm : ws ≡ₚ keys_asc led).
      { unfold ws, keys_desc. destruct mostWornFirst; [apply reverse_Permutation|done]. }
      assert (Hin : forall w, w ∈ ws <-> is_Some (led !! w)).
      { intros w. rewrite Hperm. apply elem_of_keys_asc. }
      assert (Hnd : NoDup ws) by (rewrite Hperm; apply NoDup_keys_asc).
      assert (Hb : forall w q, led !! w = Some q -> 0 <= t w <= q).
      { intros w q. by apply taken_within. }
      assert (Hsum : Zsum (t <$> ws) = Z.min count (ledger_total led)).
      { unfold t. rewrite taken_sum; [|done| |lia].
        - by rewrite (ledger_total_keys led ws).
        - intros w' [q' Hq']%Hin. rewrite (at_wear_Some _ _ _ Hq'). by eapply Hlp. }
      split; [done|]. split; [|split].
      + unfold total_quantity. rewrite lookup_store, decide_True by done.
        pose proof (ledger_total_withdrawn t led ws Hperm) as Hw.
        case_decide as He; [|done]. rewrite He, ledger_total_empty in Hw. lia.
      + intros o' Ho. rewrite lookup_store. by rewrite decide_False.
      + apply store_well_formed; [done| |].
        * by apply withdrawn_typed.
        * by apply withdrawn_positive.
    - unfold RemoveOutfit. rewrite Hl. cbn [fst snd]. unfold total_quantity.
      rewrite Hl. split; [lia|]. split; [lia|]. done. }
  destruct Hmain as (Hr & Ht & Ho & Hwf'). split; [done|]. split; [done|].
  split; [done|]. split; [done|]. split; [by apply Hnn|]. split.
  - intros Hn. rewrite Hr. unfold total_quantity. rewrite Hn. lia.
  - intros Hfit. rewrite !GetTotalCount_wrap.
    pose proof (Htot this Hwf outfit). pose proof (Htot this' Hwf' outfit).
    rewrite !wrap_small by (unfold Int.in_int, Int.INT_MIN, Int.INT_MAX in *; lia).
    done.
Qed.

Lemma RemoveOutfit_removes_min_witness :
  let this : OutfitGroup := {[ 1%N := {[ 0 := 3; 5 := 2 ]} ]} in
  well_formed this /\ Int.in_int 4 /\ 0 < 4 /\
  (RemoveOutfit this 1%N 4 false None).1.1 = Z.min 4 (total_quantity this 1%N).
Proof.
  intros this.
  assert (H1 : well_formed this) by compute_done.
  assert (H2 : Int.in_int 4) by compute_done.
  assert (H3 : 0 < 4) by lia.
  split; [exact H1|]. split; [exact H2|]. split; [exact H3|].
  exact (proj1 (RemoveOutfit_removes_min this 1%N 4 false None H1 H2 H3)).
Defined.

(** C4: with [mostWornFirst] set, [RemoveOutfit] drains the buckets from
    the most worn down: from the bucket at wear [w] it takes what is still
    needed once every more worn unit is taken, at most the bucket. For the
    ledger {0: 3, 5: 2} and a count of 4 the bucket at wear 5 is erased
    and the bucket at wear 0 is left with 1. *)
Theorem RemoveOutfit_most_worn_first (this : OutfitGroup) (outfit : N)
  (count : Z) (to : option OutfitGroup) (led : InnerMap) :
  well_formed this -> Int.in_int count -> 0 < count ->
  this !! outfit = Some led ->
  (forall w,
     quantity (RemoveOutfit this outfit count true to).1.2 outfit w
     = at_wear led w
       - Z.min (at_wear led w) (Z.max 0 (count - more_worn led w)))
  /\ (forall o : N,
        RemoveOutfit {[ o := {[ 0 := 3; 5 := 2 ]} ]} o 4 true None
        = (4, {[ o := {[ 0 := 1 ]} ]}, None)).
Proof.
  intros [Hty Hne] Hc Hpos Hl. split.
  - pose proof (Hty outfit led Hl) as Hlt. destruct (Hne outfit led Hl) as [_ Hlp].
    cbn in Hlt. intros w.
    rewrite (RemoveOutfit_spec this outfit count true to led) by done.
    cbn [fst snd]. rewrite quantity_store, decide_True by done.
    assert (Hin : forall w, w ∈ keys_desc led <-> is_Some (led !! w))
      by apply elem_of_keys_desc.
    assert (Hq : forall w', w' ∈ keys_desc led -> 0 < at_wear led w').
    { intros w' [q' Hq']%Hin. rewrite (at_wear_Some _ _ _ Hq'). by eapply Hlp. }
    destruct (led !! w) as [q|] eqn:Hw.
    + rewrite at_wear_withdrawn by congruence. f_equal.
      rewrite (taken_sorted (flip Z.lt)); [|unfold flip; lia|unfold flip; lia
        |apply keys_desc_strict|done|lia|apply Hin; eauto].
      by rewrite (more_worn_keys led (keys_desc led)) by apply reverse_Permutation.
    + rewrite at_wear_withdrawn.
      * rewrite taken_not_elem, (at_wear_None _ _ Hw).
        -- pose proof (Z.le_max_l 0 (count - more_worn led w)). lia.
        -- rewrite Hin, Hw. by intros [? ?].
      * intros _. apply taken_not_elem. rewrite Hin, Hw. by intros [? ?].
  - intros o. unfold RemoveOutfit. rewrite lookup_singleton_eq.
    set (led0 := ({[ 0 := 3; 5 := 2 ]} : InnerMap)).
    set (st := erase_marked (drain_most_worn o 4 (keys_desc led0)
                 {| ledger := led0; dest := None; removed := 0; toErase := [] |})).
    assert (Hr : removed st = 4) by (vm_compute; reflexivity).
    assert (Hled : ledger st = {[ 0 := 1 ]}) by (vm_compute; reflexivity).
    assert (Hd : dest st = None) by (vm_compute; reflexivity).
    rewrite Hr, Hled, Hd. unfold store.
    rewrite bool_decide_eq_false_2 by apply insert_non_empty.
    by rewrite insert_singleton_eq.
Qed.

Lemma RemoveOutfit_most_worn_first_witness :
  let led : InnerMap := {[ 0 := 3; 5 := 2; 9 := 4 ]} in
  let this : OutfitGroup := {[ 1%N := led ]} in
  well_formed this /\ Int.in_int 5 /\ 0 < 5 /\ this !! 1%N = Some led /\
  forall w,
    quantity (RemoveOutfit this 1%N 5 true None).1.2 1%N w
    = at_wear led w - Z.min (at_wear led w) (Z.max 0 (5 - more_worn led w)).
Proof.
  intros led this.
  assert (H1 : well_formed this) by compute_done.
  assert (H2 : Int.in_int 5) by compute_done.
  assert (H3 : 0 < 5) by lia.
  assert (H4 : this !! 1%N = Some led) by reflexivity.
  split; [exact H1|]. split; [exact H2|]. split; [exact H3|]. split; [exact H4|].
  exact (proj1 (RemoveOutfit_most_worn_first this 1%N 5 None led H1 H2 H3 H4)).
Defined.

(** C2, as stated, does not hold: a group that already holds the outfit
    gives back its own most worn units, not the ones it received. Group A
    holds two units at wear 0 and group B three units at wear 5; two units
    go from A to B and two units come back, most worn first both times:
    A ends with two units at wear 5. *)
Lemma TransferOutfits_round_trip_counterexample :
  2 <= GetTotalCount {[ 1%N := {[ 0 := 2 ]} ]} 1%N
  /\ TransferOutfits 2 {[ 1%N := {[ 0 := 2 ]} ]} 1%N 2
       (Some {[ 1%N := {[ 5 := 3 ]} ]}) true 0
     = Some (2, ∅, Some {[ 1%N := {[ 0 := 2; 5 := 3 ]} ]})
  /\ TransferOutfits 2 {[ 1%N := {[ 0 := 2; 5 := 3 ]} ]} 1%N 2 (Some ∅) true 0
     = Some (2, {[ 1%N := {[ 0 := 2; 5 := 1 ]} ]}, Some {[ 1%N := {[ 5 := 2 ]} ]})
  /\ ({[ 1%N := {[ 5 := 2 ]} ]} : OutfitGroup) !! 1%N
     <> ({[ 1%N := {[ 0 := 2 ]} ]} : OutfitGroup) !! 1%N.
Proof.
  split; [by vm_compute|]. split; [by vm_compute|]. split; [by vm_compute|].
  by vm_compute.
Qed.

(** C2, amended: when group B holds none of the outfit, [n] is not
    negative and A and B are two well-formed groups, transferring [n]
    units of the outfit from A to B and then [n] units from B to A leaves
    A and B as they were, whatever the disposal order of either transfer,
    and whether or not A holds [n] units. *)
Theorem TransferOutfits_round_trip (A B : OutfitGroup) (outfit : N) (n : Z)
  (fuel1 fuel2 : nat) (mostWornFirst1 mostWornFirst2 : bool)
  (defaultWear1 defaultWear2 : Z) :
  well_formed A -> well_formed B -> B !! outfit = None ->
  Int.in_int n -> 0 <= n ->
  exists r1 r2 A1 B1,
    TransferOutfits (S fuel1) A outfit n (Some B) mostWornFirst1 defaultWear1
    = Some (r1, A1, Some B1)
    /\ TransferOutfits (S fuel2) B1 outfit n (Some A1) mostWornFirst2 defaultWear2
       = Some (r2, B, Some A).
Proof.
  intros HA HB HBo Hn Hpos.
  destruct (decide (n = 0 \/ outfit = nullptr)) as [Hz|Hnz].
  - exists 0, 0, A, B. by rewrite !TransferOutfits_nothing.
  - assert (0 < n) by (destruct (decide (n = 0)); [tauto|lia]).
    assert (outfit <> nullptr) by tauto.
    destruct (RemoveOutfit_round_trip A B outfit n mostWornFirst1 mostWornFirst2)
      as (r1 & r2 & A1 & B1 & E1 & E2); [done..|].
    exists r1, r2, A1, B1. rewrite !TransferOutfits_positive by done.
    by rewrite E1, E2.
Qed.

Lemma TransferOutfits_round_trip_witness :
  well_formed {[ 1%N := {[ 0 := 2; 7 := 4 ]} ]}
  /\ well_formed {[ 2%N := {[ 5 := 3 ]} ]}
  /\ ({[ 2%N := {[ 5 := 3 ]} ]} : OutfitGroup) !! 1%N = None
  /\ Int.in_int 3 /\ 0 <= 3
  /\ exists r1 r2 A1 B1,
       TransferOutfits 2 {[ 1%N := {[ 0 := 2; 7 := 4 ]} ]} 1%N 3
         (Some {[ 2%N := {[ 5 := 3 ]} ]}) true 0
       = Some (r1, A1, Some B1)
       /\ TransferOutfits 2 B1 1%N 3 (Some A1) false 0
          = Some (r2, {[ 2%N := {[ 5 := 3 ]} ]},
                  Some {[ 1%N := {[ 0 := 2; 7 := 4 ]} ]}).
Proof.
  assert (H1 : well_formed {[ 1%N := {[ 0 := 2; 7 := 4 ]} ]}) by compute_done.
  assert (H2 : well_formed {[ 2%N := {[ 5 := 3 ]} ]}) by compute_done.
  assert (H3 : ({[ 2%N := {[ 5 := 3 ]} ]} : OutfitGroup) !! 1%N = None) by reflexivity.
  assert (H4 : Int.in_int 3) by compute_done.
  assert (H5 : 0 <= 3) by lia.
  split; [exact H1|]. split; [exact H2|]. split; [exact H3|].
  split; [exact H4|]. split; [exact H5|].
  exact (TransferOutfits_round_trip _ _ 1%N 3 1 1 true false 0 0 H1 H2 H3 H4 H5).
Defined.

(** C8: after [IncrementWear k], every bucket that held [q] units at wear
    [w] holds [q] units at wear [w + k] (the sum being the [int] sum, which
    is [w + k] itself whenever that is representable), there is no other
    bucket, and [GetTotalCount] is the same for every outfit. *)
Theorem IncrementWear_shifts_buckets (this : OutfitGroup) (k : Z) :
  typed this ->
  (forall outfit w q, bucket this outfit w q ->
     bucket (IncrementWear k this) outfit (Int.add w k) q)
  /\ (forall outfit w q, bucket this outfit w q -> Int.in_int (w + k) ->
        bucket (IncrementWear k this) outfit (w + k) q)
  /\ (forall outfit w' q, bucket (IncrementWear k this) outfit w' q ->
        exists w, w' = Int.add w k /\ bucket this outfit w q)
  /\ (forall outfit,
        GetTotalCount (IncrementWear k this) outfit = GetTotalCount this outfit).
Proof.
  intros Ht.
  assert (H1 : forall outfit w q, bucket this outfit w q ->
            bucket (IncrementWear k this) outfit (Int.add w k) q).
  { unfold bucket, ledger_of. intros o w q. rewrite IncrementWear_lookup.
    destruct (this !! o) as [led|] eqn:E; cbn; [|by rewrite lookup_empty].
    by apply shift_ledger_lookup, (Ht o). }
  split; [exact H1|]. split; [|split].
  - intros o w q Hb Hi. rewrite <- (add_small w k Hi). by apply H1.
  - unfold bucket, ledger_of. intros o w' q. rewrite IncrementWear_lookup.
    destruct (this !! o) as [led|] eqn:E; cbn; [|by rewrite lookup_empty].
    by apply shift_ledger_lookup_inv, (Ht o).
  - intros o. rewrite !GetTotalCount_wrap. f_equal. unfold total_quantity.
    rewrite IncrementWear_lookup. destruct (this !! o) as [led|] eqn:E; cbn; [|done].
    by apply shift_ledger_total, (Ht o).
Qed.

Lemma IncrementWear_shifts_buckets_witness :
  typed {[ 1%N := {[ 0 := 3; 5 := 2 ]} ]}
  /\ forall outfit w q, bucket {[ 1%N := {[ 0 := 3; 5 := 2 ]} ]} outfit w q ->
       bucket (IncrementWear 10 {[ 1%N := {[ 0 := 3; 5 := 2 ]} ]}) outfit
         (Int.add w 10) q.
Proof.
  assert (H : typed {[ 1%N := {[ 0 := 3; 5 := 2 ]} ]}) by compute_done.
  split; [exact H|].
  exact (proj1 (IncrementWear_shifts_buckets _ 10 H)).
Defined.

Example IncrementWear_example :
  IncrementWear 10 {[ 1%N := {[ 0 := 3; 5 := 2 ]} ]}
  = {[ 1%N := {[ 10 := 3; 15 := 2 ]} ]}.
Proof. by vm_compute. Qed.

(** C1 fails on [AddOutfit]: asked to add zero units of an outfit that the
    group does not hold, it stores the count as it is, and the group has a
    bucket of quantity zero; the same happens at a new wear level of an
    outfit that the group holds. The branch of a bucket that exists does
    test the quantity and erases the bucket, and the ledger, that it
    leaves at zero. *)
Theorem AddOutfit_stores_zero_bucket :
  run [CallAddOutfit 0 1%N 0 0] [∅] = Some [ {[ 1%N := {[ 0 := 0 ]} ]} ]
  /\ bucket {[ 1%N := {[ 0 := 0 ]} ]} 1%N 0 0
  /\ ~ no_empty_buckets {[ 1%N := {[ 0 := 0 ]} ]}
  /\ (AddOutfit {[ 1%N := {[ 5 := 2 ]} ]} 1 0 7).1
     = {[ 1%N := {[ 5 := 2; 7 := 0 ]} ]}
  /\ (AddOutfit {[ 1%N := {[ 0 := 3; 5 := 2 ]} ]} 1 (-3) 0).1
     = {[ 1%N := {[ 5 := 2 ]} ]}
  /\ (AddOutfit {[ 1%N := {[ 0 := 3 ]} ]} 1 (-3) 0).1 = ∅.
Proof.
  split; [by vm_compute|]. split; [by vm_compute|]. split; [compute_done|].
  split; [by vm_compute|]. split; by vm_compute.
Qed.

(** C9 fails on [operator==]: the cursor advanced past the only bucket of
    a group and the cursor [end()] of the group are both exhausted, and
    [operator!=] says they do not differ, but [operator==] says they are
    not equal, because it compares the positions and not [isEnd]. *)
Theorem operator_eq_exhausted :
  isEnd (operator_incr {[ 1%N := {[ 0 := 3 ]} ]}
           (begin_ 0 {[ 1%N := {[ 0 := 3 ]} ]})) = true
  /\ isEnd (end_ 0 {[ 1%N := {[ 0 := 3 ]} ]}) = true
  /\ same_cursor (operator_incr {[ 1%N := {[ 0 := 3 ]} ]}
                    (begin_ 0 {[ 1%N := {[ 0 := 3 ]} ]}))
                 (end_ 0 {[ 1%N := {[ 0 := 3 ]} ]})
  /\ operator_ne (operator_incr {[ 1%N := {[ 0 := 3 ]} ]}
                    (begin_ 0 {[ 1%N := {[ 0 := 3 ]} ]}))
                 (end_ 0 {[ 1%N := {[ 0 := 3 ]} ]}) = false
  /\ operator_eq (operator_incr {[ 1%N := {[ 0 := 3 ]} ]}
                    (begin_ 0 {[ 1%N := {[ 0 := 3 ]} ]}))
                 (end_ 0 {[ 1%N := {[ 0 := 3 ]} ]}) = false.
Proof.
  split; [by vm_compute|]. split; [by vm_compute|].
  split; [left; by vm_compute|]. split; by vm_compute.
Qed.

(** C5, as stated, does not hold: at wear 126 the factor is
    0.90 - 0.0020 * 125 = 0.65, and the cost is 650, not 400. *)
Lemma CostFunction_worked_example_counterexample :
  CostFunction outfit_1000 126 = 650 /\ CostFunction outfit_1000 126 <> 400.
Proof. split; by vm_compute. Qed.

(** C5, amended: for an outfit of base cost 1000 that is neither ageless
    nor ammunition, under the default constants, the cost is 1000 at wear
    0, 900 at wear 1 and 650 at wear 126; the floor of 400 is reached at
    wear 251 (the cost is 402 at wear 250). *)
Theorem CostFunction_worked_example (outfit : Outfit) :
  Cost outfit = 1000 ->
  Double.nonzero (Get outfit "ageless") = false ->
  Category outfit <> "Ammunition" ->
  CostFunction outfit 0 = 1000
  /\ CostFunction outfit 1 = 900
  /\ CostFunction outfit 126 = 650
  /\ CostFunction outfit 250 = 402
  /\ CostFunction outfit 251 = 400
  /\ CostFunction outfit 252 = 400.
Proof.
  intros Hc Ha Hm. unfold CostFunction.
  rewrite Hc, Ha, bool_decide_eq_false_2 by done. cbn [orb].
  repeat split; by vm_compute.
Qed.

Lemma CostFunction_worked_example_witness :
  Cost outfit_1000 = 1000
  /\ Double.nonzero (Get outfit_1000 "ageless") = false
  /\ Category outfit_1000 <> "Ammunition"
  /\ CostFunction outfit_1000 126 = 650.
Proof.
  assert (H1 : Cost outfit_1000 = 1000) by reflexivity.
  assert (H2 : Double.nonzero (Get outfit_1000 "ageless") = false) by reflexivity.
  assert (H3 : Category outfit_1000 <> "Ammunition") by (by vm_compute).
  split; [exact H1|]. split; [exact H2|]. split; [exact H3|].
  exact (proj1 (proj2 (proj2 (CostFunction_worked_example outfit_1000 H1 H2 H3)))).
Defined.

(** C7, as stated, does not hold for a base cost that [double] cannot
    represent: the cost is multiplied by [1.] in [double], and 2 ^ 53 + 1
    comes back as 2 ^ 53. *)
Lemma CostFunction_ageless_counterexample :
  Double.nonzero (Get outfit_ageless_huge "ageless") = true
  /\ Cost outfit_ageless_huge = 9007199254740993
  /\ CostFunction outfit_ageless_huge 5 = 9007199254740992.
Proof. repeat split; by vm_compute. Qed.

(** C7, amended: for every outfit that is flagged ageless or whose
    category is "Ammunition", and whose base cost is below 2 ^ 53 in
    absolute value, [CostFunction] returns the base cost at every wear
    level. *)
Theorem CostFunction_ageless (outfit : Outfit) (wear : Z) :
  Double.nonzero (Get outfit "ageless") = true
  \/ Category outfit = "Ammunition" ->
  - 2 ^ 53 < Cost outfit < 2 ^ 53 ->
  CostFunction outfit wear = Cost outfit.
Proof.
  intros Ha Hc. unfold CostFunction.
  assert (Double.nonzero (Get outfit "ageless")
          || bool_decide (Category outfit = "Ammunition") = true) as ->.
  { destruct Ha as [Ha|Ha]; [by rewrite Ha|].
    rewrite (bool_decide_eq_true_2 _ Ha). apply orb_true_r. }
  change (CostFunction_wear 0) with Double.one.
  by apply to_int64_of_int.
Qed.

Lemma CostFunction_ageless_witness :
  (Double.nonzero (Get outfit_ammunition "ageless") = true
   \/ Category outfit_ammunition = "Ammunition")
  /\ - 2 ^ 53 < Cost outfit_ammunition < 2 ^ 53
  /\ CostFunction outfit_ammunition 200 = Cost outfit_ammunition.
Proof.
  assert (H1 : Double.nonzero (Get outfit_ammunition "ageless") = true
               \/ Category outfit_ammunition = "Ammunition") by (right; reflexivity).
  assert (H2 : - 2 ^ 53 < Cost outfit_ammunition < 2 ^ 53) by (cbn; lia).
  split; [exact H1|]. split; [exact H2|].
  exact (CostFunction_ageless outfit_ammunition 200 H1 H2).
Defined.

(** C6, as stated, does not hold: a negative base cost grows toward zero
    with the wear level, and a base cost that [double] cannot represent
    does not come back at wear 0. *)
Lemma CostFunction_monotone_counterexample :
  Double.nonzero (Get outfit_negative "ageless") = false
  /\ Category outfit_negative <> "Ammunition"
  /\ CostFunction outfit_negative 0 = -1000
  /\ CostFunction outfit_negative 1 = -900
  /\ ~ (CostFunction outfit_negative 0 >= CostFunction outfit_negative 1)
  /\ Cost outfit_huge = 9007199254740993
  /\ CostFunction outfit_huge 0 = 9007199254740992.
Proof. repeat split; by vm_compute. Qed.

(** C6, amended: for every outfit that is neither ageless nor
    ammunition and whose base cost is between 0 and 2 ^ 53, the cost does
    not increase with the wear level (for wear levels from 0 to
    [INT_MAX]), and the cost at wear 0 is the base cost. *)
Theorem CostFunction_monotone (outfit : Outfit) (w1 w2 : Z) :
  Double.nonzero (Get outfit "ageless") = false ->
  Category outfit <> "Ammunition" ->
  0 <= Cost outfit < 2 ^ 53 ->
  0 <= w1 <= w2 -> w2 <= Int.INT_MAX ->
  CostFunction outfit w1 >= CostFunction outfit w2
  /\ CostFunction outfit 0 = Cost outfit.
Proof.
  intros Ha Hm Hc Hw Hmax. unfold CostFunction.
  rewrite Ha, bool_decide_eq_false_2 by done. cbn [orb]. split.
  - apply Z.le_ge, cost_factor_mono; [done| | |].
    + apply CostFunction_wear_canonical. lia.
    + apply CostFunction_wear_canonical. lia.
    + by apply CostFunction_wear_antitone.
  - change (CostFunction_wear 0) with Double.one. apply to_int64_of_int. lia.
Qed.

Lemma CostFunction_monotone_witness :
  Double.nonzero (Get outfit_1000 "ageless") = false
  /\ Category outfit_1000 <> "Ammunition"
  /\ 0 <= Cost outfit_1000 < 2 ^ 53
  /\ 0 <= 3 <= 200 /\ 200 <= Int.INT_MAX
  /\ CostFunction outfit_1000 3 >= CostFunction outfit_1000 200.
Proof.
  assert (H1 : Double.nonzero (Get outfit_1000 "ageless") = false) by reflexivity.
  assert (H2 : Category outfit_1000 <> "Ammunition") by (by vm_compute).
  assert (H3 : 0 <= Cost outfit_1000 < 2 ^ 53) by (cbn; lia).
  assert (H4 : 0 <= 3 <= 200) by lia.
  assert (H5 : 200 <= Int.INT_MAX) by (by vm_compute).
  split; [exact H1|]. split; [exact H2|]. split; [exact H3|].
  split; [exact H4|]. split; [exact H5|].
  exact (proj1 (CostFunction_monotone outfit_1000 3 200 H1 H2 H3 H4 H5)).
Defined.
(** ** Further properties of the code *)

(** X1: [GetMinWear] and [GetMaxWear] return -1 for an outfit that the
    group does not hold; when the group holds a bucket of the outfit, they
    return wear levels at which there is a bucket, and the wear level of
    every bucket of the outfit lies between them. *)
Theorem GetMinWear_GetMaxWear_range (this : OutfitGroup) (outfit : N) :
  (this !! outfit = None ->
   GetMinWear this outfit = -1 /\ GetMaxWear this outfit = -1)
  /\ (forall w q, bucket this outfit w q ->
        GetMinWear this outfit <= w <= GetMaxWear this outfit
        /\ (exists q1, bucket this outfit (GetMinWear this outfit) q1)
        /\ (exists q2, bucket this outfit (GetMaxWear this outfit) q2)).
Proof.
  split.
  - intros Hl. unfold GetMinWear, GetMaxWear, Find. by rewrite Hl.
  - intros w q. unfold bucket, ledger_of.
    destruct (this !! outfit) as [led|] eqn:Hl; [|by rewrite lookup_empty].
    intros Hw.
    assert (Hne : led <> ∅) by (intros ->; by rewrite lookup_empty in Hw).
    destruct (GetMinWear_lookup _ _ _ Hl Hne) as [Hmin Hle].
    destruct (GetMaxWear_lookup _ _ _ Hl Hne) as [Hmax Hge].
    split; [|done]. split; [apply Hle|apply Hge]; eauto.
Qed.

(** X2: ageing shifts the range of the wear levels: in a group whose
    values are of type [int] and that holds the outfit, when neither
    [GetMinWear + value] nor [GetMaxWear + value] leaves the range of
    [int], [IncrementWear(value)] moves [GetMinWear] and [GetMaxWear] of
    the outfit by [value]. *)
Theorem IncrementWear_wear_range (value : Z) (this : OutfitGroup) (outfit : N)
  (led : InnerMap) :
  typed this -> this !! outfit = Some led -> led <> ∅ ->
  Int.INT_MIN <= GetMinWear this outfit + value ->
  GetMaxWear this outfit + value <= Int.INT_MAX ->
  GetMinWear (IncrementWear value this) outfit = GetMinWear this outfit + value
  /\ GetMaxWear (IncrementWear value this) outfit = GetMaxWear this outfit + value.
Proof.
  intros Ht Hl Hne Hlo Hhi.
  destruct (GetMinWear_lookup _ _ _ Hl Hne) as [[q1 Hmin] Hle].
  destruct (GetMaxWear_lookup _ _ _ Hl Hne) as [[q2 Hmax] Hge].
  assert (Htl : ledger_typed led) by (by eapply Ht).
  assert (Hin : forall w, is_Some (led !! w) -> Int.add w value = w + value).
  { intros w Hw. specialize (Hle _ Hw). specialize (Hge _ Hw).
    unfold Int.add. apply wrap_small. unfold Int.in_int. lia. }
  assert (Hl' : IncrementWear value this !! outfit = Some (shift_ledger value led)).
  { by rewrite IncrementWear_lookup, Hl. }
  split.
  - apply (GetMinWear_unique _ _ _ _ Hl').
    + exists q1. rewrite <- (Hin (GetMinWear this outfit)) by eauto.
      by apply shift_ledger_lookup.
    + intros k [q Hk]. apply shift_ledger_lookup_inv in Hk as (w & -> & Hw); [|done].
      rewrite Hin by eauto. specialize (Hle w (ltac:(eauto))). lia.
  - apply (GetMaxWear_unique _ _ _ _ Hl').
    + exists q2. rewrite <- (Hin (GetMaxWear this outfit)) by eauto.
      by apply shift_ledger_lookup.
    + intros k [q Hk]. apply shift_ledger_lookup_inv in Hk as (w & -> & Hw); [|done].
      rewrite Hin by eauto. specialize (Hge w (ltac:(eauto))). lia.
Qed.

Lemma IncrementWear_wear_range_witness :
  GetMinWear (IncrementWear 7 {[ 1%N := {[ 0 := 3; 5 := 2 ]} ]}) 1 = 7
  /\ GetMaxWear (IncrementWear 7 {[ 1%N := {[ 0 := 3; 5 := 2 ]} ]}) 1 = 12.
Proof.
  assert (H1 : typed {[ 1%N := {[ 0 := 3; 5 := 2 ]} ]}) by compute_done.
  assert (H2 : ({[ 1%N := {[ 0 := 3; 5 := 2 ]} ]} : OutfitGroup) !! 1%N
               = Some {[ 0 := 3; 5 := 2 ]}) by reflexivity.
  assert (H3 : ({[ 0 := 3; 5 := 2 ]} : InnerMap) <> ∅) by compute_done.
  assert (H4 : Int.INT_MIN <= GetMinWear {[ 1%N := {[ 0 := 3; 5 := 2 ]} ]} 1 + 7)
    by (by vm_compute).
  assert (H5 : GetMaxWear {[ 1%N := {[ 0 := 3; 5 := 2 ]} ]} 1 + 7 <= Int.INT_MAX)
    by (by vm_compute).
  exact (IncrementWear_wear_range 7 _ 1 _ H1 H2 H3 H4 H5).
Defined.

(** X3: [AddOutfit] changes the count of the outfit by [count], in the
    arithmetic of [int], and the count of no other outfit. *)
Theorem AddOutfit_GetTotalCount (this : OutfitGroup) (outfit outfit' : N)
  (count wear : Z) :
  GetTotalCount (AddOutfit this outfit count wear).1 outfit'
  = if decide (outfit = outfit')
    then Int.add (GetTotalCount this outfit) count
    else GetTotalCount this outfit'.
Proof.
  case_decide as Ho.
  - subst outfit'. rewrite !GetTotalCount_wrap, total_quantity_AddOutfit.
    rewrite ledger_total_added_ledger. unfold Int.add. by rewrite wrap_wrap_add.
  - unfold GetTotalCount. by rewrite AddOutfit_lookup, decide_False.
Qed.

(** X4: [AddOutfit] with the negated count undoes an [AddOutfit] at the
    same wear level: a well-formed group is back to what it was, whatever
    the count, zero and negative counts included. *)
Theorem AddOutfit_negated_count_undoes (this : OutfitGroup) (outfit : N)
  (count wear : Z) :
  well_formed this ->
  (AddOutfit (AddOutfit this outfit count wear).1 outfit (Int.neg count) wear).1
  = this.
Proof. apply AddOutfit_undo. Qed.

Lemma AddOutfit_negated_count_undoes_witness :
  (AddOutfit (AddOutfit {[ 1%N := {[ 0 := 3; 5 := 2 ]} ]} 1 4 5).1 1 (Int.neg 4) 5).1
  = {[ 1%N := {[ 0 := 3; 5 := 2 ]} ]}.
Proof.
  assert (H1 : well_formed {[ 1%N := {[ 0 := 3; 5 := 2 ]} ]}) by compute_done.
  exact (AddOutfit_negated_count_undoes _ 1 4 5 H1).
Defined.

(** X5: a transfer between two different well-formed groups creates and
    destroys nothing. At every wear level of every outfit the two groups
    hold together what they held before, the other outfits are not
    touched, and the value returned is the number of units that went from
    [*this] to [*to]: min(count, what [*this] held) for a positive count
    and, for a negative count, minus min(-count, what [*to] held), the
    units going the other way. Both groups stay well formed. *)
Theorem TransferOutfits_conserves (fuel : nat) (this to : OutfitGroup)
  (outfit : N) (count : Z) (mostWornFirst : bool) (defaultWear : Z) :
  well_formed this -> well_formed to ->
  Int.in_int count -> Int.INT_MIN < count ->
  total_quantity this outfit + total_quantity to outfit <= Int.INT_MAX ->
  exists r this' to',
    TransferOutfits (S (S fuel)) this outfit count (Some to) mostWornFirst
      defaultWear = Some (r, this', Some to')
    /\ transferred this to this' to' outfit r
    /\ (outfit = nullptr -> r = 0)
    /\ (outfit <> nullptr -> 0 <= count ->
        r = Z.min count (total_quantity this outfit))
    /\ (outfit <> nullptr -> count < 0 ->
        r = - Z.min (- count) (total_quantity to outfit)).
Proof. apply TransferOutfits_transferred. Qed.

Lemma TransferOutfits_conserves_witness :
  exists r this' to',
    TransferOutfits 2 {[ 1%N := {[ 0 := 3; 5 := 2 ]} ]} 1 (-2)
      (Some {[ 1%N := {[ 5 := 3 ]} ]}) true 0 = Some (r, this', Some to')
    /\ transferred {[ 1%N := {[ 0 := 3; 5 := 2 ]} ]} {[ 1%N := {[ 5 := 3 ]} ]}
         this' to' 1 r
    /\ r = -2.
Proof.
  assert (H1 : well_formed {[ 1%N := {[ 0 := 3; 5 := 2 ]} ]}) by compute_done.
  assert (H2 : well_formed {[ 1%N := {[ 5 := 3 ]} ]}) by compute_done.
  assert (H3 : Int.in_int (-2)) by compute_done.
  assert (H4 : Int.INT_MIN < -2) by (by vm_compute).
  assert (H5 : total_quantity {[ 1%N := {[ 0 := 3; 5 := 2 ]} ]} 1
               + total_quantity {[ 1%N := {[ 5 := 3 ]} ]} 1 <= Int.INT_MAX)
    by (by vm_compute).
  destruct (TransferOutfits_conserves 0 _ _ 1 (-2) true 0 H1 H2 H3 H4 H5)
    as (r & this' & to' & E & Ht & _ & _ & Hr).
  exists r, this', to'. split; [exact E|]. split; [exact Ht|].
  rewrite Hr; [reflexivity|done|lia].
Defined.

(** X6: a transfer from nowhere adds. With no destination and a negative
    count, [TransferOutfits] creates [-count] units of the outfit at the
    wear level [defaultWear], returns [count], touches no other bucket and
    leaves a well-formed group well formed. *)
Theorem TransferOutfits_from_nowhere (fuel : nat) (this : OutfitGroup)
  (outfit : N) (count : Z) (mostWornFirst : bool) (defaultWear : Z) :
  well_formed this -> outfit <> nullptr ->
  Int.in_int count -> Int.INT_MIN < count -> count < 0 ->
  Int.in_int defaultWear ->
  quantity this outfit defaultWear + - count <= Int.INT_MAX ->
  exists this',
    TransferOutfits (S fuel) this outfit count None mostWornFirst defaultWear
    = Some (count, this', None)
    /\ well_formed this'
    /\ (forall o w, quantity this' o w
                    = if decide (outfit = o /\ defaultWear = w)
                      then quantity this outfit defaultWear + - count
                      else quantity this o w)
    /\ total_quantity this' outfit = total_quantity this outfit + - count.
Proof.
  intros Hwf Ho Hc Hmin Hneg Hdw Hfit.
  assert (Hng : Int.neg count = - count) by (by apply neg_small).
  assert (Hci : Int.in_int (- count)).
  { revert Hc Hmin. unfold Int.in_int, Int.INT_MIN, Int.INT_MAX. lia. }
  pose proof (well_formed_quantity_nonneg this outfit defaultWear Hwf) as Hq0.
  assert (Hadd : Int.add (quantity this outfit defaultWear) (- count)
                 = quantity this outfit defaultWear + - count).
  { apply add_small. revert Hfit. unfold Int.in_int, Int.INT_MIN, Int.INT_MAX. lia. }
  assert (Hw' : well_formed (AddOutfit this outfit (- count) defaultWear).1).
  { apply AddOutfit_well_formed; (done || lia). }
  assert (Hq : forall o w,
            quantity (AddOutfit this outfit (- count) defaultWear).1 o w
            = if decide (outfit = o /\ defaultWear = w)
              then quantity this outfit defaultWear + - count
              else quantity this o w).
  { intros o w. rewrite quantity_AddOutfit by done. by rewrite Hadd. }
  exists (AddOutfit this outfit (- count) defaultWear).1.
  split; [|split; [done|split; [done|]]].
  - cbn [TransferOutfits].
    destruct (Z.eqb_spec count 0) as [?|_]; [lia|].
    destruct (N.eqb_spec outfit nullptr) as [?|_]; [done|]. cbn [orb].
    destruct (Z.ltb_spec 0 count) as [?|_]; [lia|].
    rewrite Hng. destruct (AddOutfit this outfit (- count) defaultWear) as [g a] eqn:E.
    assert (a = - count) as ->.
    { unfold AddOutfit in E. by destruct (this !! outfit); injection E as _ <-. }
    cbn [fst]. rewrite neg_small; [do 3 f_equal; lia| |done].
    revert Hc. unfold Int.in_int, Int.INT_MIN, Int.INT_MAX. lia.
  - rewrite (total_quantity_shift _ this outfit
               (fun w => if decide (defaultWear = w) then - count else 0)
               [defaultWear]).
    + cbn. rewrite decide_True by done. lia.
    + apply Hw'.
    + apply Hwf.
    + apply NoDup_singleton.
    + intros w Hw. rewrite decide_False; [done|]. intros ->. apply Hw, list_elem_of_here.
    + intros w. rewrite Hq.
      destruct (decide (defaultWear = w)) as [<-|Hne].
      * by rewrite decide_True.
      * rewrite decide_False by (by intros [_ ?]). lia.
Qed.

Lemma TransferOutfits_from_nowhere_witness :
  exists this',
    TransferOutfits 1 {[ 1%N := {[ 0 := 3; 5 := 2 ]} ]} 1 (-4) None true 5
    = Some (-4, this', None)
    /\ quantity this' 1 5 = 6.
Proof.
  assert (H1 : well_formed {[ 1%N := {[ 0 := 3; 5 := 2 ]} ]}) by compute_done.
  assert (H2 : 1%N <> nullptr) by done.
  assert (H3 : Int.in_int (-4)) by compute_done.
  assert (H4 : Int.INT_MIN < -4) by (by vm_compute).
  assert (H5 : -4 < 0) by lia.
  assert (H6 : Int.in_int 5) by compute_done.
  assert (H7 : quantity {[ 1%N := {[ 0 := 3; 5 := 2 ]} ]} 1 5 + - -4 <= Int.INT_MAX)
    by (by vm_compute).
  destruct (TransferOutfits_from_nowhere 0 _ 1 (-4) true 5 H1 H2 H3 H4 H5 H6 H7)
    as (this' & E & _ & Hq & _).
  exists this'. split; [exact E|]. rewrite Hq. reflexivity.
Defined.

(** X7: ageing is additive. On a group whose values are of type [int],
    [IncrementWear(b)] followed by [IncrementWear(a)] is [IncrementWear]
    of the [int] sum [b + a], [IncrementWear(0)] changes nothing, and
    [IncrementWear(-a)] undoes [IncrementWear(a)], overflow of the wear
    levels or not. *)
Theorem IncrementWear_additive (a b : Z) (this : OutfitGroup) :
  typed this ->
  IncrementWear a (IncrementWear b this) = IncrementWear (Int.add b a) this
  /\ IncrementWear 0 this = this
  /\ IncrementWear (Int.neg a) (IncrementWear a this) = this.
Proof.
  intros Ht. split; [by apply IncrementWear_compose|].
  split; [by apply IncrementWear_zero|].
  rewrite IncrementWear_compose by done.
  rewrite add_neg_diag. by apply IncrementWear_zero.
Qed.

Lemma IncrementWear_additive_witness :
  IncrementWear 3 (IncrementWear 4 {[ 1%N := {[ 0 := 3; 5 := 2 ]} ]})
  = IncrementWear (Int.add 4 3) {[ 1%N := {[ 0 := 3; 5 := 2 ]} ]}.
Proof.
  assert (H1 : typed {[ 1%N := {[ 0 := 3; 5 := 2 ]} ]}) by compute_done.
  exact (proj1 (IncrementWear_additive 3 4 _ H1)).
Defined.

(** X8: [GetCost] quotes what [RemoveOutfit] removes. For a well-formed
    group and a positive count, the value returned by [GetCost] is the
    sum, in the arithmetic of [int64_t], of [CostFunction(outfit, wear)]
    over exactly the units that [RemoveOutfit] with the same count and the
    same order takes out of the group. *)
Theorem GetCost_quotes_removal (objects : N -> Outfit) (this : OutfitGroup)
  (outfit : N) (count : Z) (mostWornFirst : bool) (to : option OutfitGroup) :
  well_formed this -> Int.in_int count -> 0 < count ->
  let this' := (RemoveOutfit this outfit count mostWornFirst to).1.2 in
  GetCost objects this outfit count mostWornFirst
  = Int64.wrap
      (Zsum ((fun w => CostFunction (objects outfit) w
                       * (quantity this outfit w - quantity this' outfit w))
             <$> keys_asc (ledger_of this outfit))).
Proof.
  intros Hwf Hc Hpos this'. unfold this'. clear this'.
  destruct (this !! outfit) as [led|] eqn:Hl.
  - destruct Hwf as [Ht Hn].
    assert (Hlp : ledger_positive led) by (by destruct (Hn _ _ Hl)).
    rewrite (RemoveOutfit_spec this outfit count mostWornFirst to led)
      by (done || by eapply Ht).
    rewrite (GetCost_quote objects this outfit count mostWornFirst led) by done.
    set (ws := if mostWornFirst then keys_desc led else keys_asc led).
    set (t := taken (at_wear led) count ws).
    assert (Hnd : NoDup ws).
    { unfold ws. destruct mostWornFirst; [apply NoDup_keys_desc|apply NoDup_keys_asc]. }
    assert (Hin : forall w, w ∈ ws <-> is_Some (led !! w)).
    { intros w. unfold ws.
      destruct mostWornFirst; [apply elem_of_keys_desc|apply elem_of_keys_asc]. }
    assert (Hperm : ws ≡ₚ keys_asc led).
    { unfold ws. destruct mostWornFirst; [apply reverse_Permutation|done]. }
    rewrite quote_taken; [|done| |lia].
    + f_equal. unfold ledger_of. rewrite Hl. cbn [fst snd].
      rewrite <- (Zsum_perm _ _ (fmap_Permutation _ _ _ Hperm)).
      apply (f_equal Zsum), Forall_fmap_ext_1, Forall_forall. intros w Hw.
      rewrite quantity_store, decide_True by done.
      rewrite (quantity_lookup _ _ _ _ Hl), at_wear_withdrawn.
      * fold t. f_equal. lia.
      * intros Hnone. apply taken_not_elem. rewrite Hin, Hnone. by intros [? ?].
    + intros w [x Hx]%Hin. rewrite (at_wear_Some _ _ _ Hx). by apply (Hlp _ _ Hx).
  - rewrite RemoveOutfit_absent by done. unfold GetCost, ledger_of. rewrite Hl.
    by replace (keys_asc (∅ : InnerMap)) with (@nil Z) by (symmetry; by apply keys_asc_nil).
Qed.

Lemma GetCost_quotes_removal_witness :
  GetCost (fun _ => outfit_1000) {[ 1%N := {[ 0 := 3; 5 := 2 ]} ]} 1 4 true
  = 1000 * 2 + 892 * 2.
Proof.
  assert (H1 : well_formed {[ 1%N := {[ 0 := 3; 5 := 2 ]} ]}) by compute_done.
  assert (H2 : Int.in_int 4) by compute_done.
  assert (H3 : 0 < 4) by lia.
  rewrite (GetCost_quotes_removal (fun _ => outfit_1000) _ 1 4 true None H1 H2 H3).
  by vm_compute.
Defined.

(** X9: a count that covers the stock quotes the whole stock. When
    [count] is at least the number of units of the outfit that a
    well-formed group holds, [GetCost] returns the sum of
    [CostFunction(outfit, wear) * quantity] over the buckets of the
    outfit, in the arithmetic of [int64_t], whatever the order asked for;
    that is 0 for an outfit the group does not hold. *)
Theorem GetCost_whole_stock (objects : N -> Outfit) (this : OutfitGroup)
  (outfit : N) (count : Z) (mostWornFirst : bool) :
  well_formed this -> Int.in_int count ->
  total_quantity this outfit <= count ->
  GetCost objects this outfit count mostWornFirst
  = Int64.wrap
      (Zsum ((fun w => CostFunction (objects outfit) w * quantity this outfit w)
             <$> keys_asc (ledger_of this outfit))).
Proof.
  intros Hwf Hc Htot. unfold total_quantity, ledger_of in *.
  destruct (this !! outfit) as [led|] eqn:Hl.
  - destruct (well_formed_ledger _ _ _ Hwf Hl) as (Ht & Hp & Hne).
    rewrite (GetCost_quote objects this outfit count mostWornFirst led);
      [|apply Hwf|done|done].
    set (ws := if mostWornFirst then keys_desc led else keys_asc led).
    assert (Hin : forall w, w ∈ ws -> is_Some (led !! w)).
    { intros w. unfold ws.
      destruct mostWornFirst; [apply elem_of_keys_desc|apply elem_of_keys_asc]. }
    assert (Hperm : ws ≡ₚ keys_asc led).
    { unfold ws. destruct mostWornFirst; [apply reverse_Permutation|done]. }
    rewrite quote_all.
    + f_equal. rewrite (Zsum_perm _ _ (fmap_Permutation _ _ _ Hperm)).
      apply (f_equal Zsum), Forall_fmap_ext_1, Forall_forall. intros w _.
      by rewrite (quantity_lookup _ _ _ _ Hl).
    + intros w Hw. apply at_wear_pos; [done|by apply Hin].
    + by rewrite <- (ledger_total_keys led ws Hperm).
  - unfold GetCost. rewrite Hl.
    by replace (keys_asc (∅ : InnerMap)) with (@nil Z) by (symmetry; by apply keys_asc_nil).
Qed.

Lemma GetCost_whole_stock_witness :
  GetCost (fun _ => outfit_1000) {[ 1%N := {[ 0 := 3; 5 := 2 ]} ]} 1 9 false
  = 1000 * 3 + 892 * 2.
Proof.
  assert (H1 : well_formed {[ 1%N := {[ 0 := 3; 5 := 2 ]} ]}) by compute_done.
  assert (H2 : Int.in_int 9) by compute_done.
  assert (H3 : total_quantity {[ 1%N := {[ 0 := 3; 5 := 2 ]} ]} 1 <= 9)
    by (by vm_compute).
  rewrite (GetCost_whole_stock (fun _ => outfit_1000) _ 1 9 false H1 H2 H3).
  by vm_compute.
Defined.

(** X10: a count that the first bucket covers is priced at the wear level
    of that bucket. When a well-formed group holds the outfit and [count]
    is at most the quantity at [GetMaxWear] (most worn first) or at
    [GetMinWear] (least worn first), [GetCost] returns [count] times
    [CostFunction] at that wear level: the price of one unit for count 1,
    which every bucket covers, 0 for count 0, and a negative price for a
    negative count. *)
Theorem GetCost_first_bucket (objects : N -> Outfit) (this : OutfitGroup)
  (outfit : N) (count : Z) (mostWornFirst : bool) (led : InnerMap) :
  well_formed this -> this !! outfit = Some led -> Int.in_int count ->
  let first := if mostWornFirst then GetMaxWear this outfit
               else GetMinWear this outfit in
  count <= quantity this outfit first ->
  GetCost objects this outfit count mostWornFirst
  = Int64.mul (CostFunction (objects outfit) first) count.
Proof.
  intros Hwf Hl Hc first Hq.
  destruct (well_formed_ledger _ _ _ Hwf Hl) as (Ht & Hp & Hne).
  rewrite (GetCost_quote objects this outfit count mostWornFirst led);
    [|apply Hwf|done|done].
  rewrite (quantity_lookup _ _ _ _ Hl) in Hq.
  set (ws := if mostWornFirst then keys_desc led else keys_asc led).
  assert (Hin : forall w, w ∈ ws -> is_Some (led !! w)).
  { intros w. unfold ws.
    destruct mostWornFirst; [apply elem_of_keys_desc|apply elem_of_keys_asc]. }
  assert (Hws : exists rest, ws = first :: rest).
  { unfold ws, first, GetMaxWear, GetMinWear, Find. rewrite Hl.
    destruct mostWornFirst.
    - destruct (keys_desc led) as [|w rest] eqn:Hk; [|by exists rest].
      unfold keys_desc in Hk. apply (f_equal reverse) in Hk.
      rewrite reverse_involutive in Hk. by apply keys_asc_nil in Hk.
    - destruct (keys_asc led) as [|w rest] eqn:Hk; [|by exists rest].
      by apply keys_asc_nil in Hk. }
  destruct Hws as [rest Hws]. rewrite Hws in *.
  rewrite quote_first; [done| |done].
  intros w Hw. apply at_wear_pos; [done|by apply Hin].
Qed.

Lemma GetCost_first_bucket_witness :
  GetCost (fun _ => outfit_1000) {[ 1%N := {[ 0 := 3; 5 := 2 ]} ]} 1 1 true = 892
  /\ GetCost (fun _ => outfit_1000) {[ 1%N := {[ 0 := 3; 5 := 2 ]} ]} 1 (-2) false
     = -2000.
Proof.
  assert (H1 : well_formed {[ 1%N := {[ 0 := 3; 5 := 2 ]} ]}) by compute_done.
  assert (H2 : ({[ 1%N := {[ 0 := 3; 5 := 2 ]} ]} : OutfitGroup) !! 1%N
               = Some {[ 0 := 3; 5 := 2 ]}) by reflexivity.
  assert (H3 : Int.in_int 1) by compute_done.
  assert (H4 : Int.in_int (-2)) by compute_done.
  assert (H5 : 1 <= quantity {[ 1%N := {[ 0 := 3; 5 := 2 ]} ]} 1
                      (GetMaxWear {[ 1%N := {[ 0 := 3; 5 := 2 ]} ]} 1))
    by (by vm_compute).
  assert (H6 : -2 <= quantity {[ 1%N := {[ 0 := 3; 5 := 2 ]} ]} 1
                       (GetMinWear {[ 1%N := {[ 0 := 3; 5 := 2 ]} ]} 1))
    by (by vm_compute).
  split.
  - rewrite (GetCost_first_bucket (fun _ => outfit_1000) _ 1 1 true _ H1 H2 H3 H5).
    by vm_compute.
  - rewrite (GetCost_first_bucket (fun _ => outfit_1000) _ 1 (-2) false _ H1 H2 H4 H6).
    by vm_compute.
Defined.

(** X11: the most worn units are the cheapest. For an outfit whose base
    cost is between 0 and 2 ^ 53, held at wear levels that are not
    negative, and a count that is not negative, the quote of [GetCost]
    most worn first is at most its quote least worn first, and both are
    between 0 and [count] times the base cost (the total at the base cost
    is taken to fit in an [int64_t]). *)
Theorem GetCost_most_worn_cheapest (objects : N -> Outfit) (this : OutfitGroup)
  (outfit : N) (count : Z) :
  well_formed this -> Int.in_int count -> 0 <= count ->
  0 <= Cost (objects outfit) < 2 ^ 53 ->
  (forall w q, bucket this outfit w q -> 0 <= w) ->
  Cost (objects outfit) * total_quantity this outfit <= Int64.INT64_MAX ->
  0 <= GetCost objects this outfit count true
  /\ GetCost objects this outfit count true
     <= GetCost objects this outfit count false
  /\ GetCost objects this outfit count false <= Cost (objects outfit) * count.
Proof.
  intros Hwf Hc Hcount Hcost Hwear Hfit.
  destruct (this !! outfit) as [led|] eqn:Hl.
  - destruct (well_formed_ledger _ _ _ Hwf Hl) as (Ht & Hp & Hne).
    rewrite !(GetCost_quote objects this outfit count _ led);
      [|apply Hwf|done|done|apply Hwf|done|done].
    assert (Hkeys : forall w, w ∈ keys_asc led ->
              is_Some (led !! w) /\ 0 <= w <= Int.INT_MAX).
    { intros w Hw%elem_of_keys_asc. split; [done|]. destruct Hw as [x Hx]. split.
      - apply (Hwear w x). unfold bucket, ledger_of. by rewrite Hl.
      - by destruct (Ht _ _ Hx) as [[_ ?] _]. }
    assert (Hkeys' : forall w, w ∈ keys_desc led ->
              is_Some (led !! w) /\ 0 <= w <= Int.INT_MAX).
    { intros w Hw. apply Hkeys. by apply elem_of_reverse. }
    assert (HT : Zsum (at_wear led <$> keys_asc led) = total_quantity this outfit).
    { unfold total_quantity. rewrite Hl. symmetry. by apply ledger_total_keys. }
    assert (HT' : Zsum (at_wear led <$> keys_desc led) = total_quantity this outfit).
    { rewrite <- HT. apply Zsum_perm, fmap_Permutation, reverse_Permutation. }
    pose proof (quote_bounds (objects outfit) led count _ Hcost Hp Hkeys Hcount) as B1.
    pose proof (quote_bounds (objects outfit) led count _ Hcost Hp Hkeys' Hcount) as B2.
    rewrite HT in B1. rewrite HT' in B2.
    pose proof (well_formed_total_nonneg this outfit Hwf) as Hnn.
    assert (Hm : 0 <= Z.min count (total_quantity this outfit)
                 <= total_quantity this outfit) by lia.
    assert (Hm' : Cost (objects outfit) * Z.min count (total_quantity this outfit)
                  <= Cost (objects outfit) * total_quantity this outfit)
      by (apply Z.mul_le_mono_nonneg_l; lia).
    assert (Hm'' : Cost (objects outfit) * Z.min count (total_quantity this outfit)
                  <= Cost (objects outfit) * count)
      by (apply Z.mul_le_mono_nonneg_l; lia).
    rewrite !wrap64_small
      by (unfold Int64.in_int64; revert Hfit; unfold Int64.INT64_MIN, Int64.INT64_MAX; lia).
    split; [lia|]. split; [|lia].
    apply quote_reverse_le; [| | |done].
    + apply (StronglySorted_weaken Z.lt); [apply keys_asc_strict|].
      intros a b Ha Hb Hab. destruct (Hkeys a Ha) as [_ ?]. destruct (Hkeys b Hb) as [_ ?].
      apply CostFunction_antitone; (done || lia).
    + intros w Hw. apply at_wear_pos; [done|by apply Hkeys].
    + intros w Hw. apply CostFunction_nonneg; [done|by apply Hkeys].
  - unfold GetCost. rewrite Hl. split; [done|]. split; [done|]. nia.
Qed.

Lemma GetCost_most_worn_cheapest_witness :
  GetCost (fun _ => outfit_1000) {[ 1%N := {[ 0 := 3; 5 := 2 ]} ]} 1 4 true
  <= GetCost (fun _ => outfit_1000) {[ 1%N := {[ 0 := 3; 5 := 2 ]} ]} 1 4 false.
Proof.
  assert (H1 : well_formed {[ 1%N := {[ 0 := 3; 5 := 2 ]} ]}) by compute_done.
  assert (H2 : Int.in_int 4) by compute_done.
  assert (H3 : 0 <= 4) by lia.
  assert (H4 : 0 <= Cost ((fun _ : N => outfit_1000) 1%N) < 2 ^ 53) by (cbn; lia).
  assert (H5 : forall w q, bucket {[ 1%N := {[ 0 := 3; 5 := 2 ]} ]} 1 w q -> 0 <= w).
  { intros w q Hw.
    assert (Hk : w ∈ keys_asc (ledger_of {[ 1%N := {[ 0 := 3; 5 := 2 ]} ]} 1))
      by (apply elem_of_keys_asc; by exists q).
    assert (E : keys_asc (ledger_of {[ 1%N := {[ 0 := 3; 5 := 2 ]} ]} 1) = [0; 5])
      by (by vm_compute).
    rewrite E in Hk. apply elem_of_cons in Hk as [->|Hk]; [lia|].
    apply elem_of_cons in Hk as [->|Hk]; [lia|]. by apply not_elem_of_nil in Hk. }
  assert (H6 : Cost ((fun _ : N => outfit_1000) 1%N)
               * total_quantity {[ 1%N := {[ 0 := 3; 5 := 2 ]} ]} 1
               <= Int64.INT64_MAX) by (by vm_compute).
  exact (proj1 (proj2 (GetCost_most_worn_cheapest (fun _ => outfit_1000) _ 1 4
                         H1 H2 H3 H4 H5 H6))).
Defined.

(** X12: a loop from [begin()] to [end()] visits every bucket once. In a
    group without an empty ledger, the loop
    [for (auto it = begin(); it != end(); ++it)] ends, and the outfits,
    wear levels and quantities that [GetOutfit], [GetWear] and
    [GetQuantity] give on the way are those of the buckets of the group,
    every bucket once, by ascending outfit and, for an outfit, by
    ascending wear level. *)
Theorem range_for_visits_every_bucket (address : nat) (group : OutfitGroup)
  (k : nat) :
  no_empty_ledger group ->
  for_each (length (positions group) + S k) address group
    (fun it seen => (fun b => seen ++ [b]) <$> bucket_at group it)
    (begin_ address group) []
  = Returns ((fun p => (p.1, p.2, quantity group p.1 p.2)) <$> positions group)
  /\ StronglySorted position_lt (positions group)
  /\ (forall o w q, bucket group o w q
                    <-> (o, w) ∈ positions group /\ quantity group o w = q).
Proof.
  intros Hne. split; [|split].
  - rewrite for_each_begin by done.
    rewrite run_body_collect by apply positions_held. done.
  - apply positions_sorted.
  - intros o w q. unfold bucket. rewrite elem_of_positions, quantity_ledger_of.
    unfold at_wear. split.
    + intros Hq. rewrite Hq. by eauto.
    + intros [[q' Hq'] Hq]. rewrite Hq' in Hq |- *. cbn in Hq. by subst.
Qed.

Lemma range_for_visits_every_bucket_witness :
  for_each 4 0 {[ 1%N := {[ 0 := 3; 5 := 2 ]}; 2%N := {[ 7 := 1 ]} ]}
    (fun it seen =>
       (fun b => seen ++ [b])
       <$> bucket_at {[ 1%N := {[ 0 := 3; 5 := 2 ]}; 2%N := {[ 7 := 1 ]} ]} it)
    (begin_ 0 {[ 1%N := {[ 0 := 3; 5 := 2 ]}; 2%N := {[ 7 := 1 ]} ]}) []
  = Returns [(1%N, 0, 3); (1%N, 5, 2); (2%N, 7, 1)].
Proof.
  assert (H1 : no_empty_ledger
                 {[ 1%N := {[ 0 := 3; 5 := 2 ]}; 2%N := {[ 7 := 1 ]} ]})
    by (unfold no_empty_ledger; compute_done).
  exact (proj1 (range_for_visits_every_bucket 0 _ 0 H1)).
Defined.

(** X13: [GetTotalCost()] is the sum over all buckets. On a group without
    an empty ledger the loop of [OutfitGroup::GetTotalCost()] ends and
    returns the sum of [CostFunction(outfit, wear) * quantity] over the
    buckets of the group, in the arithmetic of [int64_t]. *)
Theorem GetTotalCost_sums_all_buckets (objects : N -> Outfit) (address : nat)
  (group : OutfitGroup) (k : nat) :
  no_empty_ledger group ->
  GetTotalCost (length (positions group) + S k) objects address group
  = Returns
      (Int64.wrap
         (Zsum ((fun p => CostFunction (objects p.1) p.2
                          * quantity group p.1 p.2) <$> positions group))).
Proof.
  intros Hne. unfold GetTotalCost. rewrite for_each_begin by done.
  change 0 with (Int64.wrap 0) at 1.
  rewrite run_body_cost by apply positions_held. done.
Qed.

Lemma GetTotalCost_sums_all_buckets_witness :
  GetTotalCost 4 (fun _ => outfit_1000) 0
    {[ 1%N := {[ 0 := 3; 5 := 2 ]}; 2%N := {[ 7 := 1 ]} ]}
  = Returns (1000 * 3 + 892 * 2 + 888 * 1).
Proof.
  assert (H1 : no_empty_ledger
                 {[ 1%N := {[ 0 := 3; 5 := 2 ]}; 2%N := {[ 7 := 1 ]} ]})
    by (unfold no_empty_ledger; compute_done).
  exact (GetTotalCost_sums_all_buckets (fun _ => outfit_1000) 0 _ 0 H1).
Defined.

(** X14: [GetTotalCost(outfit)] is the sum over the buckets of the outfit
    when another outfit follows it. In a group without an empty ledger
    that holds the outfit and an outfit of greater address, the loop of
    [OutfitGroup::GetTotalCost(outfit)] ends at the first bucket
    of the next outfit and returns the sum of
    [CostFunction(outfit, wear) * quantity] over the buckets of the
    outfit, in the arithmetic of [int64_t]. *)
Theorem GetTotalCost_of_sums_ledger (objects : N -> Outfit) (address : nat)
  (group : OutfitGroup) (outfit later : N) (led : InnerMap) (k : nat) :
  no_empty_ledger group -> group !! outfit = Some led ->
  is_Some (group !! later) -> (outfit < later)%N ->
  GetTotalCost_of (length (keys_asc led) + S k) objects address group outfit
  = Returns
      (Int64.wrap
         (Zsum ((fun w => CostFunction (objects outfit) w * quantity group outfit w)
                <$> keys_asc led))).
Proof.
  intros Hne Hl Hlater Hlt.
  destruct (outfits_asc_split group outfit) as (opre & opost & Ho & Hpre & Hpost);
    [by eauto|].
  rewrite (GetTotalCost_of_held objects address group Hne outfit led opre opost k Hl Ho).
  destruct opost as [|o' opost]; [|done].
  apply elem_of_outfits_asc in Hlater. rewrite Ho in Hlater.
  apply elem_of_app in Hlater as [Hin|Hin].
  - specialize (Hpre _ Hin). lia.
  - apply list_elem_of_singleton in Hin. lia.
Qed.

Lemma GetTotalCost_of_sums_ledger_witness :
  GetTotalCost_of 3 (fun _ => outfit_1000) 0
    {[ 1%N := {[ 0 := 3; 5 := 2 ]}; 2%N := {[ 7 := 1 ]} ]} 1
  = Returns (1000 * 3 + 892 * 2).
Proof.
  assert (H1 : no_empty_ledger
                 {[ 1%N := {[ 0 := 3; 5 := 2 ]}; 2%N := {[ 7 := 1 ]} ]})
    by (unfold no_empty_ledger; compute_done).
  assert (H2 : ({[ 1%N := {[ 0 := 3; 5 := 2 ]}; 2%N := {[ 7 := 1 ]} ]}
                : OutfitGroup) !! 1%N = Some {[ 0 := 3; 5 := 2 ]}) by reflexivity.
  assert (H3 : is_Some (({[ 1%N := {[ 0 := 3; 5 := 2 ]}; 2%N := {[ 7 := 1 ]} ]}
                         : OutfitGroup) !! 2%N)) by (by eexists).
  assert (H4 : (1 < 2)%N) by lia.
  exact (GetTotalCost_of_sums_ledger (fun _ => outfit_1000) 0 _ 1 2 _ 0 H1 H2 H3 H4).
Defined.

(** X15: [GetTotalCost(outfit)] reads through [outfits.end()] for an
    outfit that the group does not hold and for the outfit of greatest
    address. For the first, whatever else the group holds, [find(outfit)]
    leaves [outerIter] at [outfits.end()] and the condition of the loop,
    [it.GetOutfit() == outfit], reads [outerIter->first]; for the second,
    in a group without an empty ledger, the loop runs over the buckets of
    the outfit, [operator++] then moves [outerIter] to [outfits.end()],
    and the condition reads it. *)
Theorem GetTotalCost_of_reads_end (objects : N -> Outfit) (address : nat)
  (group : OutfitGroup) (outfit : N) (k : nat) :
  group !! outfit = None
  \/ (no_empty_ledger group
      /\ forall o, is_Some (group !! o) -> (o < outfit)%N \/ o = outfit) ->
  GetTotalCost_of (length (keys_asc (ledger_of group outfit)) + S k)
    objects address group outfit
  = ReadsEnd.
Proof.
  intros Hcase. destruct (group !! outfit) as [led|] eqn:Hl.
  - destruct Hcase as [?|[Hne Hlast]]; [done|].
    destruct (outfits_asc_split group outfit) as (opre & opost & Ho & Hpre & Hpost);
      [by eauto|].
    assert (Hled : ledger_of group outfit = led) by (unfold ledger_of; by rewrite Hl).
    rewrite Hled.
    rewrite (GetTotalCost_of_held objects address group Hne outfit led opre opost k Hl Ho).
    destruct opost as [|o' opost]; [done|].
    assert (Ho' : (outfit < o')%N) by (apply Hpost; left).
    destruct (Hlast o') as [?|?]; [|lia|lia].
    apply elem_of_outfits_asc. rewrite Ho, elem_of_app. right. right. left.
  - unfold GetTotalCost_of. rewrite find_absent by done.
    assert (Hled : ledger_of group outfit = ∅) by (unfold ledger_of; by rewrite Hl).
    rewrite Hled.
    by replace (keys_asc (∅ : InnerMap)) with (@nil Z) by (symmetry; by apply keys_asc_nil).
Qed.

Lemma GetTotalCost_of_reads_end_witness :
  GetTotalCost_of 1 (fun _ => outfit_1000) 0 {[ 2%N := {[ 7 := 1 ]} ]} 1 = ReadsEnd
  /\ GetTotalCost_of 2 (fun _ => outfit_1000) 0
       {[ 1%N := {[ 0 := 3; 5 := 2 ]}; 2%N := {[ 7 := 1 ]} ]} 2
     = ReadsEnd.
Proof.
  assert (H0 : ({[ 2%N := {[ 7 := 1 ]} ]} : OutfitGroup) !! 1%N = None)
    by reflexivity.
  assert (H1 : no_empty_ledger
                 {[ 1%N := {[ 0 := 3; 5 := 2 ]}; 2%N := {[ 7 := 1 ]} ]})
    by (unfold no_empty_ledger; compute_done).
  assert (H2 : forall o,
            is_Some (({[ 1%N := {[ 0 := 3; 5 := 2 ]}; 2%N := {[ 7 := 1 ]} ]}
                      : OutfitGroup) !! o) -> (o < 2)%N \/ o = 2%N).
  { intros o Ho. apply elem_of_outfits_asc in Ho.
    assert (E : outfits_asc {[ 1%N := {[ 0 := 3; 5 := 2 ]}; 2%N := {[ 7 := 1 ]} ]}
                = [1%N; 2%N]) by (by vm_compute).
    rewrite E in Ho. apply elem_of_cons in Ho as [->|Ho]; [left; lia|].
    apply elem_of_cons in Ho as [->|Ho]; [by right|]. by apply not_elem_of_nil in Ho. }
  split.
  - exact (GetTotalCost_of_reads_end (fun _ => outfit_1000) 0 _ 1 0 (or_introl H0)).
  - exact (GetTotalCost_of_reads_end (fun _ => outfit_1000) 0 _ 2 0
             (or_intror (conj H1 H2))).
Defined.

(** X16: where [begin()] and [find()] stand. In a group without an empty
    ledger, [begin() != end()] holds exactly when the group is not
    [Empty()], and [find(outfit) != end()] exactly when the group holds
    the outfit; [find(outfit)] is then at the bucket of the outfit of
    least wear: [GetOutfit] gives the outfit, [GetWear] gives
    [GetMinWear(outfit)] and [GetQuantity] the quantity of that bucket. *)
Theorem find_stands_at_least_worn (address : nat) (group : OutfitGroup)
  (outfit : N) :
  no_empty_ledger group ->
  operator_ne (begin_ address group) (end_ address group) = negb (Empty group)
  /\ operator_ne (find address group outfit) (end_ address group)
     = bool_decide (is_Some (group !! outfit))
  /\ (is_Some (group !! outfit) ->
      bucket_at group (find address group outfit)
      = Some (outfit, GetMinWear group outfit,
              quantity group outfit (GetMinWear group outfit))).
Proof.
  intros Hne. split; [|split].
  - unfold Empty. case_bool_decide as He.
    + by rewrite He.
    + destruct (outfits_asc group) as [|o os] eqn:Ho.
      { by apply outfits_asc_nil in Ho. }
      destruct (keys_asc_cons group Hne o) as (w & ks & Hk).
      { rewrite Ho. left. }
      assert (Hb : begin_ address group = cursor address (o, w)).
      { unfold begin_, iterator_begin_or_end, Empty.
        rewrite bool_decide_eq_false_2 by done. cbn [andb negb].
        unfold outer_begin. rewrite Ho.
        apply (ledger_begin_cursor address group o w ks Hk). }
      rewrite Hb. apply operator_ne_cursor_end.
  - destruct (group !! outfit) as [led|] eqn:Hl.
    + destruct (keys_asc_cons group Hne outfit) as (w & ks & Hk).
      { apply elem_of_outfits_asc. by eauto. }
      rewrite (find_held address group outfit w ks Hk) by (by eauto).
      rewrite operator_ne_cursor_end. symmetry. apply bool_decide_eq_true_2. by eauto.
    + rewrite find_absent by done.
      rewrite bool_decide_eq_false_2 by (by intros [? ?]).
      unfold end_, iterator_begin_or_end, operator_ne. done.
  - intros [led Hl].
    destruct (keys_asc_cons group Hne outfit) as (w & ks & Hk).
    { apply elem_of_outfits_asc. by eauto. }
    rewrite (find_held address group outfit w ks Hk) by (by eauto).
    assert (Hmin : GetMinWear group outfit = w).
    { unfold GetMinWear, Find. rewrite Hl. unfold ledger_of in Hk. rewrite Hl in Hk.
      by rewrite Hk. }
    rewrite Hmin.
    assert (Hw : is_Some (ledger_of group outfit !! w)).
    { apply elem_of_keys_asc. rewrite Hk. left. }
    destruct Hw as [q Hq]. by apply (bucket_at_cursor address group outfit w q).
Qed.

Lemma find_stands_at_least_worn_witness :
  bucket_at {[ 1%N := {[ 3 := 4; 5 := 2 ]}; 2%N := {[ 7 := 1 ]} ]}
    (find 0 {[ 1%N := {[ 3 := 4; 5 := 2 ]}; 2%N := {[ 7 := 1 ]} ]} 1)
  = Some (1%N, 3, 4).
Proof.
  assert (H1 : no_empty_ledger
                 {[ 1%N := {[ 3 := 4; 5 := 2 ]}; 2%N := {[ 7 := 1 ]} ]})
    by (unfold no_empty_ledger; compute_done).
  assert (H2 : is_Some (({[ 1%N := {[ 3 := 4; 5 := 2 ]}; 2%N := {[ 7 := 1 ]} ]}
                         : OutfitGroup) !! 1%N)) by (by eexists).
  exact (proj2 (proj2 (find_stands_at_least_worn 0 _ 1 H1)) H2).
Defined.

(** X17: the depreciated cost of a bucket is at most its base cost. At
    the iterator of a bucket of a well-formed group, for an outfit whose
    base cost is between 0 and 2 ^ 53 and a wear level that is not
    negative, [iterator::GetTotalCost] is between 0 and
    [iterator::GetTotalBaseCost], which is the base cost times the
    quantity (taken to fit in an [int64_t]). *)
Theorem iterator_cost_at_most_base_cost (objects : N -> Outfit) (address : nat)
  (group : OutfitGroup) (outfit : N) (wear q : Z) :
  well_formed group -> bucket group outfit wear q -> 0 <= wear ->
  0 <= Cost (objects outfit) < 2 ^ 53 ->
  Cost (objects outfit) * q <= Int64.INT64_MAX ->
  exists cost,
    iterator_GetTotalCost objects group (cursor address (outfit, wear)) = Some cost
    /\ iterator_GetTotalBaseCost objects group (cursor address (outfit, wear))
       = Some (Cost (objects outfit) * q)
    /\ cost = CostFunction (objects outfit) wear * q
    /\ 0 <= cost <= Cost (objects outfit) * q.
Proof.
  intros Hwf Hb Hw Hc Hfit. unfold bucket in Hb.
  assert (Hq : 0 < q /\ Int.in_int wear).
  { revert Hb. unfold ledger_of. destruct (group !! outfit) as [led|] eqn:Hl;
      [|by rewrite lookup_empty].
    intros Hb. destruct (well_formed_ledger _ _ _ Hwf Hl) as (Ht & Hp & _).
    split; [by apply (Hp _ _ Hb)|by destruct (Ht _ _ Hb)]. }
  destruct Hq as [Hq [_ Hmax]].
  exists (CostFunction (objects outfit) wear * q).
  pose proof (CostFunction_nonneg (objects outfit) wear Hc ltac:(lia)) as H0.
  pose proof (CostFunction_le_Cost (objects outfit) wear Hc ltac:(lia)) as H1.
  assert (Hle : CostFunction (objects outfit) wear * q
                <= Cost (objects outfit) * q)
    by (apply Z.mul_le_mono_nonneg_r; lia).
  assert (Hge : 0 <= CostFunction (objects outfit) wear * q) by nia.
  split; [|split; [|split; [done|lia]]].
  - rewrite (iterator_GetTotalCost_cursor address group objects outfit wear q Hb).
    rewrite quantity_ledger_of, (at_wear_Some _ _ _ Hb). unfold Int64.mul.
    rewrite wrap64_small; [done|].
    revert Hfit. unfold Int64.in_int64, Int64.INT64_MIN, Int64.INT64_MAX. lia.
  - unfold iterator_GetTotalBaseCost, cursor, GetOutfit, GetQuantity.
    cbn [outerIter innerIter fst snd mbind option_bind]. rewrite Hb.
    cbn [mbind option_bind]. unfold Int64.mul. rewrite wrap64_small; [done|].
    revert Hfit. unfold Int64.in_int64, Int64.INT64_MIN, Int64.INT64_MAX. nia.
Qed.

Lemma iterator_cost_at_most_base_cost_witness :
  exists cost,
    iterator_GetTotalCost (fun _ => outfit_1000)
      {[ 1%N := {[ 0 := 3; 5 := 2 ]} ]} (cursor 0 (1%N, 5)) = Some cost
    /\ 0 <= cost <= 2000.
Proof.
  assert (H1 : well_formed {[ 1%N := {[ 0 := 3; 5 := 2 ]} ]}) by compute_done.
  assert (H2 : bucket {[ 1%N := {[ 0 := 3; 5 := 2 ]} ]} 1 5 2) by reflexivity.
  assert (H3 : 0 <= 5) by lia.
  assert (H4 : 0 <= Cost ((fun _ : N => outfit_1000) 1%N) < 2 ^ 53) by (cbn; lia).
  assert (H5 : Cost ((fun _ : N => outfit_1000) 1%N) * 2 <= Int64.INT64_MAX)
    by (by vm_compute).
  destruct (iterator_cost_at_most_base_cost (fun _ => outfit_1000) 0 _ 1 5 2
              H1 H2 H3 H4 H5) as (cost & E & _ & _ & Hc).
  exists cost. split; [exact E|exact Hc].
Defined.

(** X18: the price has a floor, reached at wear 251. From wear level 251
    on, [CostFunction(wear)] is [DEFAULT_MIN_PRICE], so that the cost of
    every outfit is the same at all these wear levels; for a base cost
    between 0 and 2 ^ 53 this is the lowest cost of the outfit: at every
    wear level from 0 on, the cost is between it and the base cost. *)
Theorem CostFunction_floor (outfit : Outfit) (wear : Z) :
  0 <= wear <= Int.INT_MAX ->
  (251 <= wear -> CostFunction_wear wear = DEFAULT_MIN_PRICE
                  /\ CostFunction outfit wear = CostFunction outfit 251)
  /\ (0 <= Cost outfit < 2 ^ 53 ->
      CostFunction outfit 251 <= CostFunction outfit wear <= Cost outfit).
Proof.
  intros Hw.
  assert (Hfloor : 251 <= wear -> CostFunction outfit wear = CostFunction outfit 251).
  { intros Hge. rewrite !CostFunction_unfold. destruct (_ || _); [reflexivity|].
    rewrite (CostFunction_wear_floor_251 wear) by lia.
    rewrite (CostFunction_wear_floor_251 251) by (by vm_compute). reflexivity. }
  split.
  - intros Hge. split; [apply CostFunction_wear_floor_251; lia|by apply Hfloor].
  - intros Hc. split; [|by apply CostFunction_le_Cost].
    destruct (Z.le_gt_cases 251 wear) as [Hge|Hlt].
    + rewrite (Hfloor Hge). lia.
    + apply CostFunction_antitone; [done|lia|by vm_compute].
Qed.

Lemma CostFunction_floor_witness :
  CostFunction outfit_1000 100000 = CostFunction outfit_1000 251
  /\ CostFunction outfit_1000 251 <= CostFunction outfit_1000 100000 <= 1000.
Proof.
  assert (H1 : 0 <= 100000 <= Int.INT_MAX) by (by vm_compute).
  assert (H2 : 251 <= 100000) by lia.
  assert (H3 : 0 <= Cost outfit_1000 < 2 ^ 53) by (cbn; lia).
  split.
  - exact (proj2 (proj1 (CostFunction_floor outfit_1000 100000 H1) H2)).
  - exact (proj2 (CostFunction_floor outfit_1000 100000 H1) H3).
Defined.

(** X19: the ranges of the random wear. Whatever [Random::Int] returns
    within its range (from 0 to its argument, excluded), [UsedWear]
    returns a wear level from 50 to 124 and [PlunderWear] one from 175 to
    224; so an outfit whose base cost is between 0 and 2 ^ 53 is never
    worth more at a plundered wear than at a used wear. *)
Theorem random_wear_ranges (Random_Int Random_Int' : Z -> Z) (outfit : Outfit) :
  (forall n, 0 < n -> 0 <= Random_Int n < n) ->
  (forall n, 0 < n -> 0 <= Random_Int' n < n) ->
  50 <= UsedWear Random_Int <= 124
  /\ 175 <= PlunderWear Random_Int' <= 224
  /\ (0 <= Cost outfit < 2 ^ 53 ->
      CostFunction outfit (PlunderWear Random_Int')
      <= CostFunction outfit (UsedWear Random_Int)).
Proof.
  intros HR HR'. rewrite UsedWear_unfold, PlunderWear_unfold.
  pose proof (HR 75 ltac:(lia)) as H1. pose proof (HR' 50 ltac:(lia)) as H2.
  rewrite !add_small by (unfold Int.in_int, Int.INT_MIN, Int.INT_MAX; lia).
  split; [lia|]. split; [lia|]. intros Hc.
  apply CostFunction_antitone; [done|lia|]. unfold Int.INT_MAX. lia.
Qed.

Lemma random_wear_ranges_witness :
  50 <= UsedWear (fun _ => 0) <= 124 /\ 175 <= PlunderWear (fun n => n - 1) <= 224.
Proof.
  assert (H1 : forall n, 0 < n -> 0 <= (fun _ : Z => 0) n < n) by (cbn; lia).
  assert (H2 : forall n, 0 < n -> 0 <= (fun n : Z => n - 1) n < n) by (cbn; lia).
  destruct (random_wear_ranges (fun _ => 0) (fun n => n - 1) outfit_1000 H1 H2)
    as (Hu & Hp & _).
  split; [exact Hu|exact Hp].
Defined.

(** X20: [GetTotalAttribute] adds up in the order of the iterator. On a
    group without an empty ledger the loop ends, and the value returned
    is the [double] sum, started at 0 and taken bucket after bucket by
    ascending outfit and wear level, of the attribute of the outfit times
    the quantity of the bucket; the sum of an empty group is 0. *)
Theorem GetTotalAttribute_sums_in_order (objects : N -> Outfit) (address : nat)
  (group : OutfitGroup) (attribute : string) (k : nat) :
  no_empty_ledger group ->
  GetTotalAttribute (length (positions group) + S k) objects address group
    attribute
  = Returns
      (foldl (fun value p =>
                double_add value
                  (Double.mul (Get (objects p.1) attribute)
                     (Double.of_int (quantity group p.1 p.2))))
         (S754_zero false) (positions group)).
Proof.
  intros Hne. unfold GetTotalAttribute. rewrite for_each_begin by done.
  rewrite run_body_attribute by apply positions_held. done.
Qed.

Lemma GetTotalAttribute_sums_in_order_witness :
  GetTotalAttribute 4
    (fun _ => {| Cost := 1000; Category := "Guns";
                 Get := fun _ => Double.of_int 3 |}) 0
    {[ 1%N := {[ 0 := 3; 5 := 2 ]}; 2%N := {[ 7 := 1 ]} ]} "mass"
  = Returns (Double.of_int 18).
Proof.
  assert (H1 : no_empty_ledger
                 {[ 1%N := {[ 0 := 3; 5 := 2 ]}; 2%N := {[ 7 := 1 ]} ]})
    by (unfold no_empty_ledger; compute_done).
  rewrite (GetTotalAttribute_sums_in_order _ 0 _ "mass" 0 H1).
  by vm_compute.
Defined.

(** X25: a count that is not positive. On a well-formed group that holds
    the outfit, [RemoveOutfit] with [count <= 0] depends on the order:
    least worn first, the loop does not run, nothing changes and 0 is
    returned; most worn first, the body of the do-while loop runs once
    before the test, so that [count] is returned, the most worn bucket
    gets [-count] units more, and [*to], when there is one, gets
    [AddOutfit(outfit, count, wear)] at that wear level. *)
Theorem RemoveOutfit_nonpositive_count (this : OutfitGroup) (outfit : N)
  (count : Z) (to : option OutfitGroup) (led : InnerMap) :
  well_formed this -> this !! outfit = Some led ->
  Int.in_int count -> count <= 0 ->
  let wear := GetMaxWear this outfit in
  quantity this outfit wear - count <= Int.INT_MAX ->
  RemoveOutfit this outfit count false to = (0, this, to)
  /\ RemoveOutfit this outfit count true to
     = (count,
        <[outfit := <[wear := quantity this outfit wear - count]> led]> this,
        (fun g => (AddOutfit g outfit count wear).1) <$> to).
Proof.
  intros Hwf Hl Hc Hle wear Hfit.
  destruct (well_formed_ledger _ _ _ Hwf Hl) as (Ht & Hp & Hne).
  split.
  - unfold RemoveOutfit. rewrite Hl.
    destruct (keys_asc led) as [|w ws] eqn:Hk.
    + by apply keys_asc_nil in Hk.
    + cbn [drain_least_worn removed ledger dest].
      destruct (Z.ltb_spec 0 count) as [?|_]; [lia|]. cbn [removed ledger dest].
      unfold store. rewrite bool_decide_eq_false_2 by done. by rewrite insert_id.
  - destruct (GetMaxWear_lookup _ _ _ Hl Hne) as [[q Hq] _]. fold wear in Hq.
    assert (Hqpos : 0 < q) by (by apply (Hp _ _ Hq)).
    assert (Hqs : quantity this outfit wear = q).
    { by rewrite (quantity_lookup _ _ _ _ Hl), (at_wear_Some _ _ _ Hq). }
    rewrite Hqs in *.
    assert (Hkd : exists ws, keys_desc led = wear :: ws).
    { unfold wear, GetMaxWear, Find. rewrite Hl.
      destruct (keys_desc led) as [|w ws] eqn:Hk; [|by eauto].
      unfold keys_desc in Hk. apply (f_equal reverse) in Hk.
      rewrite reverse_involutive in Hk. by apply keys_asc_nil in Hk. }
    destruct Hkd as [ws Hkd].
    assert (Hs0 : Int.sub count 0 = count).
    { rewrite sub_small; [lia|]. by rewrite Z.sub_0_r. }
    assert (Hs1 : Int.sub q count = q - count).
    { apply sub_small. revert Hfit Hc. unfold Int.in_int, Int.INT_MIN, Int.INT_MAX. lia. }
    assert (Ha : Int.add 0 count = count).
    { rewrite add_small; [lia|]. by rewrite Z.add_0_l. }
    assert (Hb : drain_bucket outfit count wear
                   {| ledger := led; dest := to; removed := 0; toErase := [] |}
                 = {| ledger := <[wear := q - count]> led;
                      dest := (fun g => (AddOutfit g outfit count wear).1) <$> to;
                      removed := count; toErase := [] |}).
    { unfold drain_bucket. cbn [ledger dest removed toErase].
      rewrite (at_wear_Some _ _ _ Hq), Hs0, Z.min_r by lia. by rewrite Hs1, Ha. }
    unfold RemoveOutfit. rewrite Hl, Hkd. cbn [drain_most_worn]. rewrite Hb.
    cbn [ledger dest removed toErase].
    rewrite at_wear_insert, decide_True by done.
    destruct (Z.eqb_spec (q - count) 0) as [?|_]; [lia|].
    cbn [removed]. destruct (Z.ltb_spec count count) as [?|_]; [lia|]. cbn [andb].
    cbn [erase_marked removed ledger dest toErase erase_all foldl].
    unfold store. rewrite bool_decide_eq_false_2; [done|]. apply insert_non_empty.
Qed.

Lemma RemoveOutfit_nonpositive_count_witness :
  RemoveOutfit {[ 1%N := {[ 0 := 3; 5 := 2 ]} ]} 1 (-4) false None
  = (0, {[ 1%N := {[ 0 := 3; 5 := 2 ]} ]}, None)
  /\ (RemoveOutfit {[ 1%N := {[ 0 := 3; 5 := 2 ]} ]} 1 (-4) true None).1.1 = -4
  /\ quantity (RemoveOutfit {[ 1%N := {[ 0 := 3; 5 := 2 ]} ]} 1 (-4) true None).1.2
       1 5 = 6.
Proof.
  assert (H1 : well_formed {[ 1%N := {[ 0 := 3; 5 := 2 ]} ]}) by compute_done.
  assert (H2 : ({[ 1%N := {[ 0 := 3; 5 := 2 ]} ]} : OutfitGroup) !! 1%N
               = Some {[ 0 := 3; 5 := 2 ]}) by reflexivity.
  assert (H3 : Int.in_int (-4)) by compute_done.
  assert (H4 : -4 <= 0) by lia.
  assert (H5 : quantity {[ 1%N := {[ 0 := 3; 5 := 2 ]} ]} 1
                 (GetMaxWear {[ 1%N := {[ 0 := 3; 5 := 2 ]} ]} 1) - -4
               <= Int.INT_MAX) by (by vm_compute).
  destruct (RemoveOutfit_nonpositive_count _ 1 (-4) None _ H1 H2 H3 H4 H5)
    as [E1 E2].
  split; [exact E1|]. rewrite E2. split; by vm_compute.
Defined.

(** X22: adding units widens the range of the wear levels to the wear
    level added. After [AddOutfit] of a positive number of units at
    [wear] to a well-formed group (no overflow of the bucket),
    [GetMinWear] of the outfit is the lesser of [wear] and what it was,
    [GetMaxWear] the greater, and both are [wear] when the group did not
    hold the outfit. *)
Theorem AddOutfit_wear_range (this : OutfitGroup) (outfit : N) (count wear : Z) :
  well_formed this -> Int.in_int count -> 0 < count ->
  quantity this outfit wear + count <= Int.INT_MAX ->
  let this' := (AddOutfit this outfit count wear).1 in
  GetMinWear this' outfit
  = match this !! outfit with
    | Some _ => Z.min (GetMinWear this outfit) wear
    | None => wear
    end
  /\ GetMaxWear this' outfit
     = match this !! outfit with
       | Some _ => Z.max (GetMaxWear this outfit) wear
       | None => wear
       end.
Proof.
  intros Hwf Hc Hpos Hfit this'.
  destruct (AddOutfit_held this outfit count wear Hwf Hc Hpos Hfit) as [Hl' Hw].
  fold this' in Hl'. unfold ledger_of in Hw.
  destruct (this !! outfit) as [led|] eqn:Hl.
  - destruct (well_formed_ledger _ _ _ Hwf Hl) as (_ & _ & Hne).
    destruct (GetMinWear_lookup _ _ _ Hl Hne) as [Hmin Hle].
    destruct (GetMaxWear_lookup _ _ _ Hl Hne) as [Hmax Hge].
    split.
    + apply (GetMinWear_unique _ _ _ _ Hl').
      * apply Hw. destruct (Z.min_spec (GetMinWear this outfit) wear) as [[_ ->]|[_ ->]];
          [by right|by left].
      * intros w [->|Hin]%Hw; [lia|]. specialize (Hle _ Hin). lia.
    + apply (GetMaxWear_unique _ _ _ _ Hl').
      * apply Hw. destruct (Z.max_spec (GetMaxWear this outfit) wear) as [[_ ->]|[_ ->]];
          [by left|by right].
      * intros w [->|Hin]%Hw; [lia|]. specialize (Hge _ Hin). lia.
  - split.
    + apply (GetMinWear_unique _ _ _ _ Hl'); [apply Hw; by left|].
      intros w [->|Hin]%Hw; [lia|]. rewrite lookup_empty in Hin. by destruct Hin.
    + apply (GetMaxWear_unique _ _ _ _ Hl'); [apply Hw; by left|].
      intros w [->|Hin]%Hw; [lia|]. rewrite lookup_empty in Hin. by destruct Hin.
Qed.

Lemma AddOutfit_wear_range_witness :
  GetMinWear (AddOutfit {[ 1%N := {[ 3 := 3; 5 := 2 ]} ]} 1 4 9).1 1 = 3
  /\ GetMaxWear (AddOutfit {[ 1%N := {[ 3 := 3; 5 := 2 ]} ]} 1 4 9).1 1 = 9.
Proof.
  assert (H1 : well_formed {[ 1%N := {[ 3 := 3; 5 := 2 ]} ]}) by compute_done.
  assert (H2 : Int.in_int 4) by compute_done.
  assert (H3 : 0 < 4) by lia.
  assert (H4 : quantity {[ 1%N := {[ 3 := 3; 5 := 2 ]} ]} 1 9 + 4 <= Int.INT_MAX)
    by (by vm_compute).
  exact (AddOutfit_wear_range _ 1 4 9 H1 H2 H3 H4).
Defined.

(** X23: a partial removal leaves the other end of the ledger alone. When
    [RemoveOutfit] is asked for fewer units than a well-formed group holds
    of the outfit, most worn first it leaves [GetMinWear] of the outfit as
    it was, and least worn first it leaves [GetMaxWear] as it was. *)
Theorem RemoveOutfit_keeps_other_end (this : OutfitGroup) (outfit : N)
  (count : Z) (to : option OutfitGroup) :
  well_formed this -> Int.in_int count ->
  0 < count < total_quantity this outfit ->
  GetMinWear (RemoveOutfit this outfit count true to).1.2 outfit
  = GetMinWear this outfit
  /\ GetMaxWear (RemoveOutfit this outfit count false to).1.2 outfit
     = GetMaxWear this outfit.
Proof.
  intros Hwf Hc Hcount.
  destruct (this !! outfit) as [led|] eqn:Hl.
  2:{ unfold total_quantity in Hcount. rewrite Hl in Hcount. lia. }
  destruct (well_formed_ledger _ _ _ Hwf Hl) as (Ht & Hp & Hne).
  destruct (GetMinWear_lookup _ _ _ Hl Hne) as [Hmin Hle].
  destruct (GetMaxWear_lookup _ _ _ Hl Hne) as [Hmax Hge].
  split.
  - assert (Hk : exists ws, keys_desc led = ws ++ [GetMinWear this outfit]).
    { unfold GetMinWear, Find, keys_desc. rewrite Hl.
      destruct (keys_asc led) as [|w ks] eqn:Hk; [by apply keys_asc_nil in Hk|].
      exists (reverse ks). by rewrite reverse_cons. }
    destruct Hk as [ws Hk].
    destruct (RemoveOutfit_last_bucket this outfit count true to led ws _
                Hwf Hl Hc Hcount Hk) as (led' & Hl' & Hkept & Hsub).
    apply (GetMinWear_unique _ _ _ _ Hl' Hkept). intros w Hw. by apply Hle, Hsub.
  - assert (Hk : exists ws, keys_asc led = ws ++ [GetMaxWear this outfit]).
    { unfold GetMaxWear, Find. rewrite Hl.
      destruct (keys_desc led) as [|w ks] eqn:Hk.
      - unfold keys_desc in Hk. apply (f_equal reverse) in Hk.
        rewrite reverse_involutive in Hk. by apply keys_asc_nil in Hk.
      - exists (reverse ks). unfold keys_desc in Hk. apply (f_equal reverse) in Hk.
        rewrite reverse_involutive in Hk. by rewrite Hk, reverse_cons. }
    destruct Hk as [ws Hk].
    destruct (RemoveOutfit_last_bucket this outfit count false to led ws _
                Hwf Hl Hc Hcount Hk) as (led' & Hl' & Hkept & Hsub).
    apply (GetMaxWear_unique _ _ _ _ Hl' Hkept). intros w Hw. by apply Hge, Hsub.
Qed.

Lemma RemoveOutfit_keeps_other_end_witness :
  GetMinWear (RemoveOutfit {[ 1%N := {[ 0 := 3; 5 := 2 ]} ]} 1 4 true None).1.2 1 = 0
  /\ GetMaxWear (RemoveOutfit {[ 1%N := {[ 0 := 3; 5 := 2 ]} ]} 1 4 false None).1.2 1
     = 5.
Proof.
  assert (H1 : well_formed {[ 1%N := {[ 0 := 3; 5 := 2 ]} ]}) by compute_done.
  assert (H2 : Int.in_int 4) by compute_done.
  assert (H3 : 0 < 4 < total_quantity {[ 1%N := {[ 0 := 3; 5 := 2 ]} ]} 1)
    by (by vm_compute).
  exact (RemoveOutfit_keeps_other_end _ 1 4 None H1 H2 H3).
Defined.

(** X24: ageing never raises a quote. For an outfit whose base cost is
    between 0 and 2 ^ 53, held by a well-formed group at wear levels that
    are not negative, [IncrementWear] by a value that is not negative (and
    overflows no wear level) leaves the quote of [GetCost], for the same
    count and the same order, at or below what it was. *)
Theorem IncrementWear_lowers_quote (objects : N -> Outfit) (this : OutfitGroup)
  (outfit : N) (count : Z) (mostWornFirst : bool) (value : Z) :
  well_formed this -> Int.in_int count -> 0 <= count -> 0 <= value ->
  0 <= Cost (objects outfit) < 2 ^ 53 ->
  (forall w q, bucket this outfit w q -> 0 <= w /\ w + value <= Int.INT_MAX) ->
  Cost (objects outfit) * total_quantity this outfit <= Int64.INT64_MAX ->
  GetCost objects (IncrementWear value this) outfit count mostWornFirst
  <= GetCost objects this outfit count mostWornFirst.
Proof.
  intros Hwf Hc Hcount Hvalue Hcost Hwear Hfit.
  pose proof (IncrementWear_well_formed value this Hwf) as Hwf'.
  destruct (this !! outfit) as [led|] eqn:Hl.
  2:{ unfold GetCost. by rewrite IncrementWear_lookup, Hl. }
  destruct (well_formed_ledger _ _ _ Hwf Hl) as (Ht & Hp & Hne).
  assert (Hl' : IncrementWear value this !! outfit = Some (shift_ledger value led))
    by (by rewrite IncrementWear_lookup, Hl).
  rewrite (GetCost_quote objects _ outfit count mostWornFirst _ (proj2 Hwf') Hl' Hc).
  rewrite (GetCost_quote objects _ outfit count mostWornFirst _ (proj2 Hwf) Hl Hc).
  set (ws := if mostWornFirst then keys_desc led else keys_asc led).
  assert (Hin : forall w, w ∈ ws <-> is_Some (led !! w)).
  { intros w. unfold ws.
    destruct mostWornFirst; [apply elem_of_keys_desc|apply elem_of_keys_asc]. }
  assert (Hrange : forall w, w ∈ ws -> 0 <= w /\ w + value <= Int.INT_MAX).
  { intros w [q Hq]%Hin. apply (Hwear w q). unfold bucket, ledger_of. by rewrite Hl. }
  assert (Hint : forall w, is_Some (led !! w) -> Int.in_int (w + value)).
  { intros w Hw%Hin. destruct (Hrange w Hw).
    unfold Int.in_int, Int.INT_MIN. lia. }
  assert (Hws' : (if mostWornFirst then keys_desc (shift_ledger value led)
                  else keys_asc (shift_ledger value led))
                 = (fun w => w + value) <$> ws).
  { unfold ws, keys_desc. rewrite (keys_asc_shift_ledger value led Ht Hint).
    destruct mostWornFirst; [by rewrite fmap_reverse|done]. }
  rewrite Hws', quote_fmap.
  rewrite (quote_ext _ (CostFunction (objects outfit) ∘ (fun w => w + value))
             _ (at_wear led) count ws).
  2:{ intros w Hw. split; [done|]. cbn [compose].
      rewrite <- (add_small w value) by (by apply Hint, Hin).
      apply at_wear_shift_ledger; [done|by apply Hin]. }
  assert (Hq : forall w, w ∈ ws -> 0 < at_wear led w).
  { intros w Hw. apply at_wear_pos; [done|by apply Hin]. }
  assert (Hkeys : forall w, w ∈ ws -> is_Some (led !! w) /\ 0 <= w <= Int.INT_MAX).
  { intros w Hw. split; [by apply Hin|]. destruct (Hrange w Hw). lia. }
  assert (HT : Zsum (at_wear led <$> ws) = total_quantity this outfit).
  { unfold total_quantity. rewrite Hl. symmetry. apply ledger_total_keys.
    unfold ws. destruct mostWornFirst; [apply reverse_Permutation|done]. }
  pose proof (quote_bounds (objects outfit) led count ws Hcost Hp Hkeys Hcount) as B.
  rewrite HT in B.
  pose proof (well_formed_total_nonneg this outfit Hwf) as Hnn.
  assert (Hm : Cost (objects outfit) * Z.min count (total_quantity this outfit)
               <= Cost (objects outfit) * total_quantity this outfit)
    by (apply Z.mul_le_mono_nonneg_l; lia).
  assert (Hle : quote (CostFunction (objects outfit) ∘ (fun w => w + value))
                  (at_wear led) count ws
                <= quote (CostFunction (objects outfit)) (at_wear led) count ws).
  { apply quote_mono_price; [|done|done].
    intros w Hw. destruct (Hrange w Hw). cbn [compose].
    apply CostFunction_antitone; (done || lia). }
  assert (Hge : 0 <= quote (CostFunction (objects outfit) ∘ (fun w => w + value))
                       (at_wear led) count ws).
  { pose proof (quote_lipschitz (CostFunction (objects outfit) ∘ (fun w => w + value))
                  (at_wear led) (Cost (objects outfit)) count 0 ws Hq) as HL.
    rewrite quote_nothing in HL by done. rewrite Z.sub_0_r in HL. apply HL; [|lia].
    intros w Hw. destruct (Hrange w Hw). cbn [compose].
    split; [apply CostFunction_nonneg|apply CostFunction_le_Cost]; (done || lia). }
  rewrite !wrap64_small
    by (unfold Int64.in_int64; revert Hfit; unfold Int64.INT64_MIN, Int64.INT64_MAX; lia).
  done.
Qed.

Lemma IncrementWear_lowers_quote_witness :
  GetCost (fun _ => outfit_1000) (IncrementWear 10 {[ 1%N := {[ 0 := 3; 5 := 2 ]} ]})
    1 4 true
  <= GetCost (fun _ => outfit_1000) {[ 1%N := {[ 0 := 3; 5 := 2 ]} ]} 1 4 true.
Proof.
  assert (H1 : well_formed {[ 1%N := {[ 0 := 3; 5 := 2 ]} ]}) by compute_done.
  assert (H2 : Int.in_int 4) by compute_done.
  assert (H3 : 0 <= 4) by lia.
  assert (H4 : 0 <= 10) by lia.
  assert (H5 : 0 <= Cost ((fun _ : N => outfit_1000) 1%N) < 2 ^ 53) by (cbn; lia).
  assert (H6 : forall w q, bucket {[ 1%N := {[ 0 := 3; 5 := 2 ]} ]} 1 w q ->
                 0 <= w /\ w + 10 <= Int.INT_MAX).
  { intros w q Hw.
    assert (Hk : w ∈ keys_asc (ledger_of {[ 1%N := {[ 0 := 3; 5 := 2 ]} ]} 1))
      by (apply elem_of_keys_asc; by exists q).
    assert (E : keys_asc (ledger_of {[ 1%N := {[ 0 := 3; 5 := 2 ]} ]} 1) = [0; 5])
      by (by vm_compute).
    rewrite E in Hk. unfold Int.INT_MAX.
    apply elem_of_cons in Hk as [->|Hk]; [lia|].
    apply elem_of_cons in Hk as [->|Hk]; [lia|]. by apply not_elem_of_nil in Hk. }
  assert (H7 : Cost ((fun _ : N => outfit_1000) 1%N)
               * total_quantity {[ 1%N := {[ 0 := 3; 5 := 2 ]} ]} 1
               <= Int64.INT64_MAX) by (by vm_compute).
  exact (IncrementWear_lowers_quote (fun _ => outfit_1000) _ 1 4 true 10
           H1 H2 H3 H4 H5 H6 H7).
Defined.

(** X21: an empty group holds nothing. A well-formed group is [Empty()]
    exactly when it holds no unit of any outfit; after [Clear()] the group
    is [Empty()], [Find] gives the null pointer and [GetTotalCount] 0 for
    every outfit. *)
Theorem Empty_holds_nothing (this : OutfitGroup) :
  well_formed this ->
  (Empty this = true <-> forall outfit, total_quantity this outfit = 0)
  /\ Empty (Clear this) = true
  /\ (forall outfit, Find (Clear this) outfit = None
                     /\ GetTotalCount (Clear this) outfit = 0).
Proof.
  intros Hwf. split; [|split; [done|done]].
  unfold Empty. rewrite bool_decide_eq_true. split.
  - intros -> outfit. done.
  - intros Hz. apply map_eq. intros o. rewrite lookup_empty.
    destruct (this !! o) as [led|] eqn:Hl; [|done]. exfalso.
    destruct (well_formed_ledger _ _ _ Hwf Hl) as (_ & Hp & Hne).
    destruct (GetMinWear_lookup _ _ _ Hl Hne) as [[q Hq] _].
    pose proof (positive_bucket_le_total led _ q Hp Hq) as Hb.
    specialize (Hz o). unfold total_quantity in Hz. rewrite Hl in Hz. lia.
Qed.

Lemma Empty_holds_nothing_witness :
  Empty {[ 1%N := {[ 0 := 3; 5 := 2 ]} ]} = false
  /\ Empty (Clear {[ 1%N := {[ 0 := 3; 5 := 2 ]} ]}) = true.
Proof.
  assert (H1 : well_formed {[ 1%N := {[ 0 := 3; 5 := 2 ]} ]}) by compute_done.
  destruct (Empty_holds_nothing _ H1) as (Hiff & Hclear & _).
  split; [|exact Hclear].
  destruct (Empty {[ 1%N := {[ 0 := 3; 5 := 2 ]} ]}) eqn:E; [|reflexivity].
  pose proof (proj1 Hiff eq_refl 1%N) as H0. by vm_compute in H0.
Defined.

(** X26: a transfer conserves the value of the two groups together. For
    two different well-formed groups, [GetTotalCost()] of [*this] plus
    [GetTotalCost()] of [*to] is, in the arithmetic of [int64_t], the same
    after [TransferOutfits] as before, whatever the count and the
    order. *)
Theorem TransferOutfits_conserves_value (objects : N -> Outfit)
  (address address' : nat) (fuel : nat) (this to : OutfitGroup) (outfit : N)
  (count : Z) (mostWornFirst : bool) (defaultWear : Z) :
  well_formed this -> well_formed to ->
  Int.in_int count -> Int.INT_MIN < count ->
  total_quantity this outfit + total_quantity to outfit <= Int.INT_MAX ->
  exists r this' to' c1 c2 c1' c2',
    TransferOutfits (S (S fuel)) this outfit count (Some to) mostWornFirst
      defaultWear = Some (r, this', Some to')
    /\ GetTotalCost (length (positions this) + 1) objects address this = Returns c1
    /\ GetTotalCost (length (positions to) + 1) objects address' to = Returns c2
    /\ GetTotalCost (length (positions this') + 1) objects address this'
       = Returns c1'
    /\ GetTotalCost (length (positions to') + 1) objects address' to'
       = Returns c2'
    /\ Int64.add c1' c2' = Int64.add c1 c2.
Proof.
  intros Hwf Hwt Hc Hmin Hfit.
  destruct (TransferOutfits_transferred fuel this to outfit count mostWornFirst
              defaultWear Hwf Hwt Hc Hmin Hfit)
    as (r & this' & to' & E & (Hw1 & Hw2 & Hq & _) & _).
  eexists r, this', to', _, _, _, _. split; [exact E|].
  split; [by apply (GetTotalCost_sums_buckets objects _ _ 0), well_formed_no_empty_ledger|].
  split; [by apply (GetTotalCost_sums_buckets objects _ _ 0), well_formed_no_empty_ledger|].
  split; [by apply (GetTotalCost_sums_buckets objects _ _ 0), well_formed_no_empty_ledger|].
  split; [by apply (GetTotalCost_sums_buckets objects _ _ 0), well_formed_no_empty_ledger|].
  unfold Int64.add. rewrite !wrap64_wrap_add, !wrap64_add_wrap.
  f_equal. by apply value_conserved.
Qed.

Lemma TransferOutfits_conserves_value_witness :
  exists r this' to' c1 c2 c1' c2',
    TransferOutfits 2 {[ 1%N := {[ 0 := 3; 5 := 2 ]} ]} 1 4
      (Some {[ 1%N := {[ 5 := 3 ]} ]}) true 0 = Some (r, this', Some to')
    /\ GetTotalCost (length (positions {[ 1%N := {[ 0 := 3; 5 := 2 ]} ]}) + 1)
         (fun _ => outfit_1000) 0 {[ 1%N := {[ 0 := 3; 5 := 2 ]} ]} = Returns c1
    /\ GetTotalCost (length (positions {[ 1%N := {[ 5 := 3 ]} ]}) + 1)
         (fun _ => outfit_1000) 1 {[ 1%N := {[ 5 := 3 ]} ]} = Returns c2
    /\ GetTotalCost (length (positions this') + 1) (fun _ => outfit_1000) 0 this'
       = Returns c1'
    /\ GetTotalCost (length (positions to') + 1) (fun _ => outfit_1000) 1 to'
       = Returns c2'
    /\ Int64.add c1' c2' = Int64.add c1 c2.
Proof.
  assert (H1 : well_formed {[ 1%N := {[ 0 := 3; 5 := 2 ]} ]}) by compute_done.
  assert (H2 : well_formed {[ 1%N := {[ 5 := 3 ]} ]}) by compute_done.
  assert (H3 : Int.in_int 4) by compute_done.
  assert (H4 : Int.INT_MIN < 4) by (by vm_compute).
  assert (H5 : total_quantity {[ 1%N := {[ 0 := 3; 5 := 2 ]} ]} 1
               + total_quantity {[ 1%N := {[ 5 := 3 ]} ]} 1 <= Int.INT_MAX)
    by (by vm_compute).
  exact (TransferOutfits_conserves_value (fun _ => outfit_1000) 0 1 0 _ _ 1 4 true 0
           H1 H2 H3 H4 H5).
Defined.

(** X27: the value ratio is between the floor and 1. At a bucket whose
    wear level is not negative, [iterator::GetCostRatio] is a [double]
    between [DEFAULT_MIN_PRICE] and [1.], and it is [1.] exactly at wear
    0 and [DEFAULT_MIN_PRICE] from wear 251 on. *)
Theorem GetCostRatio_bounds (address : nat) (outfit : N) (wear : Z) :
  0 <= wear <= Int.INT_MAX ->
  exists ratio,
    GetCostRatio (cursor address (outfit, wear)) = Some ratio
    /\ canonicalb ratio = true
    /\ fleb DEFAULT_MIN_PRICE ratio = true
    /\ fleb ratio Double.one = true
    /\ (wear = 0 -> ratio = Double.one)
    /\ (251 <= wear -> ratio = DEFAULT_MIN_PRICE).
Proof.
  intros Hw. exists (CostFunction_wear wear). split; [done|].
  split; [by apply CostFunction_wear_canonical|]. split; [|split; [|split]].
  - rewrite <- (CostFunction_wear_floor_251 Int.INT_MAX) by (by vm_compute).
    apply CostFunction_wear_antitone; lia.
  - change Double.one with (CostFunction_wear 0).
    apply CostFunction_wear_antitone; lia.
  - by intros ->.
  - intros Hge. apply CostFunction_wear_floor_251. lia.
Qed.

Lemma GetCostRatio_bounds_witness :
  exists ratio,
    GetCostRatio (cursor 0 (1%N, 126)) = Some ratio
    /\ fleb DEFAULT_MIN_PRICE ratio = true /\ fleb ratio Double.one = true.
Proof.
  assert (H1 : 0 <= 126 <= Int.INT_MAX) by (by vm_compute).
  destruct (GetCostRatio_bounds 0 1 126 H1) as (ratio & E & _ & Hlo & Hhi & _).
  exists ratio. split; [exact E|]. split; [exact Hlo|exact Hhi].
Defined.

(** X28: the public operations keep the groups well formed. From
    well-formed groups (from empty groups in particular), after any
    sequence of calls of [AddOutfit] that leave the bucket they write
    positive (every positive count, and a negative count that takes less
    than the bucket holds), of [RemoveOutfit] with a positive count, of
    [TransferOutfits] with a count other than [INT_MIN], of
    [IncrementWear] and of [Clear], between two different groups and
    without overflow of a quantity, no outfit has an empty ledger and
    every quantity of every ledger is strictly positive. *)
Theorem admissible_calls_keep_well_formed (cs : list call)
  (groups groups' : list OutfitGroup) :
  Forall well_formed groups -> admissible_run cs groups ->
  run cs groups = Some groups' ->
  Forall well_formed groups'
  /\ forall g outfit led, g ∈ groups' -> g !! outfit = Some led ->
       led <> ∅ /\ forall w q, led !! w = Some q -> 0 < q.
Proof.
  intros Hall Hadm Hrun.
  assert (Hwf : Forall well_formed groups').
  { revert groups Hall Hadm Hrun. induction cs as [|c cs IH]; intros groups Hall Hadm Hrun.
    - by injection Hrun as <-.
    - cbn [run] in Hrun. destruct Hadm as [Hc Hrest].
      destruct (run_call c groups) as [groups1|] eqn:E; [|done].
      apply (IH groups1); [|by apply Hrest|done].
      by apply (run_call_well_formed c groups). }
  split; [done|]. intros g outfit led Hg Hl.
  rewrite Forall_forall in Hwf. destruct (Hwf g Hg) as [_ Hn].
  destruct (Hn outfit led Hl) as [Hne Hp]. split; [done|]. intros w q Hq.
  by apply (Hp w q).
Qed.

Lemma admissible_calls_keep_well_formed_witness :
  Forall well_formed [∅; ∅]
  /\ admissible_run [CallAddOutfit 0 1%N 5 0;
                     CallAddOutfit 0 1%N (-2) 0;
                     CallTransferOutfits 0 1%N 2 (Some 1%nat) true 0;
                     CallIncrementWear 1 7] [∅; ∅]
  /\ run [CallAddOutfit 0 1%N 5 0;
          CallAddOutfit 0 1%N (-2) 0;
          CallTransferOutfits 0 1%N 2 (Some 1%nat) true 0;
          CallIncrementWear 1 7] [∅; ∅]
     = Some [ {[ 1%N := {[ 0 := 1 ]} ]}; {[ 1%N := {[ 7 := 2 ]} ]} ]
  /\ Forall well_formed [ {[ 1%N := {[ 0 := 1 ]} ]}; {[ 1%N := {[ 7 := 2 ]} ]} ].
Proof.
  assert (H1 : Forall well_formed [∅; ∅]) by compute_done.
  assert (H2 : admissible_run [CallAddOutfit 0 1%N 5 0;
                     CallAddOutfit 0 1%N (-2) 0;
                     CallTransferOutfits 0 1%N 2 (Some 1%nat) true 0;
                     CallIncrementWear 1 7] [∅; ∅]).
  { split.
    - split; [compute_done|]. split; [compute_done|].
      intros g [= <-]. by vm_compute.
    - intros groups1 E. vm_compute in E. injection E as <-. split.
      + split; [compute_done|]. split; [compute_done|].
        intros g [= <-]. by vm_compute.
      + intros groups2 E. vm_compute in E. injection E as <-. split.
        * split; [compute_done|]. split; [by vm_compute|]. split; [compute_done|].
          split; [|done]. intros g h [= <-] [= <-]. by vm_compute.
        * intros groups3 E. vm_compute in E. injection E as <-. split; [done|].
          intros groups4 _. exact I. }
  assert (H3 : run [CallAddOutfit 0 1%N 5 0;
          CallAddOutfit 0 1%N (-2) 0;
          CallTransferOutfits 0 1%N 2 (Some 1%nat) true 0;
          CallIncrementWear 1 7] [∅; ∅]
     = Some [ {[ 1%N := {[ 0 := 1 ]} ]}; {[ 1%N := {[ 7 := 2 ]} ]} ])
    by (vm_compute; reflexivity).
  split; [exact H1|]. split; [exact H2|]. split; [exact H3|].
  exact (proj1 (admissible_calls_keep_well_formed _ _ _ H1 H2 H3)).
Defined.
